(** * pdf-mcp: the URL fetcher and its download cache

    A shallow embedding of [src/pdf_mcp/url_fetcher.py] (class [URLFetcher])
    and the properties of its SSRF guard, redirect loop, size budget,
    content sniffing and download cache.

    Conventions.
    - A Python [str] is a [string]; a character is the code point of an
      8-bit [ascii] (the Latin-1 range of [str]).
    - A Python [bytes] is a [list byte].
    - A Python [int] is a [Z].
    - A [Path] below [self.cache_dir] is the file name it ends in: every
      path the class builds is [self.cache_dir / filename]. *)

From Stdlib Require Import ZArith Lia List Ascii String Bool.
From Stdlib.Strings Require Import Byte.
From stdpp Require Import gmap strings list.
Import ListNotations.

Local Open Scope string_scope.
Local Open Scope list_scope.
Local Open Scope Z_scope.

(** ** Python string and bytes primitives *)

Module Py.

Definition ord (c : ascii) : Z := Z.of_N (N_of_ascii c).

Definition in_range (lo hi x : Z) : bool := (lo <=? x) && (x <=? hi).

(** [str.isalnum] on one character, for the code points below 256:
    ASCII digits and letters, and in the upper half the letters
    (U+00AA, U+00B5, U+00BA, U+00C0..U+00FF without the two operator signs)
    and the numeric characters (superscripts and vulgar fractions). *)
Definition isalnum (c : ascii) : bool :=
  let x := ord c in
  in_range 48 57 x || in_range 65 90 x || in_range 97 122 x
  || (x =? 170) || (x =? 178) || (x =? 179) || (x =? 181) || (x =? 185)
  || (x =? 186) || in_range 188 190 x
  || in_range 192 214 x || in_range 216 246 x || in_range 248 255 x.

(** [str.lower] on one character: A-Z and the Latin-1 capitals move up
    by 32. *)
Definition lower_char (c : ascii) : ascii :=
  let x := ord c in
  if in_range 65 90 x || in_range 192 214 x || in_range 216 222 x
  then ascii_of_N (Z.to_N (x + 32)) else c.

Fixpoint lower (s : string) : string :=
  match s with
  | EmptyString => EmptyString
  | String c r => String (lower_char c) (lower r)
  end.

(** [c in chars] for a character [c]. *)
Fixpoint char_in (c : ascii) (chars : string) : bool :=
  match chars with
  | EmptyString => false
  | String d r => Ascii.eqb c d || char_in c r
  end.

(** ["".join(c for c in s if keep(c))] *)
Fixpoint join_if (keep : ascii -> bool) (s : string) : string :=
  match s with
  | EmptyString => EmptyString
  | String c r => if keep c then String c (join_if keep r) else join_if keep r
  end.

(** [all(p(c) for c in s)] *)
Fixpoint all_chars (p : ascii -> bool) (s : string) : bool :=
  match s with
  | EmptyString => true
  | String c r => p c && all_chars p r
  end.

(** [s.startswith(pre)] *)
Fixpoint startswith (s pre : string) : bool :=
  match pre, s with
  | EmptyString, _ => true
  | String p pre', String c s' => Ascii.eqb c p && startswith s' pre'
  | String _ _, EmptyString => false
  end.

(** [sub in s] *)
Fixpoint contains (sub s : string) : bool :=
  startswith s sub ||
  match s with
  | EmptyString => false
  | String _ r => contains sub r
  end.

(** [s.endswith(suf)] *)
Fixpoint endswith (s suf : string) : bool :=
  String.eqb s suf ||
  match s with
  | EmptyString => false
  | String _ r => endswith r suf
  end.

(** [s[:n]] *)
Fixpoint take (n : nat) (s : string) : string :=
  match n, s with
  | S n', String c r => String c (take n' r)
  | _, _ => EmptyString
  end.

(** [os.path.basename(p)], that is [p[p.rfind("/") + 1:]]. *)
Fixpoint basename (p : string) : string :=
  match p with
  | EmptyString => EmptyString
  | String c r =>
      if char_in "/" r then basename r
      else if Ascii.eqb c "/" then r else p
  end.

(** [content.startswith(magic)] on bytes. *)
Fixpoint bytes_startswith (content magic : list byte) : bool :=
  match magic, content with
  | [], _ => true
  | m :: magic', b :: content' => Byte.eqb b m && bytes_startswith content' magic'
  | _ :: _, [] => false
  end.

(** [s.encode()]: UTF-8, one byte below U+0080 and two bytes up to U+00FF. *)
Definition byte_of_Z (x : Z) : byte :=
  match Byte.of_N (Z.to_N x) with Some b => b | None => x00 end.

Fixpoint encode (s : string) : list byte :=
  match s with
  | EmptyString => []
  | String c r =>
      let x := ord c in
      if x <? 128 then byte_of_Z x :: encode r
      else byte_of_Z (192 + x / 64) :: byte_of_Z (128 + x mod 64) :: encode r
  end.

End Py.

(** ** [hashlib.sha256] (FIPS 180-4) *)

Module Sha256.

Definition wrap (x : Z) : Z := x mod 2 ^ 32.
Definition add32 (x y : Z) : Z := wrap (x + y).
Definition rotr (n x : Z) : Z :=
  Z.lor (Z.shiftr x n) (wrap (Z.shiftl x (32 - n))).
Definition xor3 (x y z : Z) : Z := Z.lxor (Z.lxor x y) z.

Definition choose (x y z : Z) : Z :=
  Z.lxor (Z.land x y) (Z.land (Z.lxor x (2 ^ 32 - 1)) z).
Definition majority (x y z : Z) : Z :=
  xor3 (Z.land x y) (Z.land x z) (Z.land y z).
Definition big_sigma0 (x : Z) : Z := xor3 (rotr 2 x) (rotr 13 x) (rotr 22 x).
Definition big_sigma1 (x : Z) : Z := xor3 (rotr 6 x) (rotr 11 x) (rotr 25 x).
Definition small_sigma0 (x : Z) : Z := xor3 (rotr 7 x) (rotr 18 x) (Z.shiftr x 3).
Definition small_sigma1 (x : Z) : Z := xor3 (rotr 17 x) (rotr 19 x) (Z.shiftr x 10).

(** The constants are the fractional bits of the square and cube roots of
    the first primes; they are computed here rather than tabulated. *)
Definition is_prime (n : Z) : bool :=
  forallb (fun d => negb (n mod d =? 0)) (map Z.of_nat (seq 2 (Z.to_nat n - 2))).

Definition primes : list Z :=
  Eval vm_compute in filter is_prime (map Z.of_nat (seq 2 310)).

(** Largest [r] with [r ^ 3 <= x], found bit by bit from bit [n - 1] down. *)
Fixpoint cube_root_bits (n : nat) (x r : Z) : Z :=
  match n with
  | O => r
  | S n' =>
      let r' := r + 2 ^ Z.of_nat n' in
      cube_root_bits n' x (if r' * r' * r' <=? x then r' else r)
  end.

Definition initial_hash : list Z :=
  Eval vm_compute in map (fun p => wrap (Z.sqrt (p * 2 ^ 64))) (firstn 8 primes).

Definition round_constants : list Z :=
  Eval vm_compute in map (fun p => wrap (cube_root_bits 40 (p * 2 ^ 96) 0)) primes.

(** Padding: a 1 bit, zeros up to 56 mod 64 bytes, the bit length on 8 bytes. *)
Fixpoint be_bytes (n : nat) (x : Z) : list Z :=
  match n with
  | O => []
  | S n' => (x / 256 ^ Z.of_nat n') mod 256 :: be_bytes n' x
  end.

Definition pad (msg : list Z) : list Z :=
  let len := Z.of_nat (length msg) in
  let zeros := Z.to_nat ((55 - len) mod 64) in
  msg ++ [128] ++ repeat 0 zeros ++ be_bytes 8 (8 * len).

Fixpoint be_words (fuel : nat) (bs : list Z) : list Z :=
  match fuel, bs with
  | S fuel', b0 :: b1 :: b2 :: b3 :: rest =>
      (((b0 * 256 + b1) * 256 + b2) * 256 + b3) :: be_words fuel' rest
  | _, _ => []
  end.

(** The message schedule: [win] holds the last 16 words, oldest first. *)
Fixpoint schedule (n : nat) (win : list Z) : list Z :=
  match n with
  | O => []
  | S n' =>
      let w := add32 (add32 (small_sigma1 (nth 14 win 0)) (nth 9 win 0))
                     (add32 (small_sigma0 (nth 1 win 0)) (nth 0 win 0)) in
      w :: schedule n' (tl win ++ [w])
  end.

Record Vars := mkVars { va : Z; vb : Z; vc : Z; vd : Z; ve : Z; vf : Z; vg : Z; vh : Z }.

Definition round (v : Vars) (kw : Z * Z) : Vars :=
  let t1 := add32 (add32 (add32 (vh v) (big_sigma1 (ve v)))
                         (add32 (choose (ve v) (vf v) (vg v)) (fst kw))) (snd kw) in
  let t2 := add32 (big_sigma0 (va v)) (majority (va v) (vb v) (vc v)) in
  mkVars (add32 t1 t2) (va v) (vb v) (vc v) (add32 (vd v) t1) (ve v) (vf v) (vg v).

Definition vars_of (h : list Z) : Vars :=
  mkVars (nth 0 h 0) (nth 1 h 0) (nth 2 h 0) (nth 3 h 0)
         (nth 4 h 0) (nth 5 h 0) (nth 6 h 0) (nth 7 h 0).

Definition add_vars (x y : Vars) : Vars :=
  mkVars (add32 (va x) (va y)) (add32 (vb x) (vb y)) (add32 (vc x) (vc y))
         (add32 (vd x) (vd y)) (add32 (ve x) (ve y)) (add32 (vf x) (vf y))
         (add32 (vg x) (vg y)) (add32 (vh x) (vh y)).

Definition compress (h : Vars) (block : list Z) : Vars :=
  let w := block ++ schedule 48 block in
  add_vars h (fold_left round (combine round_constants w) h).

Fixpoint blocks (fuel : nat) (ws : list Z) : list (list Z) :=
  match fuel, ws with
  | S fuel', _ :: _ => firstn 16 ws :: blocks fuel' (skipn 16 ws)
  | _, _ => []
  end.

Definition digest_vars (msg : list Z) : Vars :=
  let bs := pad msg in
  let ws := be_words (length bs) bs in
  fold_left compress (blocks (length ws) ws) (vars_of initial_hash).

Definition hex_digit (x : Z) : ascii :=
  ascii_of_N (Z.to_N (if x <? 10 then 48 + x else 87 + x)).

Fixpoint hex (n : nat) (x : Z) : string :=
  match n with
  | O => EmptyString
  | S n' => String (hex_digit ((x / 16 ^ Z.of_nat n') mod 16)) (hex n' x)
  end.

Definition is_hex (c : ascii) : bool := Py.char_in c "0123456789abcdef".

(** [hashlib.sha256(data).hexdigest()] *)
Definition hexdigest (data : list byte) : string :=
  let v := digest_vars (map (fun b => Z.of_N (Byte.to_N b)) data) in
  hex 8 (va v) +:+ hex 8 (vb v) +:+ hex 8 (vc v) +:+ hex 8 (vd v) +:+
  hex 8 (ve v) +:+ hex 8 (vf v) +:+ hex 8 (vg v) +:+ hex 8 (vh v).

End Sha256.

(** ** The collaborators of [URLFetcher]

    The code reads the world through [urllib.parse], [socket], [ipaddress],
    [int] and an [httpx.Client]. Their answers are the fields of an
    environment; [None] stands for the exception the call can raise. *)

(** The attributes of [urlparse(url)] that the class reads. *)
Record ParseResult := mkParse {
  scheme : string;
  hostname : option string;
  path : string
}.

(** The properties of [ipaddress.ip_address(ip_str)] that the class reads. *)
Record IPAddress := mkIP {
  is_private : bool;
  is_loopback : bool;
  is_link_local : bool;
  is_reserved : bool;
  is_multicast : bool
}.

(** What [client.stream("GET", url)] hands to the body of the [with]. *)
Record Response := mkResponse {
  is_redirect : bool;
  next_request : option string;      (* [str(next_request.url)] *)
  status_ok : bool;                  (* [raise_for_status()] returns *)
  headers : gmap string string;
  body : list (list byte);           (* chunks of [iter_bytes(chunk_size=8192)] *)
  body_breaks : bool                 (* the iterator raises after these chunks *)
}.

Record Env := mkEnv {
  urlparse : string -> option ParseResult;        (* [None]: ValueError *)
  getaddrinfo : string -> option (list string);   (* [None]: OSError or ValueError *)
  ip_address : string -> option IPAddress;        (* [None]: ValueError *)
  int : string -> option Z;                       (* [None]: ValueError *)
  stream : string -> option Response              (* [None]: httpx transport error *)
}.

(** ** Exceptions, events and the state of a fetcher *)

(** The messages of the [ValueError]s that the class raises itself. *)
Inductive Message :=
| OnlyHttpAllowed (scheme : string)
| NoHostname (url : string)
| TargetsLocalhost (url : string)
| PrivateAddress (url : string)
| RedirectNoTarget
| FileTooLarge (content_length : Z)
| DownloadExceeded
| NotAPdf (url : string)
| TooManyRedirects.

Inductive Exception :=
| ValueError (msg : Message)
| LibraryValueError        (* raised inside [urlparse] or [int] *)
| HTTPStatusError          (* [raise_for_status] *)
| TransportError           (* any other [httpx.HTTPError] *)
| OSError.

Inductive Result (A : Type) :=
| Return (a : A)
| Raise (e : Exception).
Arguments Return {A} a.
Arguments Raise {A} e.

(** What a run does to the outside, oldest first. *)
Inductive Event :=
| Validate (url : string)            (* a call of [_validate_url] *)
| Resolve (host : string)            (* [socket.getaddrinfo] *)
| Connect (url : string)             (* [client.stream("GET", url)] *)
| ReadChunk (url : string) (size : Z)  (* one chunk pulled from [iter_bytes] *).

Record File := mkFile {
  data : list byte;
  pinned : bool          (* [unlink] on it raises OSError *)
}.

Record World := mkWorld {
  _url_to_path : gmap string string;   (* [self._url_to_path] *)
  files : gmap string File;            (* the entries of [self.cache_dir] *)
  trace : list Event
}.

(** The state that [__init__] leaves: nothing cached, nothing done yet. *)
Definition fresh : World := mkWorld ∅ ∅ [].

Definition M (A : Type) : Type := World -> World * Result A.

Definition ret {A} (a : A) : M A := fun w => (w, Return a).
Definition raise {A} (e : Exception) : M A := fun w => (w, Raise e).
Definition bind {A B} (m : M A) (k : A -> M B) : M B :=
  fun w => match m w with
           | (w1, Return a) => k a w1
           | (w1, Raise e) => (w1, Raise e)
           end.
Definition emit (e : Event) : M unit :=
  fun w => (mkWorld (_url_to_path w) (files w) (trace w ++ [e]), Return tt).
Definition get : M World := fun w => (w, Return w).

Declare Scope py_scope.
Delimit Scope py_scope with py.
Notation "x <- m ;; k" := (bind m (fun x => k))
  (at level 100, m at next level, right associativity) : py_scope.
Notation "m ;; k" := (bind m (fun _ => k))
  (at level 100, right associativity) : py_scope.
Local Open Scope py_scope.

(** [try: m except OSError: pass], telling whether [m] went through. *)
Definition try_os (m : M unit) : M bool :=
  fun w => match m w with
           | (w1, Return _) => (w1, Return true)
           | (w1, Raise OSError) => (w1, Return false)
           | (w1, Raise e) => (w1, Raise e)
           end.

Definition MAX_DOWNLOAD_SIZE : Z := 100 * 1024 * 1024.
Definition MAX_REDIRECTS : nat := 10.

Definition len {A} (l : list A) : Z := Z.of_nat (length l).

Section URLFetcher.

Variable env : Env.

(** *** [_is_private_ip] *)

Definition flagged (ip : IPAddress) : bool :=
  is_private ip || is_loopback ip || is_link_local ip
  || is_reserved ip || is_multicast ip.

(** The [for] loop over [addr_infos]; a [ValueError] of [ip_address] lands
    in the [except] clause, which returns [True]. *)
Fixpoint any_flagged (addr_infos : list string) : bool :=
  match addr_infos with
  | [] => false
  | ip_str :: rest =>
      match ip_address env ip_str with
      | None => true
      | Some ip => if flagged ip then true else any_flagged rest
      end
  end.

Definition _is_private_ip (hostname : string) : M bool :=
  emit (Resolve hostname) ;;
  match getaddrinfo env hostname with
  | None => ret true
  | Some addr_infos => ret (any_flagged addr_infos)
  end.

(** *** [_validate_url] *)

Definition localhost_names : list string :=
  ["localhost"; "127.0.0.1"; "::1"; "0.0.0.0"].

Definition _validate_url (url : string) : M unit :=
  emit (Validate url) ;;
  match urlparse env url with
  | None => raise LibraryValueError
  | Some parsed =>
      if negb (existsb (String.eqb (scheme parsed)) ["http"; "https"])
      then raise (ValueError (OnlyHttpAllowed (scheme parsed)))
      else
        match hostname parsed with
        | None => raise (ValueError (NoHostname url))
        | Some host =>
            if String.eqb host "" then raise (ValueError (NoHostname url))
            else if existsb (String.eqb host) localhost_names
            then raise (ValueError (TargetsLocalhost url))
            else
              blocked <- _is_private_ip host ;;
              if blocked then raise (ValueError (PrivateAddress url))
              else ret tt
        end
  end.

(** *** [_get_cache_filename] *)

Definition safe_char (c : ascii) : bool := Py.isalnum c || Py.char_in c "._-".

Definition _get_cache_filename (url : string) : M string :=
  let url_hash := Py.take 16 (Sha256.hexdigest (Py.encode url)) in
  match urlparse env url with
  | None => raise LibraryValueError
  | Some parsed =>
      if Py.endswith (path parsed) ".pdf" then
        let original_name := Py.basename (path parsed) in
        let safe_name := Py.join_if safe_char original_name in
        ret (url_hash +:+ "_" +:+ safe_name)
      else ret (url_hash +:+ ".pdf")
  end.

(** *** [get_local_path] *)

Definition path_exists (p : string) : M bool :=
  w <- get ;; ret (bool_decide (is_Some (files w !! p))).

Definition remember (url p : string) : M unit :=
  fun w => (mkWorld (<[url := p]> (_url_to_path w)) (files w) (trace w), Return tt).

Definition get_local_path (url : string) : M (option string) :=
  w <- get ;;
  hit <- match _url_to_path w !! url with
         | Some p => there <- path_exists p ;; ret (if there then Some p else None)
         | None => ret None
         end ;;
  match hit with
  | Some p => ret (Some p)
  | None =>
      filename <- _get_cache_filename url ;;
      there <- path_exists filename ;;
      if there then remember url filename ;; ret (Some filename)
      else ret None
  end.

(** *** [fetch] *)

Definition pdf_magic : list byte := [x25; x50; x44; x46].

(** The loop over [response.iter_bytes(chunk_size=8192)]. *)
Fixpoint read_body (current_url : string) (incoming : list (list byte)) (breaks : bool)
    (chunks : list (list byte)) (total_size : Z) : M (list (list byte)) :=
  match incoming with
  | [] => if breaks then raise TransportError else ret chunks
  | chunk :: rest =>
      emit (ReadChunk current_url (len chunk)) ;;
      let total_size := total_size + len chunk in
      if total_size >? MAX_DOWNLOAD_SIZE then raise (ValueError DownloadExceeded)
      else read_body current_url rest breaks (chunks ++ [chunk]) total_size
  end.

(** The loop body once the response is not a redirect. *)
Definition receive (url current_url : string) (response : Response) : M (list byte) :=
  (if status_ok response then ret tt else raise HTTPStatusError) ;;
  match headers response !! "content-length" with
  | Some content_length =>
      if String.eqb content_length "" then ret tt
      else match int env content_length with
           | None => raise LibraryValueError
           | Some n =>
               if n >? MAX_DOWNLOAD_SIZE then raise (ValueError (FileTooLarge n))
               else ret tt
           end
  | None => ret tt
  end ;;
  chunks <- read_body current_url (body response) (body_breaks response) [] 0 ;;
  let content := concat chunks in
  let content_type := default "" (headers response !! "content-type") in
  if negb (Py.contains "pdf" (Py.lower content_type)) then
    if negb (Py.bytes_startswith content pdf_magic)
    then raise (ValueError (NotAPdf url))
    else ret content
  else ret content.

(** [for _ in range(n): ... else: raise], one request per turn. *)
Fixpoint follow (n : nat) (url current_url : string) : M (list byte) :=
  match n with
  | O => raise (ValueError TooManyRedirects)
  | S n' =>
      emit (Connect current_url) ;;
      match stream env current_url with
      | None => raise TransportError
      | Some response =>
          if is_redirect response then
            match next_request response with
            | None => raise (ValueError RedirectNoTarget)
            | Some redirect_url =>
                _validate_url redirect_url ;;
                follow n' url redirect_url
            end
          else receive url current_url response
      end
  end.

(** [os.open(..., O_WRONLY | O_CREAT | O_TRUNC, 0o600)] and [os.write]:
    the entry gets the new content; persisting is taken to go through. *)
Definition write_file (name : string) (content : list byte) : M unit :=
  fun w =>
    let f := match files w !! name with
             | Some old => mkFile content (pinned old)
             | None => mkFile content false
             end in
    (mkWorld (_url_to_path w) (<[name := f]> (files w)) (trace w), Return tt).

Definition fetch (url : string) (force_refresh : bool) : M string :=
  _validate_url url ;;
  cached_path <- (if force_refresh then ret None else get_local_path url) ;;
  match cached_path with
  | Some p => ret p
  | None =>
      content <- follow MAX_REDIRECTS url url ;;
      filename <- _get_cache_filename url ;;
      write_file filename content ;;
      remember url filename ;;
      ret filename
  end.

(** *** [clear_cache] and [get_cache_stats] *)

(** [self.cache_dir.glob("*.pdf")] *)
Definition glob_pdf : M (list string) :=
  w <- get ;;
  ret (filter (fun name => Is_true (Py.endswith name ".pdf")) (elements (dom (files w)))).

Definition unlink (name : string) : M unit :=
  fun w =>
    match files w !! name with
    | Some f =>
        if pinned f then (w, Raise OSError)
        else (mkWorld (_url_to_path w) (delete name (files w)) (trace w), Return tt)
    | None => (w, Raise OSError)
    end.

Fixpoint unlink_all (paths : list string) (count : Z) : M Z :=
  match paths with
  | [] => ret count
  | p :: rest =>
      gone <- try_os (unlink p) ;;
      unlink_all rest (if gone then count + 1 else count)
  end.

Definition clear_index : M unit :=
  fun w => (mkWorld ∅ (files w) (trace w), Return tt).

Definition clear_cache : M Z :=
  paths <- glob_pdf ;;
  count <- unlink_all paths 0 ;;
  clear_index ;;
  ret count.

(** The fields [cached_files] and [total_size_bytes]. *)
Definition get_cache_stats : M (Z * Z) :=
  paths <- glob_pdf ;;
  w <- get ;;
  let sizes := map (fun p => match files w !! p with
                             | Some f => len (data f)
                             | None => 0
                             end) paths in
  ret (len paths, fold_right Z.add 0 sizes).

End URLFetcher.

(** ** Concrete environments

    Tables in the manner of the mocks of [tests/test_url_fetcher.py]. *)

Module Scenario.

Definition table {A} (t : list (string * A)) (k : string) : option A :=
  match find (fun kv => String.eqb (fst kv) k) t with
  | Some kv => Some (snd kv)
  | None => None
  end.

(** Decimal digits only; enough for the headers used below. *)
Fixpoint decimal (acc : Z) (s : string) : option Z :=
  match s with
  | EmptyString => Some acc
  | String c r =>
      let d := Py.ord c - 48 in
      if Py.in_range 0 9 d then decimal (10 * acc + d) r else None
  end.

Definition int_of (s : string) : option Z :=
  match s with EmptyString => None | _ => decimal 0 s end.

Definition public_ip : IPAddress := mkIP false false false false false.
Definition rfc1918_ip : IPAddress := mkIP true false false false false.
Definition link_local_ip : IPAddress := mkIP true false true false false.

Definition addresses : string -> option IPAddress :=
  table [("93.184.216.34", public_ip); ("151.101.1.1", public_ip);
         ("10.0.0.1", rfc1918_ip); ("169.254.169.254", link_local_ip)].

Definition urls : string -> option ParseResult :=
  table [("https://public.example.com/paper.pdf",
          mkParse "https" (Some "public.example.com") "/paper.pdf");
         ("http://169.254.169.254/latest/meta-data/",
          mkParse "http" (Some "169.254.169.254") "/latest/meta-data/");
         ("https://example.com/old.pdf",
          mkParse "https" (Some "example.com") "/old.pdf");
         ("https://cdn.example.com/new.pdf",
          mkParse "https" (Some "cdn.example.com") "/new.pdf");
         ("https://example.com/huge.pdf",
          mkParse "https" (Some "example.com") "/huge.pdf");
         ("https://example.com/notapdf.html",
          mkParse "https" (Some "example.com") "/notapdf.html");
         ("https://example.com/api/download?id=123",
          mkParse "https" (Some "example.com") "/api/download");
         ("https://example.com/path/document.pdf",
          mkParse "https" (Some "example.com") "/path/document.pdf");
         ("https://internal-server.corp/secret.pdf",
          mkParse "https" (Some "internal-server.corp") "/secret.pdf");
         ("https://localhost/secret.pdf",
          mkParse "https" (Some "localhost") "/secret.pdf");
         ("https://127.0.0.1/secret.pdf",
          mkParse "https" (Some "127.0.0.1") "/secret.pdf");
         ("https://0.0.0.0/secret.pdf",
          mkParse "https" (Some "0.0.0.0") "/secret.pdf");
         ("http://[::1]/secret.pdf",
          mkParse "http" (Some "::1") "/secret.pdf");
         ("ftp://example.com/test.pdf",
          mkParse "ftp" (Some "example.com") "/test.pdf");
         ("http:///nohost", mkParse "http" None "/nohost")].

Definition dns : string -> option (list string) :=
  table [("public.example.com", ["93.184.216.34"]);
         ("example.com", ["93.184.216.34"]);
         ("cdn.example.com", ["151.101.1.1"; "93.184.216.34"]);
         ("internal-server.corp", ["10.0.0.1"]);
         ("169.254.169.254", ["169.254.169.254"])].

Definition valid_pdf_bytes : list byte :=
  [x25; x50; x44; x46; x2d; x31; x2e; x34; x0a].

Definition redirect_to (target : string) : Response :=
  mkResponse true (Some target) true ∅ [] false.

Definition pdf_response : Response :=
  mkResponse false None true {["content-type" := "application/pdf"]}
             [valid_pdf_bytes] false.

Definition network : string -> option Response :=
  table [("https://public.example.com/paper.pdf",
          redirect_to "http://169.254.169.254/latest/meta-data/");
         ("https://example.com/old.pdf", redirect_to "https://cdn.example.com/new.pdf");
         ("https://cdn.example.com/new.pdf", pdf_response);
         ("https://example.com/path/document.pdf", pdf_response);
         ("https://example.com/huge.pdf",
          mkResponse false None true
            {["content-type" := "application/pdf"; "content-length" := "200000000"]}
            [] false);
         ("https://example.com/notapdf.html",
          mkResponse false None true {["content-type" := "text/html"]}
            [[x3c; x68; x74; x6d; x6c; x3e]] false)].

Definition env : Env := mkEnv urls dns addresses int_of network.

(** A server that announces no length and sends 8192-byte chunks for as
    long as it is listened to: 12810 of them, ten more than the budget
    holds. *)
Definition chunk_8k : list byte := repeat x00 (Z.to_nat 8192).

Definition endless_body : list (list byte) := repeat chunk_8k (Z.to_nat 12810).

Definition streaming : Env :=
  mkEnv urls dns addresses int_of
    (fun u => if String.eqb u "https://example.com/huge.pdf"
              then Some (mkResponse false None true
                           {["content-type" := "application/pdf"]}
                           endless_body false)
              else None).

(** The same world with a resolver that answers nothing. *)
Definition offline : Env := mkEnv urls (fun _ => None) addresses int_of network.

(** A directory with three cached files that can be deleted and one that
    cannot, and an index that knows two of them. *)
Definition four_files : World :=
  mkWorld {["https://example.com/old.pdf" := "73f6027ddc92e918_old.pdf";
            "https://example.com/path/document.pdf" := "9f6f73af04b5306d_document.pdf"]}
          {["73f6027ddc92e918_old.pdf" := mkFile valid_pdf_bytes false;
            "9f6f73af04b5306d_document.pdf" := mkFile valid_pdf_bytes false;
            "27282d117d4a84c0.pdf" := mkFile valid_pdf_bytes false;
            "0123456789abcdef_locked.pdf" := mkFile valid_pdf_bytes true]}
          [].

(** A chain of redirects: the URL with [i] letters r after the last slash
    redirects to the one with [i + 1] letters as long as [i < k], and the
    URL with [k] letters answers with a PDF. *)
Definition chain_base : string := "https://chain.example.com/".

Fixpoint hop (i : nat) : string :=
  match i with
  | O => chain_base
  | S j => hop j +:+ "r"
  end.

Definition chain (k : nat) : Env :=
  mkEnv (fun u => Some (mkParse "https" (Some "chain.example.com")
                          (String.substring 25 (String.length u - 25) u)))
        (fun _ => Some ["93.184.216.34"])
        addresses int_of
        (fun u => if Nat.ltb (String.length u - String.length chain_base) k
                  then Some (redirect_to (u +:+ "r"))
                  else Some pdf_response).

End Scenario.

(** ** Observing a run *)

(** The world after some more events. *)
Definition log (evs : list Event) (w : World) : World :=
  mkWorld (_url_to_path w) (files w) (trace w ++ evs).

(** What a computation emits and how it ends when started on an empty
    directory with an empty index. *)
Definition events {A} (m : M A) : list Event := trace (fst (m fresh)).
Definition outcome {A} (m : M A) : Result A := snd (m fresh).

(** A computation is framed when it neither reads nor writes the index and
    the directory: from any world it only appends its events. *)
Definition Framed {A} (m : M A) : Prop :=
  forall w, m w = (log (events m) w, outcome m).

Definition is_resolve (ev : Event) : Prop := exists host, ev = Resolve host.
Definition is_read_of (url : string) (ev : Event) : Prop :=
  exists size, ev = ReadChunk url size.
Definition is_transfer (ev : Event) : Prop :=
  (exists url, ev = Connect url) \/ (exists url size, ev = ReadChunk url size).

(** The guard lets [url] through. *)
Definition passes_guard (env : Env) (url : string) : Prop :=
  forall w, snd (_validate_url env url w) = Return tt.

(** The [Content-Length] header, when there is one to read, announces at
    most the budget. *)
Definition declares_within_budget (env : Env) (response : Response) : Prop :=
  match headers response !! "content-length" with
  | None => True
  | Some h => h = "" \/ exists n, int env h = Some n /\ n <= MAX_DOWNLOAD_SIZE
  end.

(** The content check of [fetch] on a whole response. *)
Definition pdf_accepted (response : Response) : bool :=
  Py.contains "pdf" (Py.lower (default "" (headers response !! "content-type")))
  || Py.bytes_startswith (concat (body response)) pdf_magic.

Definition read_events (url : string) (chunks : list (list byte)) : list Event :=
  map (fun chunk => ReadChunk url (len chunk)) chunks.

(** The world once [content] is stored under [filename] for [url]. *)
Definition persist (url filename : string) (content : list byte) (w : World) : World :=
  mkWorld (<[url := filename]> (_url_to_path w))
          (<[filename := match files w !! filename with
                         | Some old => mkFile content (pinned old)
                         | None => mkFile content false
                         end]> (files w))
          (trace w).

(** The four ways a call of [fetch] can go: the guard turns the URL down,
    the cache answers, the download fails, or the download is stored. *)
Inductive FetchRun (env : Env) (url : string) (force_refresh : bool) (w : World) :
    World -> Result string -> Prop :=
| run_blocked e :
    outcome (_validate_url env url) = Raise e ->
    FetchRun env url force_refresh w
      (log (events (_validate_url env url)) w) (Raise e)
| run_cached w2 p :
    outcome (_validate_url env url) = Return tt ->
    force_refresh = false ->
    get_local_path env url (log (events (_validate_url env url)) w)
    = (w2, Return (Some p)) ->
    FetchRun env url force_refresh w w2 (Return p)
| run_failed e :
    outcome (_validate_url env url) = Return tt ->
    force_refresh = true
    \/ get_local_path env url (log (events (_validate_url env url)) w)
       = (log (events (_validate_url env url)) w, Return None) ->
    outcome (follow env MAX_REDIRECTS url url) = Raise e ->
    FetchRun env url force_refresh w
      (log (events (_validate_url env url) ++ events (follow env MAX_REDIRECTS url url)) w)
      (Raise e)
| run_stored content filename :
    outcome (_validate_url env url) = Return tt ->
    force_refresh = true
    \/ get_local_path env url (log (events (_validate_url env url)) w)
       = (log (events (_validate_url env url)) w, Return None) ->
    outcome (follow env MAX_REDIRECTS url url) = Return content ->
    outcome (_get_cache_filename env url) = Return filename ->
    FetchRun env url force_refresh w
      (persist url filename content
         (log (events (_validate_url env url) ++ events (follow env MAX_REDIRECTS url url)) w))
      (Return filename).

(** The host of [target] is the metadata address 169.254.169.254, which the
    resolver reports as a link-local address. *)
Definition targets_metadata (env : Env) (target : string) : Prop :=
  exists parsed addrs a ip,
    urlparse env target = Some parsed
    /\ existsb (String.eqb (scheme parsed)) ["http"; "https"] = true
    /\ hostname parsed = Some "169.254.169.254"
    /\ getaddrinfo env "169.254.169.254" = Some addrs
    /\ In a addrs /\ ip_address env a = Some ip /\ is_link_local ip = true.

(** The reasons that the specification's error taxonomy gives for a blocked
    URL, to compare with the messages of the code. *)
Inductive SpecBlockedReason :=
| SpecScheme
| SpecNoHost
| SpecLocalhost
| SpecUnresolvable
| SpecPrivateAddress.

(** [unlink] on [name] would go through in the directory [m]. *)
Definition deletable (m : gmap string File) (name : string) : bool :=
  match m !! name with
  | Some f => negb (pinned f)
  | None => false
  end.

(** [k] redirects lead from [u] to [v], each target passing the guard. *)
Inductive Redirects (env : Env) : nat -> string -> string -> Prop :=
| redirects_none u : Redirects env 0 u u
| redirects_step k u t v response :
    stream env u = Some response -> is_redirect response = true ->
    next_request response = Some t -> passes_guard env t ->
    Redirects env k t v -> Redirects env (S k) u v.

(** ** The rest of the class *)

(** [is_url]: [source.startswith(("http://", "https://"))]. *)
Definition is_url (source : string) : bool :=
  Py.startswith source "http://" || Py.startswith source "https://".

(** [__init__] on a cache directory that holds [cache_dir]: [mkdir] with
    [exist_ok] keeps what is there, and the index starts empty. The mode
    0o700 of the directory and the timeout have no counterpart in [World]. *)
Definition __init__ (cache_dir : gmap string File) : World :=
  mkWorld ∅ cache_dir [].

(** The states that a fetcher goes through when only its own methods touch
    the index and the directory. *)
Inductive Reachable (env : Env) : World -> Prop :=
| reach_init cache_dir : Reachable env (__init__ cache_dir)
| reach_resolve hostname w :
    Reachable env w -> Reachable env (fst (_is_private_ip env hostname w))
| reach_validate url w :
    Reachable env w -> Reachable env (fst (_validate_url env url w))
| reach_filename url w :
    Reachable env w -> Reachable env (fst (_get_cache_filename env url w))
| reach_lookup url w :
    Reachable env w -> Reachable env (fst (get_local_path env url w))
| reach_fetch url force_refresh w :
    Reachable env w -> Reachable env (fst (fetch env url force_refresh w))
| reach_clear w :
    Reachable env w -> Reachable env (fst (clear_cache w))
| reach_stats w :
    Reachable env w -> Reachable env (fst (get_cache_stats w)).

(** The environment [env] with another resolver. *)
Definition resolving (env : Env) (answers : string -> option (list string)) : Env :=
  mkEnv (urlparse env) answers (ip_address env) (int env) (stream env).

(** [url] names, over http or https, a host that is none of the literal
    names of this machine and whose lookup answers with addresses that can
    all be read and carry none of the five flags. *)
Definition targets_public (env : Env) (url : string) : Prop :=
  exists parsed host addr_infos,
    urlparse env url = Some parsed
    /\ (scheme parsed = "http" \/ scheme parsed = "https")
    /\ hostname parsed = Some host /\ host <> "" /\ ~ In host localhost_names
    /\ getaddrinfo env host = Some addr_infos
    /\ forall a, In a addr_infos ->
         exists ip, ip_address env a = Some ip
           /\ is_private ip = false /\ is_loopback ip = false
           /\ is_link_local ip = false /\ is_reserved ip = false
           /\ is_multicast ip = false.

(** Every entry of the index stands for a file that is there, under the
    cache file name of its URL. *)
Definition index_sound (env : Env) (w : World) : Prop :=
  forall url p,
    _url_to_path w !! url = Some p ->
    outcome (_get_cache_filename env url) = Return p /\ is_Some (files w !! p).

(** The names in a directory that the glob "*.pdf" lists, and the size that
    [stat] reports for a name. *)
Definition pdf_names (m : gmap string File) : list string :=
  filter (fun name => Is_true (Py.endswith name ".pdf")) (elements (dom m)).

Definition size_of (m : gmap string File) (name : string) : Z :=
  match m !! name with
  | Some f => len (data f)
  | None => 0
  end.

(** Counting the events of one kind. *)
Definition is_connect (ev : Event) : bool :=
  match ev with Connect _ => true | _ => false end.
Definition is_validate (ev : Event) : bool :=
  match ev with Validate _ => true | _ => false end.
Definition is_lookup (ev : Event) : bool :=
  match ev with Resolve _ => true | _ => false end.
Definition count (kind : Event -> bool) (evs : list Event) : nat :=
  length (List.filter kind evs).

(** Servers that misbehave, for the error paths of [fetch]. *)
Module Faults.

Definition urls : string -> option ParseResult :=
  Scenario.table
    [("https://example.com/gone.pdf",
      mkParse "https" (Some "example.com") "/gone.pdf");
     ("https://example.com/lost.pdf",
      mkParse "https" (Some "example.com") "/lost.pdf");
     ("https://example.com/down.pdf",
      mkParse "https" (Some "example.com") "/down.pdf");
     ("https://example.com/odd.pdf",
      mkParse "https" (Some "example.com") "/odd.pdf");
     ("https://example.com/cut.pdf",
      mkParse "https" (Some "example.com") "/cut.pdf");
     ("https://example.com/old.pdf",
      mkParse "https" (Some "example.com") "/old.pdf");
     ("https://cdn.example.com/new.pdf",
      mkParse "https" (Some "cdn.example.com") "/new.pdf")].

Definition network : string -> option Response :=
  Scenario.table
    [("https://example.com/gone.pdf",
      mkResponse false None false
        {["content-type" := "application/pdf"; "content-length" := "200000000"]}
        [Scenario.valid_pdf_bytes] false);
     ("https://example.com/lost.pdf",
      mkResponse true None true ∅ [] false);
     ("https://example.com/odd.pdf",
      mkResponse false None true
        {["content-type" := "application/pdf"; "content-length" := "nine"]}
        [Scenario.valid_pdf_bytes] false);
     ("https://example.com/cut.pdf",
      mkResponse false None true {["content-type" := "application/pdf"]}
        [Scenario.valid_pdf_bytes] true);
     ("https://example.com/old.pdf",
      Scenario.redirect_to "https://cdn.example.com/new.pdf");
     ("https://cdn.example.com/new.pdf", Scenario.pdf_response)].

Definition env : Env :=
  mkEnv urls Scenario.dns Scenario.addresses Scenario.int_of network.

End Faults.

(** ** The content check, said without the string functions *)

(** [content_type] has the letters p, d and f in a row, each of them small
    or capital. *)
Definition names_pdf (content_type : string) : Prop :=
  exists pre p d f post,
    content_type = pre +:+ String p (String d (String f post))
    /\ (p = "p" \/ p = "P")%char /\ (d = "d" \/ d = "D")%char
    /\ (f = "f" \/ f = "F")%char.

(** [content] begins with the four bytes 25 50 44 46, that is "%PDF". *)
Definition has_pdf_magic (content : list byte) : Prop :=
  exists rest, content = [x25; x50; x44; x46] ++ rest.

(** Three servers for the content check: one that names the type in
    capitals and sends a page, one that names another type and sends a PDF,
    and one that names another type and sends a page. *)
Module Contents.

Definition page : list byte := [x3c; x68; x74; x6d; x6c; x3e].

Definition urls : string -> option ParseResult :=
  Scenario.table
    [("https://example.com/scan",
      mkParse "https" (Some "example.com") "/scan");
     ("https://example.com/blob",
      mkParse "https" (Some "example.com") "/blob");
     ("https://example.com/page",
      mkParse "https" (Some "example.com") "/page")].

Definition network : string -> option Response :=
  Scenario.table
    [("https://example.com/scan",
      mkResponse false None true {["content-type" := "Application/PDF"]} [page] false);
     ("https://example.com/blob",
      mkResponse false None true {["content-type" := "application/octet-stream"]}
        [[x25; x50]; [x44; x46; x2d; x31; x2e; x34]] false);
     ("https://example.com/page",
      mkResponse false None true {["content-type" := "text/html"]} [page] false)].

Definition env : Env :=
  mkEnv urls Scenario.dns Scenario.addresses Scenario.int_of network.

End Contents.

(** * Properties *)

(** ** Strings *)

Module PyFacts.
Import Py.

#[local] Arguments String.append !s1 s2 : simpl nomatch.

Lemma append_empty_r (s : string) : s +:+ "" = s.
Proof. induction s as [|c s IH]; simpl; [reflexivity | now rewrite IH]. Qed.

Lemma append_assoc (a b c : string) : (a +:+ b) +:+ c = a +:+ (b +:+ c).
Proof. induction a as [|x a IH]; simpl; [reflexivity | now rewrite IH]. Qed.

Lemma length_append (a b : string) :
  String.length (a +:+ b) = (String.length a + String.length b)%nat.
Proof. induction a as [|x a IH]; simpl; [reflexivity | now rewrite IH]. Qed.

Lemma take_append (a b : string) : take (String.length a) (a +:+ b) = a.
Proof. induction a as [|x a IH]; simpl; [now destruct b | now rewrite IH]. Qed.

Lemma length_take (n : nat) (s : string) :
  (n <= String.length s)%nat -> String.length (take n s) = n.
Proof.
  revert s; induction n as [|n IH]; intros [|c s] Hn; simpl in *; try lia.
  rewrite IH; lia.
Qed.

Lemma all_chars_append p (a b : string) :
  all_chars p (a +:+ b) = all_chars p a && all_chars p b.
Proof.
  induction a as [|x a IH]; simpl; [reflexivity |].
  now rewrite IH, andb_assoc.
Qed.

Lemma all_chars_take p (n : nat) (s : string) :
  all_chars p s = true -> all_chars p (take n s) = true.
Proof.
  revert s; induction n as [|n IH]; intros [|c s]; simpl; try reflexivity.
  intros [Hc Hs]%andb_true_iff. rewrite Hc; simpl; auto.
Qed.

Lemma all_chars_weaken (p q : ascii -> bool) (s : string) :
  (forall c, p c = true -> q c = true) ->
  all_chars p s = true -> all_chars q s = true.
Proof.
  intros Hpq; induction s as [|c s IH]; simpl; [reflexivity |].
  intros [Hc Hs]%andb_true_iff. rewrite (Hpq _ Hc); simpl; auto.
Qed.

Lemma all_chars_not_in p (c : ascii) (s : string) :
  all_chars p s = true -> p c = false -> char_in c s = false.
Proof.
  intros Hs Hc; induction s as [|d s IH]; simpl in *; [reflexivity |].
  apply andb_true_iff in Hs as [Hd Hs]. rewrite (IH Hs), orb_false_r.
  destruct (Ascii.eqb c d) eqn:E; [|reflexivity].
  apply Ascii.eqb_eq in E; congruence.
Qed.

Lemma join_if_all p (s : string) : all_chars p (join_if p s) = true.
Proof.
  induction s as [|c s IH]; simpl; [reflexivity |].
  destruct (p c) eqn:E; simpl; [now rewrite E | exact IH].
Qed.

Lemma join_if_append p (a b : string) :
  join_if p (a +:+ b) = join_if p a +:+ join_if p b.
Proof.
  induction a as [|x a IH]; simpl; [reflexivity |].
  destruct (p x); simpl; now rewrite IH.
Qed.

Lemma join_if_keeps p (s : string) : all_chars p s = true -> join_if p s = s.
Proof.
  induction s as [|c s IH]; simpl; [reflexivity |].
  intros [Hc Hs]%andb_true_iff. now rewrite Hc, IH.
Qed.

Lemma endswith_self (s : string) : endswith s s = true.
Proof. destruct s; cbn [endswith]; now rewrite String.eqb_refl. Qed.

(** [s.endswith(suf)] holds exactly when [s] is something followed by [suf]. *)
Lemma endswith_iff (s suf : string) :
  endswith s suf = true <-> exists pre, s = pre +:+ suf.
Proof.
  split.
  - induction s as [|c s IH]; cbn [endswith].
    + rewrite orb_false_r. intros ->%String.eqb_eq. now exists "".
    + intros [->%String.eqb_eq | H]%orb_true_iff; [now exists "" |].
      destruct (IH H) as [pre ->]. now exists (String c pre).
  - intros [pre ->]. induction pre as [|c pre IH]; simpl.
    + apply endswith_self.
    + rewrite IH. apply orb_true_r.
Qed.

Lemma endswith_append (pre s suf : string) :
  endswith s suf = true -> endswith (pre +:+ s) suf = true.
Proof.
  intros [q ->]%endswith_iff. apply endswith_iff.
  exists (pre +:+ q). now rewrite append_assoc.
Qed.

Lemma endswith_join_if p (s suf : string) :
  all_chars p suf = true ->
  endswith s suf = true -> endswith (join_if p s) suf = true.
Proof.
  intros Hsuf [q ->]%endswith_iff. apply endswith_iff.
  exists (join_if p q). now rewrite join_if_append, (join_if_keeps p suf).
Qed.

(** The base name of a path keeps every suffix that has no separator. *)
Lemma endswith_basename (p suf : string) :
  char_in "/" suf = false ->
  endswith p suf = true -> endswith (basename p) suf = true.
Proof.
  intros Hsuf [q ->]%endswith_iff.
  induction q as [|c q IH].
  - cbn [String.append]. destruct suf as [|d suf]; [reflexivity |].
    cbn [char_in] in Hsuf. apply orb_false_iff in Hsuf as [Hd Hsuf].
    cbn [basename]. rewrite Hsuf, Ascii.eqb_sym, Hd.
    apply endswith_self.
  - cbn [String.append basename].
    destruct (char_in "/" (q +:+ suf)); [exact IH |].
    destruct (Ascii.eqb c "/").
    + apply endswith_iff; now exists q.
    + apply endswith_iff; now exists (String c q).
Qed.

End PyFacts.

(** ** The digest *)

Module Sha256Facts.
Import Py Sha256 PyFacts.

Lemma hex_digit_is_hex (d : Z) : 0 <= d < 16 -> is_hex (hex_digit d) = true.
Proof.
  intros H.
  assert (d = 0 \/ d = 1 \/ d = 2 \/ d = 3 \/ d = 4 \/ d = 5 \/ d = 6 \/ d = 7 \/
          d = 8 \/ d = 9 \/ d = 10 \/ d = 11 \/ d = 12 \/ d = 13 \/ d = 14 \/ d = 15)
    as Hd by lia.
  repeat (destruct Hd as [-> | Hd]; [reflexivity |]). now subst.
Qed.

Lemma hex_length (n : nat) (x : Z) : String.length (hex n x) = n.
Proof. induction n as [|n IH]; simpl; [reflexivity | now rewrite IH]. Qed.

Lemma hex_all_hex (n : nat) (x : Z) : all_chars is_hex (hex n x) = true.
Proof.
  induction n as [|n IH]; [reflexivity |].
  cbn [hex all_chars]. rewrite IH, andb_true_r.
  apply hex_digit_is_hex. apply Z.mod_pos_bound. lia.
Qed.

(** A digest is printed on 64 lower-case hexadecimal digits. *)
Lemma hexdigest_length (data : list byte) : String.length (hexdigest data) = 64%nat.
Proof. unfold hexdigest. now rewrite !length_append, !hex_length. Qed.

Lemma hexdigest_all_hex (data : list byte) : all_chars is_hex (hexdigest data) = true.
Proof. unfold hexdigest. now rewrite !all_chars_append, !hex_all_hex. Qed.

Lemma is_hex_isalnum (c : ascii) : is_hex c = true -> isalnum c = true.
Proof.
  unfold is_hex. cbn [char_in]. rewrite !orb_true_iff.
  intros H. repeat (destruct H as [H | H]; [apply Ascii.eqb_eq in H; now subst |]).
  discriminate.
Qed.

(** FIPS 180-4 test vector, and a message of four blocks. *)
Example hexdigest_abc :
  hexdigest (encode "abc")
  = "ba7816bf8f01cfea414140de5dae2223b00361a396177a9cb410ff61f20015ad".
Proof. vm_compute. reflexivity. Qed.

End Sha256Facts.

(** ** The monad *)

Section Runs.

Lemma Return_inj {A} (a b : A) : Return a = Return b -> a = b.
Proof. now intros [= ->]. Qed.

Lemma log_nil (w : World) : log [] w = w.
Proof. destruct w; unfold log; simpl. now rewrite app_nil_r. Qed.

Lemma log_log (e1 e2 : list Event) (w : World) : log e2 (log e1 w) = log (e1 ++ e2) w.
Proof. unfold log; simpl. now rewrite app_assoc. Qed.

Lemma framed_ret {A} (a : A) : Framed (ret a).
Proof. intros w. unfold events, outcome, ret; simpl. now rewrite log_nil. Qed.

Lemma framed_raise {A} (e : Exception) : Framed (@raise A e).
Proof. intros w. unfold events, outcome, raise; simpl. now rewrite log_nil. Qed.

Lemma framed_emit (ev : Event) : Framed (emit ev).
Proof. intros w. reflexivity. Qed.

Lemma bind_run {A B} (m : M A) (k : A -> M B) (w : World) :
  Framed m ->
  bind m k w = match outcome m with
               | Return a => k a (log (events m) w)
               | Raise e => (log (events m) w, Raise e)
               end.
Proof. intros Hm. unfold bind. rewrite (Hm w). now destruct (outcome m). Qed.

Lemma framed_bind {A B} (m : M A) (k : A -> M B) :
  Framed m -> (forall a, Framed (k a)) -> Framed (bind m k).
Proof.
  intros Hm Hk w. unfold events, outcome.
  rewrite !(bind_run m k) by assumption.
  destruct (outcome m) as [a | e].
  - rewrite (Hk a (log (events m) fresh)), (Hk a (log (events m) w)).
    unfold log; simpl. now rewrite app_assoc.
  - reflexivity.
Qed.

Lemma events_bind {A B} (m : M A) (k : A -> M B) :
  Framed m -> (forall a, Framed (k a)) ->
  events (bind m k) = events m ++ match outcome m with
                                  | Return a => events (k a)
                                  | Raise _ => []
                                  end.
Proof.
  intros Hm Hk. unfold events at 1. rewrite bind_run by assumption.
  destruct (outcome m) as [a | e]; simpl.
  - now rewrite (Hk a).
  - now rewrite app_nil_r.
Qed.

Lemma outcome_bind {A B} (m : M A) (k : A -> M B) :
  Framed m -> (forall a, Framed (k a)) ->
  outcome (bind m k) = match outcome m with
                       | Return a => outcome (k a)
                       | Raise e => Raise e
                       end.
Proof.
  intros Hm Hk. unfold outcome at 1. rewrite bind_run by assumption.
  destruct (outcome m) as [a | e]; simpl; [now rewrite (Hk a) | reflexivity].
Qed.

Lemma events_bind_all {A B} (P : Event -> Prop) (m : M A) (k : A -> M B) :
  Framed m -> (forall a, Framed (k a)) ->
  Forall P (events m) -> (forall a, Forall P (events (k a))) ->
  Forall P (events (bind m k)).
Proof.
  intros Hm Hk HPm HPk. rewrite events_bind by assumption.
  apply Forall_app. split; [exact HPm |].
  destruct (outcome m); [apply HPk | constructor].
Qed.

Lemma events_ret {A} (a : A) : events (ret a) = [].
Proof. reflexivity. Qed.

Lemma outcome_ret {A} (a : A) : outcome (ret a) = Return a.
Proof. reflexivity. Qed.

Lemma events_raise {A} (e : Exception) : events (@raise A e) = [].
Proof. reflexivity. Qed.

Lemma outcome_raise {A} (e : Exception) : outcome (@raise A e) = Raise e.
Proof. reflexivity. Qed.

Lemma events_emit_then {B} (ev : Event) (k : M B) :
  Framed k -> events (emit ev ;; k) = ev :: events k.
Proof. intros Hk. now rewrite events_bind by (auto using framed_emit). Qed.

Lemma outcome_emit_then {B} (ev : Event) (k : M B) :
  Framed k -> outcome (emit ev ;; k) = outcome k.
Proof. intros Hk. now rewrite outcome_bind by (auto using framed_emit). Qed.

End Runs.

Create HintDb framed.

(** Goes through a computation built from [bind], [ret], [raise], [emit],
    [match] and [if]; the hints of [framed] close the calls. *)
Ltac framed :=
  repeat first
    [ assumption
    | match goal with
      | |- Framed (bind _ _) => apply framed_bind; [| intros ?]
      | |- Framed (ret _) => apply framed_ret
      | |- Framed (raise _) => apply framed_raise
      | |- Framed (emit _) => apply framed_emit
      | |- Framed (match ?x with _ => _ end) => destruct x
      | |- Framed (if ?b then _ else _) => destruct b
      | |- Framed (let _ := _ in _) => cbv zeta
      end
    | solve [auto 2 with framed nocore] ].

(** ** Lists of events *)

Lemma split_after {A} (x : A) (l1 l2 pre post : list A) :
  l1 ++ l2 = pre ++ x :: post -> ~ In x l1 ->
  exists m, pre = l1 ++ m /\ l2 = m ++ x :: post.
Proof.
  revert pre; induction l1 as [|a l1 IH]; intros pre Heq Hnot.
  - now exists pre.
  - destruct pre as [|b pre]; simpl in Heq; injection Heq as -> Heq.
    + exfalso; apply Hnot; now left.
    + destruct (IH pre Heq) as [m [-> ->]]; [intros ?; apply Hnot; now right |].
      now exists m.
Qed.

Lemma resolves_no_validate (rs : list Event) (u : string) :
  Forall is_resolve rs -> ~ In (Validate u) rs.
Proof.
  intros H Hin. rewrite List.Forall_forall in H.
  destruct (H _ Hin) as [h Hh]; discriminate.
Qed.

Lemma resolves_no_connect (rs : list Event) (u : string) :
  Forall is_resolve rs -> ~ In (Connect u) rs.
Proof.
  intros H Hin. rewrite List.Forall_forall in H.
  destruct (H _ Hin) as [h Hh]; discriminate.
Qed.

Lemma resolves_no_read (rs : list Event) (u : string) (k : Z) :
  Forall is_resolve rs -> ~ In (ReadChunk u k) rs.
Proof.
  intros H Hin. rewrite List.Forall_forall in H.
  destruct (H _ Hin) as [h Hh]; discriminate.
Qed.

(** ** The guard *)

Section Guard.

Variable env : Env.

Lemma framed_is_private_ip (host : string) : Framed (_is_private_ip env host).
Proof. unfold _is_private_ip. framed. Qed.

Lemma framed_validate_url (url : string) : Framed (_validate_url env url).
Proof. unfold _validate_url. framed. apply framed_is_private_ip. Qed.

Lemma validate_url_run (url : string) (w : World) :
  _validate_url env url w
  = (log (events (_validate_url env url)) w, outcome (_validate_url env url)).
Proof. apply framed_validate_url. Qed.

Lemma passes_guard_outcome (url : string) :
  passes_guard env url <-> outcome (_validate_url env url) = Return tt.
Proof.
  unfold passes_guard. split.
  - intros H. apply H.
  - intros H w. now rewrite validate_url_run.
Qed.

(** A call of the guard is one [Validate] and at most the lookup after it. *)
Lemma validate_url_events (url : string) :
  exists rs, events (_validate_url env url) = Validate url :: rs
             /\ Forall is_resolve rs.
Proof.
  unfold events, _validate_url, _is_private_ip, bind, emit, ret, raise.
  cbn [trace fst fresh app].
  destruct (urlparse env url) as [parsed|]; [| now exists []].
  destruct (negb _); [now exists [] |].
  destruct (hostname parsed) as [host|]; [| now exists []].
  destruct (String.eqb host ""); [now exists [] |].
  destruct (existsb _ _); [now exists [] |].
  exists [Resolve host]. split.
  - destruct (getaddrinfo env host) as [addrs|]; [destruct (any_flagged env addrs) |];
      reflexivity.
  - repeat constructor. now exists host.
Qed.

(** The loop over the addresses stops at the first one that cannot be read
    or that carries one of the five flags. *)
Lemma any_flagged_true (addrs : list string) :
  any_flagged env addrs = true <->
  exists a, In a addrs /\
    (ip_address env a = None \/ exists ip, ip_address env a = Some ip /\ flagged ip = true).
Proof.
  induction addrs as [|a addrs IH]; simpl.
  - split; [discriminate | intros [a [[] _]]].
  - destruct (ip_address env a) as [ip|] eqn:Ea.
    + destruct (flagged ip) eqn:Ef.
      * split; [| reflexivity]. intros _. exists a. split; [now left |]. right; eauto.
      * rewrite IH. split.
        -- intros [b [Hb Hc]]. exists b. split; [now right | exact Hc].
        -- intros [b [[<- | Hb] Hc]]; [| now exists b].
           destruct Hc as [Hc | [ip' [Hc Hf]]]; congruence.
    + split; [| reflexivity]. intros _. exists a. split; [now left | now left].
Qed.

Lemma any_flagged_false (addrs : list string) :
  any_flagged env addrs = false <->
  forall a, In a addrs -> exists ip, ip_address env a = Some ip /\ flagged ip = false.
Proof.
  induction addrs as [|a addrs IH]; simpl.
  - split; [intros _ a [] | reflexivity].
  - destruct (ip_address env a) as [ip|] eqn:Ea.
    + destruct (flagged ip) eqn:Ef.
      * split; [discriminate |]. intros H.
        destruct (H a (or_introl eq_refl)) as [ip' [Hip Hf]]. congruence.
      * rewrite IH. split.
        -- intros H b [<- | Hb]; [eauto | auto].
        -- intros H b Hb. apply H. now right.
    + split; [discriminate |]. intros H.
      destruct (H a (or_introl eq_refl)) as [ip' [Hip _]]. congruence.
Qed.

End Guard.


#[local] Hint Resolve framed_is_private_ip framed_validate_url : framed.

(** ** Reading a body *)

Lemma len_nonneg {A} (l : list A) : 0 <= len l.
Proof. unfold len; lia. Qed.

Lemma len_app {A} (a b : list A) : len (a ++ b) = len a + len b.
Proof. unfold len. rewrite length_app. lia. Qed.

Lemma len_concat_cons {A} (c : list A) (l : list (list A)) :
  len (concat (c :: l)) = len c + len (concat l).
Proof. cbn [concat]. apply len_app. Qed.

Section Download.

Variable env : Env.

Lemma framed_read_body cur incoming breaks chunks total :
  Framed (read_body cur incoming breaks chunks total).
Proof.
  revert chunks total; induction incoming as [|chunk rest IH]; intros chunks total;
    cbn [read_body]; framed.
Qed.
#[local] Hint Resolve framed_read_body : framed.

Lemma read_body_events_reads cur incoming breaks chunks total :
  Forall (is_read_of cur) (events (read_body cur incoming breaks chunks total)).
Proof.
  revert chunks total; induction incoming as [|chunk rest IH]; intros chunks total;
    cbn [read_body].
  - destruct breaks; constructor.
  - rewrite events_emit_then by framed.
    constructor; [now exists (len chunk) |].
    destruct (_ >? _); [constructor | apply IH].
Qed.

(** A body that fits is read to its end. *)
Lemma read_body_within cur incoming breaks chunks total :
  total + len (concat incoming) <= MAX_DOWNLOAD_SIZE ->
  events (read_body cur incoming breaks chunks total) = read_events cur incoming
  /\ outcome (read_body cur incoming breaks chunks total)
     = if breaks then Raise TransportError else Return (chunks ++ incoming).
Proof.
  revert chunks total; induction incoming as [|chunk rest IH]; intros chunks total Hfit;
    cbn [read_body].
  - rewrite app_nil_r. now destruct breaks.
  - rewrite len_concat_cons in Hfit.
    pose proof (len_nonneg chunk). pose proof (len_nonneg (concat rest)).
    rewrite events_emit_then, outcome_emit_then by framed.
    destruct (Z.gtb_spec (total + len chunk) MAX_DOWNLOAD_SIZE) as [Hgt | Hle]; [lia |].
    destruct (IH (chunks ++ [chunk]) (total + len chunk)) as [Hev Hout]; [lia |].
    rewrite Hev, Hout, <- app_assoc. now split.
Qed.

(** A body that does not fit is given up at the first chunk that takes the
    running total over the budget. *)
Lemma read_body_exceeds cur incoming breaks chunks total :
  total <= MAX_DOWNLOAD_SIZE ->
  MAX_DOWNLOAD_SIZE < total + len (concat incoming) ->
  outcome (read_body cur incoming breaks chunks total) = Raise (ValueError DownloadExceeded)
  /\ exists k : nat,
       events (read_body cur incoming breaks chunks total)
       = read_events cur (firstn (S k) incoming)
       /\ total + len (concat (firstn k incoming)) <= MAX_DOWNLOAD_SIZE
       /\ MAX_DOWNLOAD_SIZE < total + len (concat (firstn (S k) incoming)).
Proof.
  revert chunks total; induction incoming as [|chunk rest IH]; intros chunks total Hle Hgt.
  - cbn [concat] in Hgt. unfold len in Hgt; simpl in Hgt. lia.
  - cbn [read_body].
    rewrite events_emit_then, outcome_emit_then by framed.
    rewrite len_concat_cons in Hgt.
    destruct (Z.gtb_spec (total + len chunk) MAX_DOWNLOAD_SIZE) as [Hover | Hunder].
    + split; [reflexivity |]. exists 0%nat.
      change (firstn 1 (chunk :: rest)) with [chunk].
      change (firstn 0 (chunk :: rest)) with (@nil (list byte)).
      rewrite len_concat_cons. cbn [concat]. change (len (@nil byte)) with 0.
      split; [reflexivity | lia].
    + destruct (IH (chunks ++ [chunk]) (total + len chunk)) as [Hout [k [Hev [Hk1 Hk2]]]];
        [lia | lia |].
      split; [exact Hout |]. exists (S k).
      change (firstn (S (S k)) (chunk :: rest)) with (chunk :: firstn (S k) rest).
      change (firstn (S k) (chunk :: rest)) with (chunk :: firstn k rest).
      rewrite !len_concat_cons. unfold read_events in *; cbn [map].
      rewrite Hev. split; [reflexivity | lia].
Qed.

Lemma read_body_returns cur incoming breaks chunks total result :
  total <= MAX_DOWNLOAD_SIZE ->
  outcome (read_body cur incoming breaks chunks total) = Return result ->
  breaks = false /\ result = chunks ++ incoming
  /\ total + len (concat incoming) <= MAX_DOWNLOAD_SIZE
  /\ events (read_body cur incoming breaks chunks total) = read_events cur incoming.
Proof.
  intros Hle Hout.
  destruct (Z.le_gt_cases (total + len (concat incoming)) MAX_DOWNLOAD_SIZE) as [Hfit | Hover].
  - destruct (read_body_within cur incoming breaks chunks total Hfit) as [Hev Hout'].
    rewrite Hout' in Hout. destruct breaks; [discriminate |].
    injection Hout as <-. auto.
  - destruct (read_body_exceeds cur incoming breaks chunks total Hle Hover) as [Hout' _].
    congruence.
Qed.

(** *** One response *)

Lemma framed_receive url cur response : Framed (receive env url cur response).
Proof. unfold receive. framed. Qed.
#[local] Hint Resolve framed_receive : framed.

Lemma receive_events_reads url cur response :
  Forall (is_read_of cur) (events (receive env url cur response)).
Proof.
  unfold receive.
  repeat (apply events_bind_all; [framed | intros ?; framed | | intros ?]);
    try apply read_body_events_reads;
    repeat match goal with
           | |- Forall _ (events (match ?x with _ => _ end)) => destruct x
           | |- Forall _ (events (if ?b then _ else _)) => destruct b
           | |- Forall _ (events (let _ := _ in _)) => cbv zeta
           end;
    constructor.
Qed.

Ltac framing :=
  lazymatch goal with |- Framed _ => idtac | _ => intros ? end;
  framed.

Ltac run_bind :=
  rewrite ?events_bind, ?outcome_bind by framing;
  rewrite ?events_ret, ?outcome_ret, ?events_raise, ?outcome_raise;
  cbn [app].

Lemma receive_bad_status url cur response :
  status_ok response = false ->
  events (receive env url cur response) = []
  /\ outcome (receive env url cur response) = Raise HTTPStatusError.
Proof. intros H. unfold receive. rewrite H. now run_bind. Qed.

(** An announced length over the budget ends the run before any chunk is
    asked for. *)
Lemma receive_declared_too_large url cur response h n :
  status_ok response = true ->
  headers response !! "content-length" = Some h -> h <> "" ->
  int env h = Some n -> MAX_DOWNLOAD_SIZE < n ->
  events (receive env url cur response) = []
  /\ outcome (receive env url cur response) = Raise (ValueError (FileTooLarge n)).
Proof.
  intros Hs Hh Hne Hn Hgt. unfold receive. rewrite Hs, Hh.
  destruct (String.eqb_spec h ""); [contradiction |]. rewrite Hn.
  destruct (Z.gtb_spec n MAX_DOWNLOAD_SIZE); [| lia].
  now run_bind.
Qed.

(** Otherwise the body is read, and the content check decides. *)
Lemma receive_reads url cur response :
  status_ok response = true -> declares_within_budget env response ->
  events (receive env url cur response)
  = events (read_body cur (body response) (body_breaks response) [] 0)
  /\ outcome (receive env url cur response)
     = match outcome (read_body cur (body response) (body_breaks response) [] 0) with
       | Return chunks =>
           if Py.contains "pdf" (Py.lower (default "" (headers response !! "content-type")))
              || Py.bytes_startswith (concat chunks) pdf_magic
           then Return (concat chunks)
           else Raise (ValueError (NotAPdf url))
       | Raise e => Raise e
       end.
Proof.
  intros Hs Hd. unfold receive. rewrite Hs.
  rewrite events_bind, outcome_bind by framing.
  rewrite events_ret, outcome_ret. cbn [app].
  assert (Hrest :
    forall skip : M unit, outcome skip = Return tt -> events skip = [] -> Framed skip ->
    events (skip ;;
            chunks <- read_body cur (body response) (body_breaks response) [] 0 ;;
            let content := concat chunks in
            let content_type := default "" (headers response !! "content-type") in
            if negb (Py.contains "pdf" (Py.lower content_type))
            then if negb (Py.bytes_startswith content pdf_magic)
                 then raise (ValueError (NotAPdf url)) else ret content
            else ret content)
    = events (read_body cur (body response) (body_breaks response) [] 0)
    /\ outcome (skip ;;
            chunks <- read_body cur (body response) (body_breaks response) [] 0 ;;
            let content := concat chunks in
            let content_type := default "" (headers response !! "content-type") in
            if negb (Py.contains "pdf" (Py.lower content_type))
            then if negb (Py.bytes_startswith content pdf_magic)
                 then raise (ValueError (NotAPdf url)) else ret content
            else ret content)
       = match outcome (read_body cur (body response) (body_breaks response) [] 0) with
         | Return chunks =>
             if Py.contains "pdf" (Py.lower (default "" (headers response !! "content-type")))
                || Py.bytes_startswith (concat chunks) pdf_magic
             then Return (concat chunks)
             else Raise (ValueError (NotAPdf url))
         | Raise e => Raise e
         end).
  { intros skip Ho He Hf.
    rewrite (events_bind skip), (outcome_bind skip) by framing.
    rewrite Ho, He. cbn [app]. run_bind.
    destruct (outcome (read_body _ _ _ _ _)) as [chunks | e];
      [| now rewrite app_nil_r].
    cbv zeta.
    destruct (Py.contains _ _); cbn [negb orb];
      [| destruct (Py.bytes_startswith _ _); cbn [negb] ];
      run_bind; now rewrite app_nil_r. }
  unfold declares_within_budget in Hd.
  destruct (headers response !! "content-length") as [h|].
  - destruct Hd as [-> | [n [Hn Hle]]].
    + apply Hrest; [reflexivity | reflexivity | framed].
    + rewrite Hn.
      destruct (Z.gtb_spec n MAX_DOWNLOAD_SIZE); [lia |].
      destruct (String.eqb h ""); apply Hrest; try reflexivity; framed.
  - apply Hrest; [reflexivity | reflexivity | framed].
Qed.

Lemma receive_malformed_length url cur response h :
  status_ok response = true ->
  headers response !! "content-length" = Some h -> h <> "" ->
  int env h = None ->
  events (receive env url cur response) = []
  /\ outcome (receive env url cur response) = Raise LibraryValueError.
Proof.
  intros Hs Hh Hne Hn. unfold receive. rewrite Hs, Hh.
  destruct (String.eqb_spec h ""); [contradiction |]. rewrite Hn.
  now run_bind.
Qed.

Lemma budget_positive : 0 < MAX_DOWNLOAD_SIZE.
Proof. reflexivity. Qed.

(** The running total goes over the budget: the run ends there. *)
Lemma receive_overflow url cur response :
  status_ok response = true -> declares_within_budget env response ->
  MAX_DOWNLOAD_SIZE < len (concat (body response)) ->
  outcome (receive env url cur response) = Raise (ValueError DownloadExceeded)
  /\ exists k : nat,
       events (receive env url cur response)
       = read_events cur (firstn (S k) (body response))
       /\ len (concat (firstn k (body response))) <= MAX_DOWNLOAD_SIZE
       /\ MAX_DOWNLOAD_SIZE < len (concat (firstn (S k) (body response))).
Proof.
  intros Hs Hd Hover.
  destruct (receive_reads url cur response Hs Hd) as [Hev Hout].
  pose proof budget_positive as Hpos.
  destruct (read_body_exceeds cur (body response) (body_breaks response) [] 0)
    as [Hraise [k [Hk [Hk1 Hk2]]]]; [lia | lia |].
  rewrite Hout, Hev, Hraise. split; [reflexivity |].
  exists k. rewrite Hk. split; [reflexivity | lia].
Qed.

(** The whole body arrived within the budget: the content check decides. *)
Lemma receive_checks_pdf url cur response :
  status_ok response = true -> declares_within_budget env response ->
  len (concat (body response)) <= MAX_DOWNLOAD_SIZE ->
  body_breaks response = false ->
  events (receive env url cur response) = read_events cur (body response)
  /\ outcome (receive env url cur response)
     = if pdf_accepted response then Return (concat (body response))
       else Raise (ValueError (NotAPdf url)).
Proof.
  intros Hs Hd Hfit Hb.
  destruct (receive_reads url cur response Hs Hd) as [Hev Hout].
  destruct (read_body_within cur (body response) (body_breaks response) [] 0)
    as [Hev' Hout']; [lia |].
  rewrite Hout, Hev, Hout', Hev', Hb. cbn [app]. now split.
Qed.

(** What a response went through when [receive] returns its content. *)
Lemma receive_returns url cur response content :
  outcome (receive env url cur response) = Return content ->
  status_ok response = true /\ declares_within_budget env response
  /\ body_breaks response = false
  /\ len (concat (body response)) <= MAX_DOWNLOAD_SIZE
  /\ content = concat (body response)
  /\ pdf_accepted response = true
  /\ events (receive env url cur response) = read_events cur (body response).
Proof.
  intros Hret.
  destruct (status_ok response) eqn:Hs;
    [| destruct (receive_bad_status url cur response Hs); congruence].
  assert (Hd : declares_within_budget env response).
  { unfold declares_within_budget.
    destruct (headers response !! "content-length") as [h|] eqn:Hh; [| exact I].
    destruct (String.eqb_spec h "") as [-> | Hne]; [now left | right].
    destruct (int env h) as [n|] eqn:Hn.
    - exists n. split; [reflexivity |].
      destruct (Z.le_gt_cases n MAX_DOWNLOAD_SIZE) as [Hle | Hgt]; [exact Hle |].
      destruct (receive_declared_too_large url cur response h n Hs Hh Hne Hn Hgt).
      congruence.
    - destruct (receive_malformed_length url cur response h Hs Hh Hne Hn). congruence. }
  destruct (receive_reads url cur response Hs Hd) as [Hev Hout].
  rewrite Hout in Hret.
  destruct (outcome (read_body _ _ _ _ _)) as [chunks | e] eqn:Hread; [| discriminate].
  pose proof budget_positive as Hpos.
  assert (H0 : 0 <= MAX_DOWNLOAD_SIZE) by lia.
  destruct (read_body_returns cur _ _ _ 0 _ H0 Hread) as [Hb [-> [Hfit Hev']]].
  cbn [app] in *.
  destruct (_ || _) eqn:Hpdf in Hret; [| discriminate].
  injection Hret as <-.
  repeat split; try assumption; try lia. congruence.
Qed.

(** ** The redirect loop *)

Lemma framed_follow n url cur : Framed (follow env n url cur).
Proof.
  revert cur; induction n as [|n IH]; intros cur; cbn [follow]; framed.
Qed.
#[local] Hint Resolve framed_follow : framed.

Lemma follow_events_S n url cur :
  events (follow env (S n) url cur)
  = Connect cur ::
    match stream env cur with
    | None => []
    | Some response =>
        if is_redirect response then
          match next_request response with
          | None => []
          | Some redirect_url =>
              events (_validate_url env redirect_url) ++
              match outcome (_validate_url env redirect_url) with
              | Return _ => events (follow env n url redirect_url)
              | Raise _ => []
              end
          end
        else events (receive env url cur response)
    end.
Proof.
  cbn [follow]. rewrite events_emit_then.
  - f_equal. destruct (stream env cur) as [response|]; [| reflexivity].
    destruct (is_redirect response); [| reflexivity].
    destruct (next_request response) as [t|]; [| reflexivity].
    apply events_bind; [apply framed_validate_url | intros _; apply framed_follow].
  - framed.
Qed.

Lemma follow_outcome_S n url cur :
  outcome (follow env (S n) url cur)
  = match stream env cur with
    | None => Raise TransportError
    | Some response =>
        if is_redirect response then
          match next_request response with
          | None => Raise (ValueError RedirectNoTarget)
          | Some redirect_url =>
              match outcome (_validate_url env redirect_url) with
              | Return _ => outcome (follow env n url redirect_url)
              | Raise e => Raise e
              end
          end
        else outcome (receive env url cur response)
    end.
Proof.
  cbn [follow]. rewrite outcome_emit_then.
  - destruct (stream env cur) as [response|]; [| reflexivity].
    destruct (is_redirect response); [| reflexivity].
    destruct (next_request response) as [t|]; [| reflexivity].
    apply outcome_bind; [apply framed_validate_url | intros _; apply framed_follow].
  - framed.
Qed.

(** Every request of the loop goes to a URL that the guard was asked about
    earlier and let through, once that holds of the URL the loop starts at. *)
Lemma follow_connects_guarded n url : forall cur prior,
  In (Validate cur) prior -> passes_guard env cur ->
  forall pre u post,
    events (follow env n url cur) = pre ++ Connect u :: post ->
    In (Validate u) (prior ++ pre) /\ passes_guard env u.
Proof.
  induction n as [|n IH]; intros cur prior Hseen Hpass pre u post Hsplit.
  - destruct pre; discriminate.
  - rewrite follow_events_S in Hsplit.
    destruct pre as [|ev pre]; cbn [app] in Hsplit; injection Hsplit as Hhead Hrest.
    + subst u. rewrite app_nil_r. auto.
    + subst ev.
      destruct (stream env cur) as [response|]; [| destruct pre; discriminate].
      destruct (is_redirect response).
      * destruct (next_request response) as [t|]; [| destruct pre; discriminate].
        destruct (validate_url_events env t) as [rs [Hev Hrs]].
        rewrite Hev in Hrest.
        apply split_after in Hrest as [m [-> Htail]].
        2:{ intros [Hin | Hin]; [discriminate | ].
            exact (resolves_no_connect _ _ Hrs Hin). }
        destruct (outcome (_validate_url env t)) as [[] | e] eqn:Hout;
          [| destruct m; discriminate].
        assert (Hseen' : In (Validate t) (prior ++ Connect cur :: Validate t :: rs))
          by (apply in_or_app; right; right; now left).
        assert (Hpass' : passes_guard env t) by now apply passes_guard_outcome.
        destruct (IH t _ Hseen' Hpass' m u post Htail) as [Hin Hok].
        split; [| exact Hok].
        rewrite <- app_assoc in Hin. exact Hin.
      * exfalso.
        pose proof (receive_events_reads url cur response) as Hreads.
        rewrite Hrest in Hreads. rewrite List.Forall_forall in Hreads.
        destruct (Hreads (Connect u)) as [k Hk]; [| discriminate].
        apply in_or_app. right. now left.
Qed.

(** A hop that the guard turns down is the last thing the loop does. *)
Lemma follow_rejected n url : forall cur pre u post e,
  events (follow env n url cur) = pre ++ Validate u :: post ->
  outcome (_validate_url env u) = Raise e ->
  outcome (follow env n url cur) = Raise e /\ Forall is_resolve post.
Proof.
  induction n as [|n IH]; intros cur pre u post e Hsplit Hbad.
  - destruct pre; discriminate.
  - rewrite follow_events_S in Hsplit. rewrite follow_outcome_S.
    destruct pre as [|ev pre]; cbn [app] in Hsplit; injection Hsplit as Hhead Hrest;
      [discriminate |].
    destruct (stream env cur) as [response|]; [| destruct pre; discriminate].
    destruct (is_redirect response).
    + destruct (next_request response) as [t|]; [| destruct pre; discriminate].
      destruct (validate_url_events env t) as [rs [Hev Hrs]].
      rewrite Hev in Hrest.
      destruct pre as [|ev' pre]; cbn [app] in Hrest; injection Hrest as Hhead' Hrest.
      * subst u. rewrite Hbad in *. rewrite app_nil_r in Hrest.
        now subst post.
      * apply split_after in Hrest as [m [-> Htail]];
          [| exact (resolves_no_validate _ _ Hrs)].
        destruct (outcome (_validate_url env t)) as [[] | e'];
          [| destruct m; discriminate].
        exact (IH t m u post e Htail Hbad).
    + exfalso.
      pose proof (receive_events_reads url cur response) as Hreads.
      rewrite Hrest in Hreads. rewrite List.Forall_forall in Hreads.
      destruct (Hreads (Validate u)) as [k Hk]; [| discriminate].
      apply in_or_app. right. now left.
Qed.

(** Chunks are only ever pulled from a response that is not a redirect. *)
Lemma follow_reads_final n url : forall cur u k,
  In (ReadChunk u k) (events (follow env n url cur)) ->
  exists response, stream env u = Some response /\ is_redirect response = false.
Proof.
  induction n as [|n IH]; intros cur u k Hin.
  - destruct Hin.
  - rewrite follow_events_S in Hin. destruct Hin as [Hin | Hin]; [discriminate |].
    destruct (stream env cur) as [response|] eqn:Hs; [| destruct Hin].
    destruct (is_redirect response) eqn:Hr.
    + destruct (next_request response) as [t|]; [| destruct Hin].
      destruct (validate_url_events env t) as [rs [Hev Hrs]].
      rewrite Hev in Hin. apply in_app_or in Hin as [[Hin | Hin] | Hin].
      * discriminate.
      * destruct (resolves_no_read _ _ _ Hrs Hin).
      * destruct (outcome (_validate_url env t)); [eauto | destruct Hin].
    + pose proof (receive_events_reads url cur response) as Hreads.
      rewrite List.Forall_forall in Hreads.
      destruct (Hreads _ Hin) as [k' Hk]. injection Hk as -> _. eauto.
Qed.

(** The loop ends at the first response that is not a redirect: whatever
    [receive] makes of it is what the loop makes of the run. *)
Lemma follow_reaches n url : forall cur u response,
  In (Connect u) (events (follow env n url cur)) ->
  stream env u = Some response -> is_redirect response = false ->
  outcome (follow env n url cur) = outcome (receive env url u response)
  /\ exists pre,
       events (follow env n url cur)
       = pre ++ Connect u :: events (receive env url u response)
       /\ forall v k, ~ In (ReadChunk v k) pre.
Proof.
  induction n as [|n IH]; intros cur u response Hin Hs Hr.
  - destruct Hin.
  - rewrite follow_events_S in *. rewrite follow_outcome_S.
    destruct Hin as [Hin | Hin].
    + injection Hin as ->. rewrite Hs, Hr. split; [reflexivity |].
      exists []. split; [reflexivity | intros v k []].
    + destruct (stream env cur) as [response'|] eqn:Hs'; [| destruct Hin].
      destruct (is_redirect response') eqn:Hr'.
      * destruct (next_request response') as [t|]; [| destruct Hin].
        destruct (validate_url_events env t) as [rs [Hev Hrs]].
        rewrite Hev in *. apply in_app_or in Hin as [[Hin | Hin] | Hin].
        -- discriminate.
        -- destruct (resolves_no_connect _ _ Hrs Hin).
        -- destruct (outcome (_validate_url env t)); [| destruct Hin].
           destruct (IH t u response Hin Hs Hr) as [Hout [pre [Hpre Hno]]].
           split; [exact Hout |].
           exists (Connect cur :: (Validate t :: rs) ++ pre). split.
           ++ rewrite Hpre. cbn [app]. now rewrite <- app_assoc.
           ++ intros v k [Hbad | [Hbad | Hbad]]; try discriminate.
              apply in_app_or in Hbad as [Hbad | Hbad].
              ** exact (resolves_no_read _ _ _ Hrs Hbad).
              ** exact (Hno v k Hbad).
      * pose proof (receive_events_reads url cur response') as Hreads.
        rewrite List.Forall_forall in Hreads.
        destruct (Hreads _ Hin) as [k Hk]. discriminate.
Qed.

(** The target of a redirect is handed to the guard as the very next step. *)
Lemma follow_redirect_validates n url : forall cur pre u post response target,
  events (follow env n url cur) = pre ++ Connect u :: post ->
  stream env u = Some response -> is_redirect response = true ->
  next_request response = Some target ->
  exists post', post = Validate target :: post'.
Proof.
  induction n as [|n IH]; intros cur pre u post response target Hsplit Hs Hr Ht.
  - destruct pre; discriminate.
  - rewrite follow_events_S in Hsplit.
    destruct pre as [|ev pre]; cbn [app] in Hsplit; injection Hsplit as Hhead Hrest.
    + subst u. rewrite Hs, Hr, Ht in Hrest.
      destruct (validate_url_events env target) as [rs [Hev _]].
      rewrite Hev in Hrest. subst post. cbn [app]. eauto.
    + subst ev.
      destruct (stream env cur) as [response'|]; [| destruct pre; discriminate].
      destruct (is_redirect response').
      * destruct (next_request response') as [t|]; [| destruct pre; discriminate].
        destruct (validate_url_events env t) as [rs [Hev Hrs]].
        rewrite Hev in Hrest.
        apply split_after in Hrest as [m [-> Htail]].
        2:{ intros [Hin | Hin]; [discriminate | ].
            exact (resolves_no_connect _ _ Hrs Hin). }
        destruct (outcome (_validate_url env t)); [| destruct m; discriminate].
        exact (IH t m u post response target Htail Hs Hr Ht).
      * exfalso.
        pose proof (receive_events_reads url cur response') as Hreads.
        rewrite Hrest in Hreads. rewrite List.Forall_forall in Hreads.
        destruct (Hreads (Connect u)) as [k Hk]; [| discriminate].
        apply in_or_app. right. now left.
Qed.

(** When the loop returns a content, it is what [receive] returned for the
    last URL it went to. *)
Lemma follow_returns n url : forall cur content,
  outcome (follow env n url cur) = Return content ->
  exists final response,
    In (Connect final) (events (follow env n url cur))
    /\ stream env final = Some response /\ is_redirect response = false
    /\ outcome (receive env url final response) = Return content.
Proof.
  induction n as [|n IH]; intros cur content Hret.
  - discriminate.
  - rewrite follow_outcome_S in Hret. rewrite follow_events_S.
    destruct (stream env cur) as [response|] eqn:Hs; [| discriminate].
    destruct (is_redirect response) eqn:Hr.
    + destruct (next_request response) as [t|]; [| discriminate].
      destruct (outcome (_validate_url env t)); [| discriminate].
      destruct (IH t content Hret) as [final [response' [Hin Hrest]]].
      exists final, response'. split; [| exact Hrest].
      right. apply in_or_app. now right.
    + exists cur, response. repeat split; auto. now left.
Qed.

End Download.

#[local] Hint Resolve framed_read_body framed_receive framed_follow : framed.

(** ** The cache *)

Section Cache.

Variable env : Env.

(** The file name is computed without touching anything. *)
Lemma get_cache_filename_run (url : string) (w : World) :
  _get_cache_filename env url w = (w, outcome (_get_cache_filename env url)).
Proof.
  unfold outcome, _get_cache_filename, ret, raise.
  destruct (urlparse env url) as [parsed|]; [| reflexivity].
  destruct (Py.endswith (path parsed) ".pdf"); reflexivity.
Qed.

Lemma get_cache_filename_after_guard (url : string) :
  outcome (_validate_url env url) = Return tt ->
  exists filename, outcome (_get_cache_filename env url) = Return filename.
Proof.
  unfold outcome, _validate_url, _get_cache_filename, bind, emit, ret, raise.
  cbn [fst snd].
  destruct (urlparse env url) as [parsed|]; [| discriminate].
  intros _. destruct (Py.endswith (path parsed) ".pdf"); eauto.
Qed.

Lemma get_local_path_run (url : string) (w : World) :
  get_local_path env url w
  = let probe :=
      match outcome (_get_cache_filename env url) with
      | Raise e => (w, Raise e)
      | Return filename =>
          if bool_decide (is_Some (files w !! filename))
          then (mkWorld (<[url := filename]> (_url_to_path w)) (files w) (trace w),
                Return (Some filename))
          else (w, Return None)
      end in
    match _url_to_path w !! url with
    | Some p => if bool_decide (is_Some (files w !! p)) then (w, Return (Some p)) else probe
    | None => probe
    end.
Proof.
  cbv [get_local_path bind get path_exists ret remember].
  destruct (_url_to_path w !! url) as [p|].
  - destruct (bool_decide (is_Some (files w !! p))); [reflexivity |].
    rewrite get_cache_filename_run.
    destruct (outcome (_get_cache_filename env url)) as [filename | e]; [| reflexivity].
    now destruct (bool_decide (is_Some (files w !! filename))).
  - rewrite get_cache_filename_run.
    destruct (outcome (_get_cache_filename env url)) as [filename | e]; [| reflexivity].
    now destruct (bool_decide (is_Some (files w !! filename))).
Qed.

(** A lookup leaves the directory and the trace alone, and what it returns
    is an entry of the directory that the index then holds for the URL. *)
Lemma get_local_path_hit (url : string) (w w' : World) (p : string) :
  get_local_path env url w = (w', Return (Some p)) ->
  files w' = files w /\ trace w' = trace w
  /\ _url_to_path w' !! url = Some p /\ is_Some (files w !! p).
Proof.
  rewrite get_local_path_run. cbv zeta.
  assert (Hprobe :
    match outcome (_get_cache_filename env url) with
    | Raise e => (w, Raise e)
    | Return filename =>
        if bool_decide (is_Some (files w !! filename))
        then (mkWorld (<[url := filename]> (_url_to_path w)) (files w) (trace w),
              Return (Some filename))
        else (w, Return None)
    end = (w', Return (Some p)) ->
    files w' = files w /\ trace w' = trace w
    /\ _url_to_path w' !! url = Some p /\ is_Some (files w !! p)).
  { destruct (outcome (_get_cache_filename env url)) as [filename | e]; [| discriminate].
    case_bool_decide as Hthere; [| discriminate].
    intros [= <- <-]. cbn. repeat split; auto. apply lookup_insert_eq. }
  destruct (_url_to_path w !! url) as [q|] eqn:Hq; [| exact Hprobe].
  case_bool_decide as Hthere; [| exact Hprobe].
  intros [= <- <-]. auto.
Qed.

Lemma get_local_path_other (url : string) (w w' : World) (r : Result (option string)) :
  get_local_path env url w = (w', r) ->
  (forall p, r <> Return (Some p)) -> w' = w.
Proof.
  rewrite get_local_path_run. cbv zeta. intros Hrun Hnot.
  assert (Hprobe :
    match outcome (_get_cache_filename env url) with
    | Raise e => (w, Raise e)
    | Return filename =>
        if bool_decide (is_Some (files w !! filename))
        then (mkWorld (<[url := filename]> (_url_to_path w)) (files w) (trace w),
              Return (Some filename))
        else (w, Return None)
    end = (w', r) -> w' = w).
  { destruct (outcome (_get_cache_filename env url)) as [filename | e];
      [| now intros [= <- _]].
    case_bool_decide; intros [= <- <-]; [| reflexivity].
    now destruct (Hnot filename). }
  destruct (_url_to_path w !! url) as [q|]; [| exact (Hprobe Hrun)].
  case_bool_decide; [| exact (Hprobe Hrun)].
  injection Hrun as <- <-. now destruct (Hnot q).
Qed.

End Cache.


(** ** [fetch], step by step *)

Section Fetch.

Variable env : Env.

Lemma fetch_run (url : string) (force_refresh : bool) (w : World) :
  fetch env url force_refresh w
  = let w1 := log (events (_validate_url env url)) w in
    match outcome (_validate_url env url) with
    | Raise e => (w1, Raise e)
    | Return _ =>
        match (if force_refresh then (w1, Return None) else get_local_path env url w1) with
        | (w2, Raise e) => (w2, Raise e)
        | (w2, Return (Some p)) => (w2, Return p)
        | (w2, Return None) =>
            let w3 := log (events (follow env MAX_REDIRECTS url url)) w2 in
            match outcome (follow env MAX_REDIRECTS url url) with
            | Raise e => (w3, Raise e)
            | Return content =>
                match outcome (_get_cache_filename env url) with
                | Raise e => (w3, Raise e)
                | Return filename => (persist url filename content w3, Return filename)
                end
            end
        end
    end.
Proof.
  assert (Hdownload : forall w2,
    (content <- follow env MAX_REDIRECTS url url ;;
     filename <- _get_cache_filename env url ;;
     write_file filename content ;; remember url filename ;; ret filename) w2
    = match outcome (follow env MAX_REDIRECTS url url) with
      | Raise e => (log (events (follow env MAX_REDIRECTS url url)) w2, Raise e)
      | Return content =>
          match outcome (_get_cache_filename env url) with
          | Raise e => (log (events (follow env MAX_REDIRECTS url url)) w2, Raise e)
          | Return filename =>
              (persist url filename content
                 (log (events (follow env MAX_REDIRECTS url url)) w2), Return filename)
          end
      end).
  { intros w2. rewrite bind_run by framed.
    destruct (outcome (follow env MAX_REDIRECTS url url)) as [content | e]; [| reflexivity].
    unfold bind at 1. rewrite get_cache_filename_run.
    now destruct (outcome (_get_cache_filename env url)). }
  unfold fetch. rewrite bind_run by framed. cbv zeta.
  destruct (outcome (_validate_url env url)) as [[] | e]; [| reflexivity].
  destruct force_refresh.
  - unfold bind at 1. unfold ret at 1. apply Hdownload.
  - unfold bind at 1.
    destruct (get_local_path env url _) as [w2 [[p|] | e']]; try reflexivity.
    apply Hdownload.
Qed.

Lemma fetch_cases (url : string) (force_refresh : bool) (w : World) :
  FetchRun env url force_refresh w
    (fst (fetch env url force_refresh w)) (snd (fetch env url force_refresh w)).
Proof.
  rewrite fetch_run. cbv zeta.
  destruct (outcome (_validate_url env url)) as [[] | e] eqn:Hguard;
    [| now apply run_blocked].
  destruct (get_cache_filename_after_guard env url Hguard) as [filename Hname].
  assert (Hmiss : forall w2,
    force_refresh = true
    \/ get_local_path env url (log (events (_validate_url env url)) w)
       = (log (events (_validate_url env url)) w, Return None) ->
    w2 = log (events (_validate_url env url)) w ->
    FetchRun env url force_refresh w
      (fst match outcome (follow env MAX_REDIRECTS url url) with
           | Return content =>
               match outcome (_get_cache_filename env url) with
               | Return filename =>
                   (persist url filename content
                      (log (events (follow env MAX_REDIRECTS url url)) w2),
                    Return filename)
               | Raise e => (log (events (follow env MAX_REDIRECTS url url)) w2, Raise e)
               end
           | Raise e => (log (events (follow env MAX_REDIRECTS url url)) w2, Raise e)
           end)
      (snd match outcome (follow env MAX_REDIRECTS url url) with
           | Return content =>
               match outcome (_get_cache_filename env url) with
               | Return filename =>
                   (persist url filename content
                      (log (events (follow env MAX_REDIRECTS url url)) w2),
                    Return filename)
               | Raise e => (log (events (follow env MAX_REDIRECTS url url)) w2, Raise e)
               end
           | Raise e => (log (events (follow env MAX_REDIRECTS url url)) w2, Raise e)
           end)).
  { intros w2 Hhow ->. rewrite Hname, log_log.
    destruct (outcome (follow env MAX_REDIRECTS url url)) as [content | e] eqn:Hloop.
    - now apply run_stored.
    - now apply run_failed. }
  destruct force_refresh.
  - apply Hmiss; auto.
  - destruct (get_local_path env url _) as [w2 [[p|] | e]] eqn:Hlookup.
    + now apply run_cached.
    + assert (w2 = log (events (_validate_url env url)) w) as ->.
      { apply (get_local_path_other env url _ _ _ Hlookup). intros p; discriminate. }
      apply Hmiss; auto.
    + exfalso. rewrite get_local_path_run in Hlookup. cbv zeta in Hlookup.
      rewrite Hname in Hlookup.
      repeat (case_bool_decide || destruct (_ !! url)); discriminate.
Qed.

End Fetch.

(** ** The guard, case by case *)

Section GuardCases.

Variable env : Env.

Lemma validate_url_outcome (url : string) :
  outcome (_validate_url env url)
  = match urlparse env url with
    | None => Raise LibraryValueError
    | Some parsed =>
        if negb (existsb (String.eqb (scheme parsed)) ["http"; "https"])
        then Raise (ValueError (OnlyHttpAllowed (scheme parsed)))
        else match hostname parsed with
             | None => Raise (ValueError (NoHostname url))
             | Some host =>
                 if String.eqb host "" then Raise (ValueError (NoHostname url))
                 else if existsb (String.eqb host) localhost_names
                 then Raise (ValueError (TargetsLocalhost url))
                 else match getaddrinfo env host with
                      | None => Raise (ValueError (PrivateAddress url))
                      | Some addrs =>
                          if any_flagged env addrs
                          then Raise (ValueError (PrivateAddress url))
                          else Return tt
                      end
             end
    end.
Proof.
  unfold outcome, _validate_url, _is_private_ip, bind, emit, ret, raise.
  cbn [snd fst].
  destruct (urlparse env url) as [parsed|]; [| reflexivity].
  destruct (negb _); [reflexivity |].
  destruct (hostname parsed) as [host|]; [| reflexivity].
  destruct (String.eqb host ""); [reflexivity |].
  destruct (existsb _ localhost_names); [reflexivity |].
  destruct (getaddrinfo env host) as [addrs|]; [| reflexivity].
  now destruct (any_flagged env addrs).
Qed.

Lemma validate_url_trace (url : string) :
  events (_validate_url env url)
  = Validate url ::
    match urlparse env url with
    | None => []
    | Some parsed =>
        if negb (existsb (String.eqb (scheme parsed)) ["http"; "https"]) then []
        else match hostname parsed with
             | None => []
             | Some host =>
                 if String.eqb host "" then []
                 else if existsb (String.eqb host) localhost_names then []
                 else [Resolve host]
             end
    end.
Proof.
  unfold events, _validate_url, _is_private_ip, bind, emit, ret, raise.
  cbn [trace fst fresh app].
  destruct (urlparse env url) as [parsed|]; [| reflexivity].
  destruct (negb _); [reflexivity |].
  destruct (hostname parsed) as [host|]; [| reflexivity].
  destruct (String.eqb host ""); [reflexivity |].
  destruct (existsb _ localhost_names); [reflexivity |].
  destruct (getaddrinfo env host) as [addrs|]; [| reflexivity].
  now destruct (any_flagged env addrs).
Qed.

End GuardCases.

(** ** What [fetch] emits *)

Section FetchTrace.

Variable env : Env.

(** The events of a call that stops at the guard or at the cache. *)
Lemma guard_events_shape (url : string) (evs : list Event) :
  evs = events (_validate_url env url) ->
  (forall pre u post, evs <> pre ++ Connect u :: post)
  /\ (forall u k, ~ In (ReadChunk u k) evs)
  /\ (forall pre u post, evs = pre ++ Validate u :: post ->
        pre = [] /\ u = url /\ Forall is_resolve post).
Proof.
  intros ->. destruct (validate_url_events env url) as [rs [-> Hrs]].
  split; [| split].
  - intros pre u post Heq.
    assert (Hin : In (Connect u) (Validate url :: rs))
      by (rewrite Heq; apply in_or_app; right; now left).
    destruct Hin as [Hin | Hin]; [discriminate |].
    exact (resolves_no_connect _ _ Hrs Hin).
  - intros u k [Hin | Hin]; [discriminate |].
    exact (resolves_no_read _ _ _ Hrs Hin).
  - intros pre u post Heq.
    destruct pre as [|ev pre]; cbn [app] in Heq; injection Heq as Hhead Hrest.
    + now subst.
    + exfalso. apply (resolves_no_validate rs u Hrs).
      rewrite Hrest. apply in_or_app. right. now left.
Qed.

(** The events of a call that goes to the network. *)
Lemma network_events_shape (url : string) (n : nat) (evs : list Event) :
  outcome (_validate_url env url) = Return tt ->
  evs = events (_validate_url env url) ++ events (follow env n url url) ->
  (forall pre u post, evs = pre ++ Connect u :: post ->
     In (Validate u) pre /\ passes_guard env u
     /\ exists m, pre = events (_validate_url env url) ++ m
                  /\ events (follow env n url url) = m ++ Connect u :: post)
  /\ (forall u k, In (ReadChunk u k) evs -> In (ReadChunk u k) (events (follow env n url url)))
  /\ (forall pre u post e, evs = pre ++ Validate u :: post ->
        outcome (_validate_url env u) = Raise e ->
        outcome (follow env n url url) = Raise e /\ Forall is_resolve post).
Proof.
  intros Hok ->. destruct (validate_url_events env url) as [rs [Hev Hrs]].
  split; [| split].
  - intros pre u post Heq.
    apply split_after in Heq as [m [-> Htail]].
    2:{ rewrite Hev. intros [Hin | Hin]; [discriminate |].
        exact (resolves_no_connect _ _ Hrs Hin). }
    destruct (follow_connects_guarded env n url url (events (_validate_url env url)))
      with (3 := Htail) as [Hin Hpass].
    + rewrite Hev. now left.
    + now apply passes_guard_outcome.
    + eauto.
  - intros u k Hin. apply in_app_or in Hin as [Hin | Hin]; [| exact Hin].
    rewrite Hev in Hin. destruct Hin as [Hin | Hin]; [discriminate |].
    destruct (resolves_no_read _ _ _ Hrs Hin).
  - intros pre u post e Heq Hbad. rewrite Hev in Heq.
    destruct pre as [|ev pre]; cbn [app] in Heq; injection Heq as Hhead Hrest.
    + subst u. congruence.
    + apply split_after in Hrest as [m [-> Htail]];
        [| exact (resolves_no_validate _ _ Hrs)].
      exact (follow_rejected env n url url m u post e Htail Hbad).
Qed.

End FetchTrace.

(** * The claims *)

Lemma metadata_is_blocked (env : Env) (target : string) :
  targets_metadata env target ->
  outcome (_validate_url env target) = Raise (ValueError (PrivateAddress target)).
Proof.
  intros (parsed & addrs & a & ip & Hp & Hscheme & Hhost & Hdns & Ha & Hip & Hll).
  rewrite validate_url_outcome, Hp, Hscheme, Hhost. cbn [negb].
  change (String.eqb "169.254.169.254" "") with false.
  change (existsb (String.eqb "169.254.169.254") localhost_names) with false.
  cbv iota. rewrite Hdns.
  replace (any_flagged env addrs) with true; [reflexivity |].
  symmetry. apply any_flagged_true. exists a. split; [exact Ha |].
  right. exists ip. split; [exact Hip |].
  unfold flagged. rewrite Hll. now rewrite !orb_true_r.
Qed.

(** C1. During [fetch] every hop is validated before it is followed. A
    request only goes to a URL that the guard was asked about earlier in the
    run and let through; the target of a redirect response is handed to the
    guard as the very next step; a hop that the guard turns down ends the
    whole call with the guard's error, with no request after it; chunks are
    only read from a response that is not a redirect. In particular, when
    the URL passes the guard and its response redirects to the metadata
    address 169.254.169.254, the call fails with the guard's error for the
    target and never connects to it. *)
Theorem fetch_validates_every_hop
    (env : Env) (url : string) (force_refresh : bool) (w : World) :
  exists evs,
    trace (fst (fetch env url force_refresh w)) = trace w ++ evs
    /\ (forall pre u post, evs = pre ++ Connect u :: post ->
          In (Validate u) pre /\ passes_guard env u)
    /\ (forall pre u post response target,
          evs = pre ++ Connect u :: post ->
          stream env u = Some response -> is_redirect response = true ->
          next_request response = Some target ->
          exists post', post = Validate target :: post')
    /\ (forall pre u post e,
          evs = pre ++ Validate u :: post ->
          outcome (_validate_url env u) = Raise e ->
          snd (fetch env url force_refresh w) = Raise e /\ Forall is_resolve post)
    /\ (forall u size, In (ReadChunk u size) evs ->
          exists response, stream env u = Some response /\ is_redirect response = false)
    /\ (forall response target,
          passes_guard env url -> In (Connect url) evs ->
          stream env url = Some response -> is_redirect response = true ->
          next_request response = Some target -> targets_metadata env target ->
          snd (fetch env url force_refresh w) = Raise (ValueError (PrivateAddress target))
          /\ ~ In (Connect target) evs).
Proof.
  assert (Hlast : forall evs,
    (forall pre u post, evs = pre ++ Connect u :: post ->
       In (Validate u) pre /\ passes_guard env u) ->
    (forall pre u post response target,
       evs = pre ++ Connect u :: post ->
       stream env u = Some response -> is_redirect response = true ->
       next_request response = Some target ->
       exists post', post = Validate target :: post') ->
    (forall pre u post e,
       evs = pre ++ Validate u :: post ->
       outcome (_validate_url env u) = Raise e ->
       snd (fetch env url force_refresh w) = Raise e /\ Forall is_resolve post) ->
    forall response target,
      passes_guard env url -> In (Connect url) evs ->
      stream env url = Some response -> is_redirect response = true ->
      next_request response = Some target -> targets_metadata env target ->
      snd (fetch env url force_refresh w) = Raise (ValueError (PrivateAddress target))
      /\ ~ In (Connect target) evs).
  { intros evs Hguarded Hnext Hreject response target _ Hin Hs Hr Ht Hmeta.
    pose proof (metadata_is_blocked env target Hmeta) as Hbad.
    apply in_split in Hin as [pre [post ->]].
    destruct (Hnext pre url post response target eq_refl Hs Hr Ht) as [post' ->].
    split.
    - apply (Hreject (pre ++ [Connect url]) target post').
      + now rewrite <- app_assoc.
      + exact Hbad.
    - intros Hin. apply in_split in Hin as [pre' [post'' Heq]].
      destruct (Hguarded pre' target post'' Heq) as [_ Hpass].
      pose proof (proj1 (passes_guard_outcome env target) Hpass). congruence. }
  destruct (fetch_cases env url force_refresh w)
    as [e Hguard | w2 p Hguard Hfr Hlookup | e Hguard Hmiss Hloop
        | content filename Hguard Hmiss Hloop Hname].
  - (* the guard turns the URL down *)
    exists (events (_validate_url env url)).
    destruct (guard_events_shape env url _ eq_refl) as [Hnoconn [Hnoread Hval]].
    assert (Hreject : forall pre u post e0,
      events (_validate_url env url) = pre ++ Validate u :: post ->
      outcome (_validate_url env u) = Raise e0 ->
      @Raise string e = Raise e0 /\ Forall is_resolve post).
    { intros pre u post e0 Heq Hbad.
      destruct (Hval pre u post Heq) as [-> [-> Hres]].
      split; [congruence | exact Hres]. }
    split; [reflexivity |].
    split; [intros pre u post Heq; destruct (Hnoconn pre u post Heq) |].
    split; [intros pre u post ? ? Heq; destruct (Hnoconn pre u post Heq) |].
    split; [exact Hreject |].
    split; [intros u k Hin; destruct (Hnoread u k Hin) |].
    intros response target _ Hin. apply in_split in Hin as [pre [post Heq]].
    destruct (Hnoconn pre url post Heq).
  - (* the cache answers *)
    exists (events (_validate_url env url)).
    destruct (guard_events_shape env url _ eq_refl) as [Hnoconn [Hnoread Hval]].
    destruct (get_local_path_hit env url _ _ _ Hlookup) as [_ [Htrace _]].
    split; [exact Htrace |].
    split; [intros pre u post Heq; destruct (Hnoconn pre u post Heq) |].
    split; [intros pre u post ? ? Heq; destruct (Hnoconn pre u post Heq) |].
    split.
    { intros pre u post e0 Heq Hbad.
      destruct (Hval pre u post Heq) as [-> [-> Hres]]. congruence. }
    split; [intros u k Hin; destruct (Hnoread u k Hin) |].
    intros response target _ Hin. apply in_split in Hin as [pre [post Heq]].
    destruct (Hnoconn pre url post Heq).
  - (* the download fails *)
    exists (events (_validate_url env url) ++ events (follow env MAX_REDIRECTS url url)).
    destruct (network_events_shape env url MAX_REDIRECTS _ Hguard eq_refl)
      as [Hconn [Hread Hval]].
    assert (Hguarded : forall pre u post,
      events (_validate_url env url) ++ events (follow env MAX_REDIRECTS url url)
      = pre ++ Connect u :: post -> In (Validate u) pre /\ passes_guard env u).
    { intros pre u post Heq. destruct (Hconn pre u post Heq) as [? [? _]]. auto. }
    assert (Hnext : forall pre u post response target,
      events (_validate_url env url) ++ events (follow env MAX_REDIRECTS url url)
      = pre ++ Connect u :: post ->
      stream env u = Some response -> is_redirect response = true ->
      next_request response = Some target ->
      exists post', post = Validate target :: post').
    { intros pre u post response target Heq Hs Hr Ht.
      destruct (Hconn pre u post Heq) as [_ [_ [m [_ Htail]]]].
      exact (follow_redirect_validates env _ url url m u post response target Htail Hs Hr Ht). }
    assert (Hreject : forall pre u post e0,
      events (_validate_url env url) ++ events (follow env MAX_REDIRECTS url url)
      = pre ++ Validate u :: post ->
      outcome (_validate_url env u) = Raise e0 ->
      @Raise string e = Raise e0 /\ Forall is_resolve post).
    { intros pre u post e0 Heq Hbad.
      destruct (Hval pre u post e0 Heq Hbad) as [Hout Hres].
      split; [congruence | exact Hres]. }
    split; [reflexivity |].
    split; [exact Hguarded |].
    split; [exact Hnext |].
    split; [exact Hreject |].
    split; [intros u k Hin; exact (follow_reads_final env _ url url u k (Hread u k Hin)) |].
    apply Hlast; assumption.
  - (* the download is stored *)
    exists (events (_validate_url env url) ++ events (follow env MAX_REDIRECTS url url)).
    destruct (network_events_shape env url MAX_REDIRECTS _ Hguard eq_refl)
      as [Hconn [Hread Hval]].
    assert (Hguarded : forall pre u post,
      events (_validate_url env url) ++ events (follow env MAX_REDIRECTS url url)
      = pre ++ Connect u :: post -> In (Validate u) pre /\ passes_guard env u).
    { intros pre u post Heq. destruct (Hconn pre u post Heq) as [? [? _]]. auto. }
    assert (Hnext : forall pre u post response target,
      events (_validate_url env url) ++ events (follow env MAX_REDIRECTS url url)
      = pre ++ Connect u :: post ->
      stream env u = Some response -> is_redirect response = true ->
      next_request response = Some target ->
      exists post', post = Validate target :: post').
    { intros pre u post response target Heq Hs Hr Ht.
      destruct (Hconn pre u post Heq) as [_ [_ [m [_ Htail]]]].
      exact (follow_redirect_validates env _ url url m u post response target Htail Hs Hr Ht). }
    assert (Hreject : forall pre u post e0,
      events (_validate_url env url) ++ events (follow env MAX_REDIRECTS url url)
      = pre ++ Validate u :: post ->
      outcome (_validate_url env u) = Raise e0 ->
      Return filename = Raise e0 /\ Forall is_resolve post).
    { intros pre u post e0 Heq Hbad.
      destruct (Hval pre u post e0 Heq Hbad) as [Hout Hres]. congruence. }
    split; [reflexivity |].
    split; [exact Hguarded |].
    split; [exact Hnext |].
    split; [exact Hreject |].
    split; [intros u k Hin; exact (follow_reads_final env _ url url u k (Hread u k Hin)) |].
    apply Hlast; assumption.
Qed.

(** The run of C1 on the tables of [Scenario]: the first hop passes the
    guard, the redirect to the metadata address ends the call. *)
Lemma fetch_validates_every_hop_metadata :
  passes_guard Scenario.env "https://public.example.com/paper.pdf"
  /\ snd (fetch Scenario.env "https://public.example.com/paper.pdf" false fresh)
     = Raise (ValueError (PrivateAddress "http://169.254.169.254/latest/meta-data/"))
  /\ ~ In (Connect "http://169.254.169.254/latest/meta-data/")
          (trace (fst (fetch Scenario.env "https://public.example.com/paper.pdf" false
                         fresh))).
Proof.
  assert (Hpass : passes_guard Scenario.env "https://public.example.com/paper.pdf")
    by (apply passes_guard_outcome; vm_compute; reflexivity).
  split; [exact Hpass |].
  destruct (fetch_validates_every_hop Scenario.env
              "https://public.example.com/paper.pdf" false fresh)
    as (evs & Htrace & _ & _ & _ & _ & Hmeta).
  cbn [fresh trace app] in Htrace. rewrite Htrace.
  apply (Hmeta (Scenario.redirect_to "http://169.254.169.254/latest/meta-data/")).
  - exact Hpass.
  - rewrite <- Htrace. vm_compute. tauto.
  - reflexivity.
  - reflexivity.
  - reflexivity.
  - exists (mkParse "http" (Some "169.254.169.254") "/latest/meta-data/"),
      ["169.254.169.254"], "169.254.169.254", Scenario.link_local_ip.
    repeat split; try reflexivity. now left.
Defined.

Lemma existsb_eqb_in (x : string) (l : list string) :
  existsb (String.eqb x) l = true <-> In x l.
Proof.
  rewrite existsb_exists. split.
  - intros [y [Hy ->%String.eqb_eq]]. exact Hy.
  - intros H. exists x. split; [exact H | apply String.eqb_refl].
Qed.

(** C2, amended. The guard applies its rules in order and fails closed: a
    URL that cannot be parsed is refused; a scheme other than http and https
    is refused with the scheme message; a missing or empty host name with
    the no-host message; the names localhost, 127.0.0.1, ::1 and 0.0.0.0 with
    the localhost message, by comparison alone, without a lookup; any other
    host is looked up once, and a lookup that fails, an address that cannot
    be read, or an address that is private, loopback, link-local, reserved
    or multicast all give one and the same private-address error; a URL that
    passes every rule is accepted. The index and the directory are left as
    they were. *)
Theorem validate_url_rules (env : Env) (url : string) (w : World) :
  let run := _validate_url env url w in
  _url_to_path (fst run) = _url_to_path w /\ files (fst run) = files w
  /\ (urlparse env url = None ->
        snd run = Raise LibraryValueError /\ trace (fst run) = trace w ++ [Validate url])
  /\ forall parsed, urlparse env url = Some parsed ->
     (~ In (scheme parsed) ["http"; "https"] ->
        snd run = Raise (ValueError (OnlyHttpAllowed (scheme parsed)))
        /\ trace (fst run) = trace w ++ [Validate url])
     /\ (In (scheme parsed) ["http"; "https"] ->
         (hostname parsed = None \/ hostname parsed = Some "" ->
            snd run = Raise (ValueError (NoHostname url))
            /\ trace (fst run) = trace w ++ [Validate url])
         /\ forall host, hostname parsed = Some host -> host <> "" ->
            (In host localhost_names ->
               snd run = Raise (ValueError (TargetsLocalhost url))
               /\ trace (fst run) = trace w ++ [Validate url])
            /\ (~ In host localhost_names ->
                trace (fst run) = trace w ++ [Validate url; Resolve host]
                /\ (getaddrinfo env host = None ->
                      snd run = Raise (ValueError (PrivateAddress url)))
                /\ forall addrs, getaddrinfo env host = Some addrs ->
                   ((exists a, In a addrs /\
                       (ip_address env a = None \/
                        exists ip, ip_address env a = Some ip /\
                          (is_private ip || is_loopback ip || is_link_local ip
                           || is_reserved ip || is_multicast ip) = true)) ->
                      snd run = Raise (ValueError (PrivateAddress url)))
                   /\ ((forall a, In a addrs ->
                          exists ip, ip_address env a = Some ip /\
                            (is_private ip || is_loopback ip || is_link_local ip
                             || is_reserved ip || is_multicast ip) = false) ->
                         snd run = Return tt))).
Proof.
  cbv zeta. rewrite validate_url_run. cbn [fst snd log _url_to_path files trace].
  rewrite validate_url_outcome, validate_url_trace.
  split; [reflexivity |]. split; [reflexivity |].
  split; [now intros -> |].
  intros parsed ->.
  destruct (existsb (String.eqb (scheme parsed)) ["http"; "https"]) eqn:Hscheme.
  2:{ split; [now intros _ |]. intros Hin%existsb_eqb_in. congruence. }
  apply existsb_eqb_in in Hscheme. cbn [negb].
  split; [intros Hnot; contradiction |]. intros _.
  split.
  { intros [-> | ->]; [now split |]. now split. }
  intros host -> Hne.
  destruct (String.eqb_spec host ""); [contradiction |].
  destruct (existsb (String.eqb host) localhost_names) eqn:Hlocal.
  { apply existsb_eqb_in in Hlocal. split; [now intros _ | contradiction]. }
  split; [intros Hin%existsb_eqb_in; congruence |]. intros _.
  split; [reflexivity |].
  split; [now intros -> |].
  intros addrs ->. split.
  - intros H%(any_flagged_true env). now rewrite H.
  - intros H%(any_flagged_false env). now rewrite H.
Qed.

(** The rule for a host that does not resolve, on the tables of [Scenario]
    with a resolver that answers nothing. *)
Lemma validate_url_rules_offline :
  trace (fst (_validate_url Scenario.offline "https://internal-server.corp/secret.pdf"
                fresh))
  = [Validate "https://internal-server.corp/secret.pdf"; Resolve "internal-server.corp"]
  /\ snd (_validate_url Scenario.offline "https://internal-server.corp/secret.pdf"
            fresh)
     = Raise (ValueError (PrivateAddress "https://internal-server.corp/secret.pdf")).
Proof.
  destruct (validate_url_rules Scenario.offline "https://internal-server.corp/secret.pdf"
              fresh) as (_ & _ & _ & Hrules).
  destruct (Hrules (mkParse "https" (Some "internal-server.corp") "/secret.pdf") eq_refl)
    as [_ Hhttp].
  destruct Hhttp as [_ Hhost]; [right; now left |].
  destruct (Hhost "internal-server.corp" eq_refl) as [_ Hlookup]; [discriminate |].
  destruct Hlookup as (Htrace & Hfail & _).
  - cbn [localhost_names In]. intros [H | [H | [H | [H | []]]]]; discriminate.
  - split; [exact Htrace | exact (Hfail eq_refl)].
Defined.

(** C2 as stated does not hold: a host that does not resolve is not told
    apart from a host with a private address. The same URL is refused with
    the very same error by a resolver that answers nothing and by one that
    answers 10.0.0.1, so no reading of the errors gives the first the reason
    "unresolvable" and the second the reason "private-address". *)
Lemma unresolvable_is_reported_as_private :
  getaddrinfo Scenario.offline "internal-server.corp" = None
  /\ getaddrinfo Scenario.env "internal-server.corp" = Some ["10.0.0.1"]
  /\ snd (_validate_url Scenario.offline "https://internal-server.corp/secret.pdf"
            fresh)
     = Raise (ValueError (PrivateAddress "https://internal-server.corp/secret.pdf"))
  /\ snd (_validate_url Scenario.env "https://internal-server.corp/secret.pdf"
            fresh)
     = Raise (ValueError (PrivateAddress "https://internal-server.corp/secret.pdf"))
  /\ forall reading : Result unit -> SpecBlockedReason,
       ~ (reading (snd (_validate_url Scenario.offline
                          "https://internal-server.corp/secret.pdf" fresh))
          = SpecUnresolvable
          /\ reading (snd (_validate_url Scenario.env
                             "https://internal-server.corp/secret.pdf" fresh))
             = SpecPrivateAddress).
Proof.
  split; [reflexivity |]. split; [reflexivity |].
  assert (Hoff : snd (_validate_url Scenario.offline
                        "https://internal-server.corp/secret.pdf" fresh)
                 = Raise (ValueError (PrivateAddress "https://internal-server.corp/secret.pdf")))
    by (vm_compute; reflexivity).
  assert (Hon : snd (_validate_url Scenario.env
                       "https://internal-server.corp/secret.pdf" fresh)
                = Raise (ValueError (PrivateAddress "https://internal-server.corp/secret.pdf")))
    by (vm_compute; reflexivity).
  split; [exact Hoff |]. split; [exact Hon |].
  intros reading [H1 H2]. rewrite Hoff in H1. rewrite Hon in H2. congruence.
Qed.

(** ** Runs that reach a response *)

Section Reached.

Variable env : Env.

(** A call that goes to [u] and finds there a response that is not a
    redirect ends as [receive] ends on that response; and when [receive]
    returns, the content is stored. *)
Lemma fetch_reaches (url : string) (force_refresh : bool) (w : World)
    (evs : list Event) (u : string) (response : Response) :
  trace (fst (fetch env url force_refresh w)) = trace w ++ evs ->
  In (Connect u) evs ->
  stream env u = Some response -> is_redirect response = false ->
  (exists pre, evs = pre ++ Connect u :: events (receive env url u response)
               /\ forall v k, ~ In (ReadChunk v k) pre)
  /\ match outcome (receive env url u response) with
     | Raise e => snd (fetch env url force_refresh w) = Raise e
     | Return content =>
         exists filename,
           snd (fetch env url force_refresh w) = Return filename
           /\ outcome (_get_cache_filename env url) = Return filename
     end.
Proof.
  intros Htrace Hin Hs Hr.
  assert (Hnet : forall evs',
    trace w ++ evs' = trace w ++ evs ->
    evs' = events (_validate_url env url) ++ events (follow env MAX_REDIRECTS url url) ->
    outcome (follow env MAX_REDIRECTS url url) = outcome (receive env url u response)
    /\ exists pre, evs = pre ++ Connect u :: events (receive env url u response)
                   /\ forall v k, ~ In (ReadChunk v k) pre).
  { intros evs' Heq ->. apply app_inv_head in Heq. subst evs.
    destruct (validate_url_events env url) as [rs [Hev Hrs]].
    apply in_app_or in Hin as [Hin | Hin].
    { rewrite Hev in Hin. destruct Hin as [Hin | Hin]; [discriminate |].
      destruct (resolves_no_connect _ _ Hrs Hin). }
    destruct (follow_reaches env _ url url u response Hin Hs Hr) as [Hout [pre [Hpre Hno]]].
    split; [exact Hout |].
    exists (events (_validate_url env url) ++ pre). split.
    - rewrite Hpre. now rewrite app_assoc.
    - intros v k Hbad. apply in_app_or in Hbad as [Hbad | Hbad]; [| exact (Hno v k Hbad)].
      rewrite Hev in Hbad. destruct Hbad as [Hbad | Hbad]; [discriminate |].
      exact (resolves_no_read _ _ _ Hrs Hbad). }
  assert (Hstop : forall evs',
    trace w ++ evs' = trace w ++ evs -> evs' = events (_validate_url env url) -> False).
  { intros evs' Heq ->. apply app_inv_head in Heq. subst evs.
    apply in_split in Hin as [pre [post Heq]].
    destruct (guard_events_shape env url _ eq_refl) as [Hnoconn _].
    exact (Hnoconn pre u post Heq). }
  destruct (fetch_cases env url force_refresh w)
    as [e Hguard | w2 p Hguard Hfr Hlookup | e Hguard Hmiss Hloop
        | content filename Hguard Hmiss Hloop Hname].
  - destruct (Hstop _ Htrace eq_refl).
  - destruct (get_local_path_hit env url _ _ _ Hlookup) as [_ [Htrace' _]].
    cbn [fst] in Htrace. rewrite Htrace' in Htrace.
    destruct (Hstop _ Htrace eq_refl).
  - destruct (Hnet _ Htrace eq_refl) as [Hout Hpre].
    split; [exact Hpre |]. rewrite <- Hout, Hloop. reflexivity.
  - destruct (Hnet _ Htrace eq_refl) as [Hout Hpre].
    split; [exact Hpre |]. rewrite <- Hout, Hloop. eauto.
Qed.

End Reached.

Lemma fetch_goes_out (env : Env) (url : string) (w : World) :
  passes_guard env url ->
  exists evs, trace (fst (fetch env url true w)) = trace w ++ evs
              /\ In (Connect url) evs.
Proof.
  intros Hpass. apply (proj1 (passes_guard_outcome _ _)) in Hpass.
  exists (events (_validate_url env url) ++ events (follow env MAX_REDIRECTS url url)).
  split.
  - destruct (fetch_cases env url true w)
      as [e Hguard | w2 q Hguard Hfr Hlookup | e Hguard Hmiss Hloop
          | content fn Hguard Hmiss Hloop Hname]; try congruence; reflexivity.
  - apply in_or_app. right. unfold MAX_REDIRECTS. rewrite follow_events_S. now left.
Qed.

Lemma len_concat_repeat {A} (c : list A) (n : nat) :
  len (concat (repeat c n)) = Z.of_nat n * len c.
Proof.
  induction n as [|n IH]; [reflexivity |].
  cbn [repeat]. rewrite len_concat_cons, IH. lia.
Qed.

(** C3. The download budget is enforced from the header and during
    streaming. When [fetch] reaches a response that is not a redirect and
    whose status is a success: if its Content-Length header is there and
    announces more than [MAX_DOWNLOAD_SIZE], the call fails with the
    too-large error and no chunk of any body is read; if the header is
    absent, empty or announces no more than the budget while the body is in
    fact longer, the body is read chunk by chunk and the call fails with the
    download-exceeded error at the first chunk that takes the running total
    over the budget, no chunk being read after it. *)
Theorem fetch_enforces_budget
    (env : Env) (url : string) (force_refresh : bool) (w : World)
    (evs : list Event) (u : string) (response : Response) :
  trace (fst (fetch env url force_refresh w)) = trace w ++ evs ->
  In (Connect u) evs ->
  stream env u = Some response -> is_redirect response = false ->
  status_ok response = true ->
  (forall h n,
     headers response !! "content-length" = Some h -> h <> "" ->
     int env h = Some n -> MAX_DOWNLOAD_SIZE < n ->
     snd (fetch env url force_refresh w) = Raise (ValueError (FileTooLarge n))
     /\ forall v size, ~ In (ReadChunk v size) evs)
  /\ (declares_within_budget env response ->
      MAX_DOWNLOAD_SIZE < len (concat (body response)) ->
      snd (fetch env url force_refresh w) = Raise (ValueError DownloadExceeded)
      /\ exists pre k,
           evs = pre ++ Connect u :: read_events u (firstn (S k) (body response))
           /\ (forall v size, ~ In (ReadChunk v size) pre)
           /\ len (concat (firstn k (body response))) <= MAX_DOWNLOAD_SIZE
           /\ MAX_DOWNLOAD_SIZE < len (concat (firstn (S k) (body response)))).
Proof.
  intros Htrace Hin Hs Hr Hok.
  destruct (fetch_reaches env url force_refresh w evs u response Htrace Hin Hs Hr)
    as [[pre [Hevs Hpre]] Hend].
  split.
  - intros h n Hh Hne Hn Hgt.
    destruct (receive_declared_too_large env url u response h n Hok Hh Hne Hn Hgt)
      as [Hev Hout].
    rewrite Hout in Hend. split; [exact Hend |].
    intros v size Hbad. rewrite Hevs, Hev in Hbad.
    apply in_app_or in Hbad as [Hbad | [Hbad | []]]; [| discriminate].
    exact (Hpre v size Hbad).
  - intros Hd Hover.
    destruct (receive_overflow env url u response Hok Hd Hover)
      as [Hout [k [Hev [Hk1 Hk2]]]].
    rewrite Hout in Hend. split; [exact Hend |].
    exists pre, k. rewrite Hevs, Hev. auto.
Qed.

(** Both halves of C3 on concrete servers. The too-large header of
    [tests/test_url_fetcher.py]: 200000000 bytes announced, nothing read.
    And a server that announces no length and keeps sending: 12810 chunks of
    8192 bytes are on offer, ten more than the budget holds, and the call is
    given up. *)
Lemma fetch_enforces_budget_on_servers :
  (snd (fetch Scenario.env "https://example.com/huge.pdf" false fresh)
   = Raise (ValueError (FileTooLarge 200000000))
   /\ forall v size,
        ~ In (ReadChunk v size)
             (trace (fst (fetch Scenario.env "https://example.com/huge.pdf" false fresh))))
  /\ snd (fetch Scenario.streaming "https://example.com/huge.pdf" true fresh)
     = Raise (ValueError DownloadExceeded).
Proof.
  split.
  - pose proof (fetch_enforces_budget Scenario.env "https://example.com/huge.pdf" false
                  fresh
                  [Validate "https://example.com/huge.pdf"; Resolve "example.com";
                   Connect "https://example.com/huge.pdf"]
                  "https://example.com/huge.pdf"
                  (mkResponse false None true
                     {["content-type" := "application/pdf";
                       "content-length" := "200000000"]} [] false)) as Hbudget.
    destruct Hbudget as [Hannounced _].
    + vm_compute. reflexivity.
    + right. right. now left.
    + reflexivity.
    + reflexivity.
    + reflexivity.
    + destruct (Hannounced "200000000" 200000000) as [Hfail Hnone].
      * vm_compute. reflexivity.
      * discriminate.
      * reflexivity.
      * reflexivity.
      * split; [exact Hfail |]. intros v size.
        replace (trace (fst (fetch Scenario.env "https://example.com/huge.pdf" false fresh)))
          with [Validate "https://example.com/huge.pdf"; Resolve "example.com";
                Connect "https://example.com/huge.pdf"]
          by (vm_compute; reflexivity).
        apply Hnone.
  - destruct (fetch_goes_out Scenario.streaming "https://example.com/huge.pdf" fresh)
      as [evs [Htrace Hin]].
    { apply passes_guard_outcome. vm_compute. reflexivity. }
    destruct (fetch_enforces_budget Scenario.streaming "https://example.com/huge.pdf" true
                fresh evs "https://example.com/huge.pdf"
                (mkResponse false None true {["content-type" := "application/pdf"]}
                   Scenario.endless_body false) Htrace Hin)
      as [_ Hstreamed]; [reflexivity | reflexivity | reflexivity |].
    destruct Hstreamed as [Hfail _]; [| | exact Hfail].
    + unfold declares_within_budget. cbn [headers].
      replace ({["content-type" := "application/pdf"]} !! "content-length")
        with (@None string) by (vm_compute; reflexivity).
      exact I.
    + cbn [body]. unfold Scenario.endless_body, Scenario.chunk_8k.
      rewrite len_concat_repeat. unfold len. rewrite repeat_length, !Z2Nat.id by lia.
      reflexivity.
Defined.

(** ** The string functions of the content check *)

Module ContentFacts.
Import Py PyFacts.

#[local] Arguments String.append !s1 s2 : simpl nomatch.

Lemma startswith_iff (s pre : string) :
  startswith s pre = true <-> exists rest, s = pre +:+ rest.
Proof.
  revert s; induction pre as [|p pre IH]; intros s.
  - split; [intros _; now exists s | intros _; now destruct s].
  - destruct s as [|c s]; cbn [startswith].
    + split; [discriminate | intros [rest H]; simpl in H; discriminate].
    + rewrite andb_true_iff, Ascii.eqb_eq, IH. split.
      * intros [-> [rest ->]]. now exists rest.
      * intros [rest H]. simpl in H. injection H as -> ->. eauto.
Qed.

(** [sub in s] holds exactly when [s] is something, [sub], and something. *)
Lemma contains_iff (sub s : string) :
  contains sub s = true <-> exists pre post, s = pre +:+ sub +:+ post.
Proof.
  split.
  - induction s as [|c s IH]; cbn [contains].
    + rewrite orb_false_r. intros [post ->]%startswith_iff. now exists "", post.
    + intros [[post ->]%startswith_iff | H]%orb_true_iff; [now exists "", post |].
      destruct (IH H) as [pre [post ->]]. now exists (String c pre), post.
  - intros [pre [post ->]]. induction pre as [|c pre IH].
    + cbn [String.append].
      assert (H : startswith (sub +:+ post) sub = true)
        by (apply startswith_iff; now exists post).
      destruct (sub +:+ post); cbn [contains]; now rewrite H.
    + cbn [String.append contains]. rewrite IH. apply orb_true_r.
Qed.

(** [bytes.startswith] holds exactly when the content is the magic and
    something. *)
Lemma bytes_startswith_iff (content magic : list byte) :
  bytes_startswith content magic = true <-> exists rest, content = magic ++ rest.
Proof.
  revert content; induction magic as [|m magic IH]; intros content.
  - split; [intros _; now exists content | intros _; now destruct content].
  - destruct content as [|b content]; cbn [bytes_startswith].
    + split; [discriminate | intros [rest H]; discriminate].
    + rewrite andb_true_iff, IH. split.
      * intros [->%Byte.byte_dec_bl [rest ->]]. now exists rest.
      * intros [rest H]. injection H as -> ->.
        split; [now apply Byte.byte_dec_lb | eauto].
Qed.

Lemma lower_append (a b : string) : lower (a +:+ b) = lower a +:+ lower b.
Proof. induction a as [|c a IH]; simpl; [reflexivity | now rewrite IH]. Qed.

Lemma lower_append_inv (s a b : string) :
  lower s = a +:+ b -> exists a' b', s = a' +:+ b' /\ lower a' = a /\ lower b' = b.
Proof.
  revert s; induction a as [|x a IH]; intros s H.
  - now exists "", s.
  - destruct s as [|c s]; simpl in H; [discriminate |].
    injection H as Hx H. destruct (IH s H) as (a' & b' & -> & Ha & Hb).
    exists (String c a'), b'. simpl. now rewrite Hx, Ha.
Qed.

(** [str.lower] sends exactly the small and the capital letter to p, to d
    and to f. *)
Lemma lower_char_p (c : ascii) : lower_char c = "p"%char <-> (c = "p" \/ c = "P")%char.
Proof.
  destruct c as [[] [] [] [] [] [] [] []]; vm_compute;
    (split; [intros H; first [discriminate H | now left | now right]
            | intros [H | H]; first [discriminate H | reflexivity]]).
Qed.

Lemma lower_char_d (c : ascii) : lower_char c = "d"%char <-> (c = "d" \/ c = "D")%char.
Proof.
  destruct c as [[] [] [] [] [] [] [] []]; vm_compute;
    (split; [intros H; first [discriminate H | now left | now right]
            | intros [H | H]; first [discriminate H | reflexivity]]).
Qed.

Lemma lower_char_f (c : ascii) : lower_char c = "f"%char <-> (c = "f" \/ c = "F")%char.
Proof.
  destruct c as [[] [] [] [] [] [] [] []]; vm_compute;
    (split; [intros H; first [discriminate H | now left | now right]
            | intros [H | H]; first [discriminate H | reflexivity]]).
Qed.

(** ["pdf" in content_type.lower()] is the test for the three letters in
    either case. *)
Lemma contains_pdf_lower (content_type : string) :
  contains "pdf" (lower content_type) = true <-> names_pdf content_type.
Proof.
  rewrite contains_iff. unfold names_pdf. split.
  - intros (pre & post & H).
    apply lower_append_inv in H as (pre' & rest & -> & _ & H).
    destruct rest as [|p [|d [|f post']]]; simpl in H; try discriminate.
    injection H as Hp Hd Hf _.
    exists pre', p, d, f, post'. split; [reflexivity |].
    now rewrite <- lower_char_p, <- lower_char_d, <- lower_char_f.
  - intros (pre & p & d & f & post & -> & Hp & Hd & Hf).
    apply lower_char_p in Hp. apply lower_char_d in Hd. apply lower_char_f in Hf.
    exists (lower pre), (lower post). rewrite lower_append. simpl.
    now rewrite Hp, Hd, Hf.
Qed.

Lemma starts_with_magic (content : list byte) :
  bytes_startswith content pdf_magic = true <-> has_pdf_magic content.
Proof. apply bytes_startswith_iff. Qed.

End ContentFacts.

(** The content check of [fetch] accepts exactly the responses whose
    Content-Type names pdf in either case or whose body begins with "%PDF". *)
Lemma pdf_accepted_iff (response : Response) :
  pdf_accepted response = true
  <-> names_pdf (default "" (headers response !! "content-type"))
      \/ has_pdf_magic (concat (body response)).
Proof.
  unfold pdf_accepted.
  now rewrite orb_true_iff, ContentFacts.contains_pdf_lower, ContentFacts.starts_with_magic.
Qed.

(** C5. When [fetch] reaches a response that is not a redirect, whose status
    is a success and whose body arrives whole within the budget, the call
    returns a path exactly when the Content-Type header has the letters
    p, d, f in a row, each in either case, or the body begins with the four
    bytes of "%PDF"; when neither holds it fails with the not-a-PDF error
    for the URL that was asked. A response without a Content-Type header
    counts as one with an empty header. *)
Theorem fetch_checks_pdf
    (env : Env) (url : string) (force_refresh : bool) (w : World)
    (evs : list Event) (u : string) (response : Response) :
  trace (fst (fetch env url force_refresh w)) = trace w ++ evs ->
  In (Connect u) evs ->
  stream env u = Some response -> is_redirect response = false ->
  status_ok response = true -> declares_within_budget env response ->
  len (concat (body response)) <= MAX_DOWNLOAD_SIZE ->
  body_breaks response = false ->
  ((exists p, snd (fetch env url force_refresh w) = Return p)
   <-> names_pdf (default "" (headers response !! "content-type"))
       \/ has_pdf_magic (concat (body response)))
  /\ (~ names_pdf (default "" (headers response !! "content-type")) ->
      ~ has_pdf_magic (concat (body response)) ->
      snd (fetch env url force_refresh w) = Raise (ValueError (NotAPdf url))).
Proof.
  intros Htrace Hin Hs Hr Hok Hd Hfit Hb.
  destruct (fetch_reaches env url force_refresh w evs u response Htrace Hin Hs Hr)
    as [_ Hend].
  destruct (receive_checks_pdf env url u response Hok Hd Hfit Hb) as [_ Hout].
  rewrite Hout in Hend.
  pose proof (pdf_accepted_iff response) as Hcheck.
  destruct (pdf_accepted response).
  - destruct Hend as [filename [Hret _]].
    assert (Hyes : names_pdf (default "" (headers response !! "content-type"))
                   \/ has_pdf_magic (concat (body response)))
      by now apply Hcheck.
    split; [split; [intros _; exact Hyes | eauto] |].
    intros Hno1 Hno2. destruct Hyes; contradiction.
  - split; [| intros _ _; exact Hend].
    split; [intros [p Hp]; congruence |].
    intros Hyes. apply Hcheck in Hyes. discriminate.
Qed.

(** C5 on the servers of [Contents]: a page sent as "Application/PDF" is
    stored, a PDF sent as "application/octet-stream" in two chunks is
    stored, and a page sent as "text/html" is refused. *)
Lemma fetch_checks_pdf_on_servers :
  (exists p, snd (fetch Contents.env "https://example.com/scan" false fresh) = Return p)
  /\ (exists p, snd (fetch Contents.env "https://example.com/blob" false fresh) = Return p)
  /\ snd (fetch Contents.env "https://example.com/page" false fresh)
     = Raise (ValueError (NotAPdf "https://example.com/page")).
Proof.
  split; [| split].
  - refine (proj2 (proj1
      (fetch_checks_pdf Contents.env "https://example.com/scan" false fresh
         [Validate "https://example.com/scan"; Resolve "example.com";
          Connect "https://example.com/scan"; ReadChunk "https://example.com/scan" 6]
         "https://example.com/scan" _ _ _ eq_refl eq_refl eq_refl _ _ eq_refl)) _).
    + vm_compute. reflexivity.
    + simpl. tauto.
    + vm_compute. exact I.
    + vm_compute. discriminate.
    + left. exists "Application/", "P"%char, "D"%char, "F"%char, "".
      split; [vm_compute; reflexivity | tauto].
  - refine (proj2 (proj1
      (fetch_checks_pdf Contents.env "https://example.com/blob" false fresh
         [Validate "https://example.com/blob"; Resolve "example.com";
          Connect "https://example.com/blob"; ReadChunk "https://example.com/blob" 2;
          ReadChunk "https://example.com/blob" 6]
         "https://example.com/blob" _ _ _ eq_refl eq_refl eq_refl _ _ eq_refl)) _).
    + vm_compute. reflexivity.
    + simpl. tauto.
    + vm_compute. exact I.
    + vm_compute. discriminate.
    + right. now exists [x2d; x31; x2e; x34].
  - refine (proj2
      (fetch_checks_pdf Contents.env "https://example.com/page" false fresh
         [Validate "https://example.com/page"; Resolve "example.com";
          Connect "https://example.com/page"; ReadChunk "https://example.com/page" 6]
         "https://example.com/page" _ _ _ eq_refl eq_refl eq_refl _ _ eq_refl) _ _).
    + vm_compute. reflexivity.
    + simpl. tauto.
    + vm_compute. exact I.
    + vm_compute. discriminate.
    + intros Hyes. apply (proj2 (ContentFacts.contains_pdf_lower _)) in Hyes.
      vm_compute in Hyes. discriminate.
    + intros [rest Hrest]. discriminate.
Defined.

(** C8. [fetch] is atomic with respect to the download cache. A call that
    fails, at the guard, on the transport, on the size limit, on the content
    check or on the redirect cap, leaves the directory and the index exactly
    as they were. A call that returns either found the path in the cache and
    wrote nothing, or stored, under the name it returns, the whole body of a
    response that is not a redirect, has a success status, arrived unbroken
    within the budget and passed the content check, touching no other entry
    of the directory and no other key of the index. *)
Theorem fetch_is_atomic (env : Env) (url : string) (force_refresh : bool) (w : World) :
  (forall e, snd (fetch env url force_refresh w) = Raise e ->
     files (fst (fetch env url force_refresh w)) = files w
     /\ _url_to_path (fst (fetch env url force_refresh w)) = _url_to_path w)
  /\ (forall p, snd (fetch env url force_refresh w) = Return p ->
        (files (fst (fetch env url force_refresh w)) = files w
         /\ is_Some (files w !! p)
         /\ _url_to_path (fst (fetch env url force_refresh w)) !! url = Some p)
        \/ (exists final response f,
              stream env final = Some response
              /\ is_redirect response = false /\ status_ok response = true
              /\ body_breaks response = false
              /\ declares_within_budget env response
              /\ len (concat (body response)) <= MAX_DOWNLOAD_SIZE
              /\ pdf_accepted response = true
              /\ files (fst (fetch env url force_refresh w)) !! p = Some f
              /\ data f = concat (body response)
              /\ (forall q, q <> p ->
                    files (fst (fetch env url force_refresh w)) !! q = files w !! q)
              /\ _url_to_path (fst (fetch env url force_refresh w))
                 = <[url := p]> (_url_to_path w))).
Proof.
  destruct (fetch_cases env url force_refresh w)
    as [e Hguard | w2 p Hguard Hfr Hlookup | e Hguard Hmiss Hloop
        | content filename Hguard Hmiss Hloop Hname].
  - split; [now intros _ _ | discriminate].
  - split; [discriminate |]. intros q [= <-]. left.
    destruct (get_local_path_hit env url _ _ _ Hlookup) as (Hfiles & _ & Hindex & Hthere).
    auto.
  - split; [now intros _ _ | discriminate].
  - split; [discriminate |]. intros q [= <-]. right.
    destruct (follow_returns env _ url url content Hloop)
      as (final & response & _ & Hs & Hr & Hrecv).
    destruct (receive_returns env url final response content Hrecv)
      as (Hok & Hd & Hb & Hfit & -> & Hpdf & _).
    exists final, response.
    exists (match files w !! filename with
            | Some old => mkFile (concat (body response)) (pinned old)
            | None => mkFile (concat (body response)) false
            end).
    repeat split; try assumption.
    + cbn. apply lookup_insert_eq.
    + now destruct (files w !! filename).
    + intros q Hq. cbn. now apply lookup_insert_ne.
Qed.

(** C8 on the directory of [Scenario.four_files]: the refused HTML page
    leaves the four files and the two index entries as they were. *)
Lemma fetch_is_atomic_html :
  files (fst (fetch Scenario.env "https://example.com/notapdf.html" false
                Scenario.four_files))
  = files Scenario.four_files
  /\ _url_to_path (fst (fetch Scenario.env "https://example.com/notapdf.html" false
                          Scenario.four_files))
     = _url_to_path Scenario.four_files.
Proof.
  destruct (fetch_is_atomic Scenario.env "https://example.com/notapdf.html" false
              Scenario.four_files) as [Hfails _].
  apply (Hfails (ValueError (NotAPdf "https://example.com/notapdf.html"))).
  vm_compute. reflexivity.
Defined.

(** C4. [fetch] is idempotent with respect to the network. After a call for
    a URL has returned a path, a second call without [force_refresh] returns
    the same path, asks the guard again and does nothing else: no request,
    no chunk, the directory and the index unchanged; a second call with
    [force_refresh] does send a request to the URL. The lookup behind this
    reads the index first and believes it only if the file is still there;
    otherwise it probes the directory for the file name of the URL, records
    a hit in the index, and answers "absent", not an error, when there is
    none, also for a stale entry whose file is gone. *)
Theorem fetch_twice
    (env : Env) (url : string) (first_refresh : bool) (w : World) (p : string) :
  snd (fetch env url first_refresh w) = Return p ->
  let w1 := fst (fetch env url first_refresh w) in
  (snd (fetch env url false w1) = Return p
   /\ files (fst (fetch env url false w1)) = files w1
   /\ _url_to_path (fst (fetch env url false w1)) = _url_to_path w1
   /\ exists evs, trace (fst (fetch env url false w1)) = trace w1 ++ evs
                  /\ Forall (fun ev => ~ is_transfer ev) evs)
  /\ (exists evs, trace (fst (fetch env url true w1)) = trace w1 ++ evs
                  /\ In (Connect url) evs)
  /\ (exists filename,
        outcome (_get_cache_filename env url) = Return filename
        /\ forall w0,
             (forall q, _url_to_path w0 !! url = Some q -> is_Some (files w0 !! q) ->
                get_local_path env url w0 = (w0, Return (Some q)))
             /\ ((forall q, _url_to_path w0 !! url = Some q -> files w0 !! q = None) ->
                 (is_Some (files w0 !! filename) ->
                    get_local_path env url w0
                    = (mkWorld (<[url := filename]> (_url_to_path w0)) (files w0) (trace w0),
                       Return (Some filename)))
                 /\ (files w0 !! filename = None ->
                       get_local_path env url w0 = (w0, Return None)))).
Proof.
  intros Hfirst w1.
  assert (Hstate : outcome (_validate_url env url) = Return tt
                   /\ _url_to_path w1 !! url = Some p /\ is_Some (files w1 !! p)).
  { subst w1. revert Hfirst.
    destruct (fetch_cases env url first_refresh w)
      as [e Hguard | w2 q Hguard Hfr Hlookup | e Hguard Hmiss Hloop
          | content filename Hguard Hmiss Hloop Hname]; try discriminate.
    - intros [= ->]. cbn [fst].
      destruct (get_local_path_hit env url _ _ _ Hlookup) as (Hfiles & _ & Hindex & Hthere).
      rewrite Hfiles. auto.
    - intros [= ->]. cbn. rewrite !lookup_insert_eq. eauto. }
  destruct Hstate as (Hguard & Hindex & Hthere).
  destruct (get_cache_filename_after_guard env url Hguard) as [filename Hname].
  split; [| split].
  - rewrite fetch_run. cbv zeta. rewrite Hguard, get_local_path_run. cbv zeta.
    cbn [log _url_to_path files]. rewrite Hindex.
    rewrite bool_decide_eq_true_2 by exact Hthere.
    cbn [fst snd log files _url_to_path trace].
    repeat split. exists (events (_validate_url env url)). split; [reflexivity |].
    destruct (validate_url_events env url) as [rs [-> Hrs]].
    constructor.
    + intros [[v Hv] | [v [k Hv]]]; discriminate.
    + rewrite List.Forall_forall in Hrs. apply List.Forall_forall.
      intros ev Hev [[v Hv] | [v [k Hv]]]; destruct (Hrs ev Hev) as [h Hh]; congruence.
  - destruct (fetch_cases env url true w1)
      as [e Hguard' | w2 q Hguard' Hfr Hlookup | e Hguard' Hmiss Hloop
          | content fn Hguard' Hmiss Hloop Hname']; try congruence.
    + exists (events (_validate_url env url) ++ events (follow env MAX_REDIRECTS url url)).
      split; [reflexivity |]. apply in_or_app. right.
      unfold MAX_REDIRECTS. rewrite follow_events_S. now left.
    + exists (events (_validate_url env url) ++ events (follow env MAX_REDIRECTS url url)).
      split; [reflexivity |]. apply in_or_app. right.
      unfold MAX_REDIRECTS. rewrite follow_events_S. now left.
  - exists filename. split; [exact Hname |]. intros w0.
    rewrite get_local_path_run. cbv zeta. rewrite Hname. split.
    + intros q -> Hq. now rewrite bool_decide_eq_true_2.
    + intros Hstale.
      assert (Hprobe :
        match _url_to_path w0 !! url with
        | Some q =>
            if bool_decide (is_Some (files w0 !! q)) then (w0, Return (Some q))
            else if bool_decide (is_Some (files w0 !! filename))
                 then (mkWorld (<[url := filename]> (_url_to_path w0)) (files w0) (trace w0),
                       Return (Some filename))
                 else (w0, Return None)
        | None =>
            if bool_decide (is_Some (files w0 !! filename))
            then (mkWorld (<[url := filename]> (_url_to_path w0)) (files w0) (trace w0),
                  Return (Some filename))
            else (w0, Return None)
        end
        = if bool_decide (is_Some (files w0 !! filename))
          then (mkWorld (<[url := filename]> (_url_to_path w0)) (files w0) (trace w0),
                Return (Some filename))
          else (w0, Return None)).
      { destruct (_url_to_path w0 !! url) as [q|]; [| reflexivity].
        rewrite bool_decide_eq_false_2; [reflexivity |].
        rewrite (Hstale q eq_refl). now intros [? ?]. }
      rewrite Hprobe. split.
      * intros Hq. now rewrite bool_decide_eq_true_2.
      * intros Hq. rewrite bool_decide_eq_false_2; [reflexivity |].
        rewrite Hq. now intros [? ?].
Qed.

(** A second call on the tables of [Scenario], after the redirect of
    [test_redirect_to_public_url_allowed]. *)
Lemma fetch_twice_old_pdf :
  snd (fetch Scenario.env "https://example.com/old.pdf" false
         (fst (fetch Scenario.env "https://example.com/old.pdf" false fresh)))
  = Return "73f6027ddc92e918_old.pdf"
  /\ exists evs,
       trace (fst (fetch Scenario.env "https://example.com/old.pdf" true
                     (fst (fetch Scenario.env "https://example.com/old.pdf" false
                             fresh))))
       = trace (fst (fetch Scenario.env "https://example.com/old.pdf" false fresh))
         ++ evs
       /\ In (Connect "https://example.com/old.pdf") evs.
Proof.
  destruct (fetch_twice Scenario.env "https://example.com/old.pdf" false fresh
              "73f6027ddc92e918_old.pdf") as [[Hsame _] [Hagain _]].
  - vm_compute. reflexivity.
  - split; [exact Hsame | exact Hagain].
Defined.

(** ** Clearing the cache *)

Lemma world_eta (w : World) : mkWorld (_url_to_path w) (files w) (trace w) = w.
Proof. now destruct w. Qed.

Lemma deletable_delete_ne (m : gmap string File) (p name : string) :
  p <> name -> deletable (delete p m) name = deletable m name.
Proof. intros Hne. unfold deletable. now rewrite lookup_delete_ne. Qed.

Lemma filter_deletable_delete (m : gmap string File) (p : string) (l : list string) :
  p ∉ l ->
  List.filter (deletable (delete p m)) l = List.filter (deletable m) l.
Proof.
  intros Hnot. apply filter_ext_in. intros name Hin%list_elem_of_In.
  apply deletable_delete_ne. intros ->. contradiction.
Qed.

Lemma bool_decide_elem_cons_ne (name p : string) (rest : list string) :
  name <> p -> bool_decide (name ∈ p :: rest) = bool_decide (name ∈ rest).
Proof.
  intros Hne. apply bool_decide_ext. rewrite elem_of_cons. intuition congruence.
Qed.

(** The loop of [clear_cache] over distinct names: it never raises, counts
    the names it could unlink, and removes exactly those. *)
Lemma unlink_all_run (paths : list string) : forall (w : World) (count : Z),
  NoDup paths ->
  exists m',
    unlink_all paths count w
    = (mkWorld (_url_to_path w) m' (trace w),
       Return (count + len (List.filter (deletable (files w)) paths)))
    /\ forall name,
         m' !! name = if bool_decide (name ∈ paths) && deletable (files w) name
                      then None else files w !! name.
Proof.
  induction paths as [|p rest IH]; intros w count Hnodup.
  - exists (files w). cbn [unlink_all List.filter]. unfold ret, len; cbn [length].
    rewrite world_eta, Z.add_0_r. split; [reflexivity |].
    intros name. rewrite bool_decide_eq_false_2; [reflexivity | apply not_elem_of_nil].
  - apply NoDup_cons in Hnodup as [Hnot Hrest].
    cbn [unlink_all List.filter]. unfold bind at 1. unfold try_os, unlink.
    unfold deletable at 1 3.
    destruct (files w !! p) as [f|] eqn:Hp; [destruct (pinned f) eqn:Hpin |]; cbn [negb].
    + (* it cannot be unlinked *)
      destruct (IH w count Hrest) as [m' [Hrun Hm']].
      exists m'. split; [exact Hrun |].
      intros name. rewrite Hm'.
      destruct (decide (name = p)) as [-> | Hne].
      * unfold deletable. rewrite Hp, Hpin. cbn [negb]. now rewrite !andb_false_r.
      * now rewrite bool_decide_elem_cons_ne.
    + (* it is unlinked *)
      destruct (IH (mkWorld (_url_to_path w) (delete p (files w)) (trace w)) (count + 1) Hrest)
        as [m' [Hrun Hm']].
      cbn [_url_to_path files trace] in Hrun, Hm'.
      exists m'. split.
      * rewrite Hrun, filter_deletable_delete by exact Hnot.
        unfold len; cbn [length]. do 2 f_equal. lia.
      * intros name. rewrite Hm'.
        destruct (decide (name = p)) as [-> | Hne].
        -- rewrite lookup_delete_eq.
           rewrite (bool_decide_eq_true_2 (p ∈ p :: rest)) by apply list_elem_of_here.
           unfold deletable at 2. rewrite Hp, Hpin. cbn [negb andb].
           now destruct (_ && _).
        -- rewrite deletable_delete_ne, lookup_delete_ne by congruence.
           now rewrite bool_decide_elem_cons_ne.
    + (* there is no such entry *)
      destruct (IH w count Hrest) as [m' [Hrun Hm']].
      exists m'. split; [exact Hrun |].
      intros name. rewrite Hm'.
      destruct (decide (name = p)) as [-> | Hne].
      * unfold deletable. rewrite Hp. now rewrite !andb_false_r.
      * now rewrite bool_decide_elem_cons_ne.
Qed.

Lemma glob_pdf_run (w : World) :
  glob_pdf w
  = (w, Return (filter (fun name => Is_true (Py.endswith name ".pdf"))
                  (elements (dom (files w))))).
Proof. reflexivity. Qed.

Lemma glob_pdf_lists (w : World) (name : string) :
  name ∈ filter (fun name => Is_true (Py.endswith name ".pdf")) (elements (dom (files w)))
  <-> Py.endswith name ".pdf" = true /\ is_Some (files w !! name).
Proof.
  rewrite list_elem_of_filter, elem_of_elements, elem_of_dom, Is_true_true. reflexivity.
Qed.

(** C9. [clear_cache] never fails as a whole. From every state of the
    directory and of the index it returns a count and raises nothing; the
    index is empty afterwards; a file is gone exactly when its name matches
    "*.pdf" and unlinking it went through, every other entry is as it was,
    so that a "*.pdf" file that is still there is one that could not be
    unlinked; the count is the number of files that were unlinked, which is
    at most the number of files that the glob listed. *)
Theorem clear_cache_never_fails (w : World) :
  exists (count : Z) (deleted : list string),
    snd (clear_cache w) = Return count
    /\ _url_to_path (fst (clear_cache w)) = ∅
    /\ NoDup deleted /\ count = len deleted
    /\ (forall name,
          name ∈ deleted <->
          Py.endswith name ".pdf" = true
          /\ exists f, files w !! name = Some f /\ pinned f = false)
    /\ (forall name,
          files (fst (clear_cache w)) !! name
          = if bool_decide (name ∈ deleted) then None else files w !! name)
    /\ (forall name f,
          Py.endswith name ".pdf" = true ->
          files (fst (clear_cache w)) !! name = Some f -> pinned f = true)
    /\ (forall paths, snd (glob_pdf w) = Return paths -> count <= len paths).
Proof.
  set (paths := filter (fun name => Is_true (Py.endswith name ".pdf"))
                  (elements (dom (files w)))).
  assert (Hnodup : NoDup paths) by (apply NoDup_filter, NoDup_elements).
  destruct (unlink_all_run paths w 0 Hnodup) as [m' [Hrun Hm']].
  assert (Hdeleted : forall name,
    name ∈ List.filter (deletable (files w)) paths <->
    Py.endswith name ".pdf" = true
    /\ exists f, files w !! name = Some f /\ pinned f = false).
  { intros name. rewrite list_elem_of_In, filter_In, <- list_elem_of_In.
    unfold paths. rewrite glob_pdf_lists. unfold deletable. split.
    - intros [[Hpdf _] Hdel]. split; [exact Hpdf |].
      destruct (files w !! name) as [f|]; [| discriminate].
      exists f. split; [reflexivity |]. now destruct (pinned f).
    - intros [Hpdf [f [Hf Hpin]]]. rewrite Hf, Hpin. eauto. }
  assert (Hfiles : forall name,
    m' !! name = if bool_decide (name ∈ List.filter (deletable (files w)) paths)
                 then None else files w !! name).
  { intros name. rewrite Hm'.
    destruct (deletable (files w) name) eqn:Hdel.
    - rewrite andb_true_r.
      destruct (decide (name ∈ paths)) as [Hin | Hout].
      + rewrite !bool_decide_eq_true_2; [reflexivity | | exact Hin].
        apply list_elem_of_In, filter_In. split; [now apply list_elem_of_In | exact Hdel].
      + rewrite !bool_decide_eq_false_2; [reflexivity | | exact Hout].
        intros [Hin _]%list_elem_of_In%filter_In. apply Hout. now apply list_elem_of_In.
    - rewrite andb_false_r. rewrite bool_decide_eq_false_2; [reflexivity |].
      intros [_ Hbad]%list_elem_of_In%filter_In. congruence. }
  assert (Hclear : clear_cache w
                   = (mkWorld ∅ m' (trace w),
                      Return (0 + len (List.filter (deletable (files w)) paths)))).
  { unfold clear_cache. unfold bind at 1. rewrite glob_pdf_run. fold paths.
    unfold bind at 1. rewrite Hrun. reflexivity. }
  exists (len (List.filter (deletable (files w)) paths)),
    (List.filter (deletable (files w)) paths).
  rewrite Hclear. cbn [fst snd _url_to_path files].
  split; [now rewrite Z.add_0_l |].
  split; [reflexivity |].
  split; [now apply NoDup_ListNoDup, List.NoDup_filter, NoDup_ListNoDup |].
  split; [reflexivity |].
  split; [exact Hdeleted |].
  split; [exact Hfiles |].
  split.
  - intros name f Hpdf Hstill. rewrite Hfiles in Hstill.
    case_bool_decide as Hgone; [discriminate |].
    destruct (pinned f) eqn:Hpin; [reflexivity |].
    exfalso. apply Hgone, Hdeleted. eauto.
  - intros paths' Hglob. rewrite glob_pdf_run in Hglob. injection Hglob as <-.
    fold paths. unfold len. apply inj_le. apply filter_length_le.
Qed.

(** C9 on the directory of [Scenario.four_files]: the count is three, and
    what is left of the "*.pdf" files could not be unlinked. *)
Lemma clear_cache_never_fails_four_files :
  snd (clear_cache Scenario.four_files) = Return 3
  /\ forall name f,
       Py.endswith name ".pdf" = true ->
       files (fst (clear_cache Scenario.four_files)) !! name = Some f ->
       pinned f = true.
Proof.
  destruct (clear_cache_never_fails Scenario.four_files)
    as (count & deleted & Hcount & _ & _ & _ & _ & _ & Hleft & _).
  split; [| exact Hleft].
  rewrite Hcount. f_equal.
  assert (Hrun : snd (clear_cache Scenario.four_files) = Return 3)
    by (vm_compute; reflexivity).
  rewrite Hcount in Hrun. now apply Return_inj in Hrun.
Defined.

(** The directory of the scenario: three files go, the fourth stays, the
    index is emptied, and nothing is raised. *)
Example clear_cache_three_of_four :
  snd (clear_cache Scenario.four_files) = Return 3
  /\ map_to_list (_url_to_path (fst (clear_cache Scenario.four_files))) = []
  /\ map_to_list (files (fst (clear_cache Scenario.four_files)))
     = [("0123456789abcdef_locked.pdf", mkFile Scenario.valid_pdf_bytes true)].
Proof. repeat split; vm_compute; reflexivity. Qed.

(** ** The cache file name *)

Section Filename.

Variable env : Env.

Lemma url_hash_length (url : string) :
  String.length (Py.take 16 (Sha256.hexdigest (Py.encode url))) = 16%nat.
Proof. apply PyFacts.length_take. rewrite Sha256Facts.hexdigest_length. lia. Qed.

Lemma url_hash_hex (url : string) :
  Py.all_chars Sha256.is_hex (Py.take 16 (Sha256.hexdigest (Py.encode url))) = true.
Proof. apply PyFacts.all_chars_take, Sha256Facts.hexdigest_all_hex. Qed.

Lemma url_hash_safe (url : string) :
  Py.all_chars safe_char (Py.take 16 (Sha256.hexdigest (Py.encode url))) = true.
Proof.
  apply (PyFacts.all_chars_weaken Sha256.is_hex); [| apply url_hash_hex].
  intros c Hc. unfold safe_char. now rewrite (Sha256Facts.is_hex_isalnum c Hc).
Qed.

Lemma get_cache_filename_outcome (url : string) :
  outcome (_get_cache_filename env url)
  = match urlparse env url with
    | None => Raise LibraryValueError
    | Some parsed =>
        if Py.endswith (path parsed) ".pdf"
        then Return (Py.take 16 (Sha256.hexdigest (Py.encode url)) +:+ "_"
                     +:+ Py.join_if safe_char (Py.basename (path parsed)))
        else Return (Py.take 16 (Sha256.hexdigest (Py.encode url)) +:+ ".pdf")
    end.
Proof.
  unfold outcome, _get_cache_filename, ret, raise.
  destruct (urlparse env url) as [parsed|]; [| reflexivity].
  now destruct (Py.endswith (path parsed) ".pdf").
Qed.

(** A file name that comes out is made of the hash and of safe characters,
    and ends in ".pdf". *)
Lemma get_cache_filename_shape (url filename : string) :
  outcome (_get_cache_filename env url) = Return filename ->
  Py.take 16 filename = Py.take 16 (Sha256.hexdigest (Py.encode url))
  /\ Py.all_chars safe_char filename = true
  /\ Py.endswith filename ".pdf" = true.
Proof.
  rewrite get_cache_filename_outcome.
  destruct (urlparse env url) as [parsed|]; [| discriminate].
  pose proof (url_hash_length url) as Hlen.
  pose proof (url_hash_safe url) as Hsafe.
  destruct (Py.endswith (path parsed) ".pdf") eqn:Hpdf; intros <-%Return_inj.
  - split; [| split].
    + rewrite <- Hlen at 1. apply PyFacts.take_append.
    + rewrite !PyFacts.all_chars_append, Hsafe, PyFacts.join_if_all. reflexivity.
    + apply PyFacts.endswith_append, PyFacts.endswith_append.
      apply PyFacts.endswith_join_if; [reflexivity |].
      apply PyFacts.endswith_basename; [reflexivity | exact Hpdf].
  - split; [| split].
    + rewrite <- Hlen at 1. apply PyFacts.take_append.
    + rewrite PyFacts.all_chars_append, Hsafe. reflexivity.
    + apply PyFacts.endswith_append. reflexivity.
Qed.

End Filename.

(** C7. The cache file name is a pure, deterministic function of the URL
    string alone: computing it changes nothing and its result is the same
    from every state of the fetcher. The name starts with the first 16
    characters of the SHA-256 hex digest of the URL, which are 16 hexadecimal
    digits; when the path of the URL ends in ".pdf" it goes on with "_" and
    the base name of the path reduced to its alphanumeric characters and
    '.', '_', '-'; otherwise it goes on with ".pdf". Two URLs get the same
    name only if the first 16 digits of their digests coincide. *)
Theorem get_cache_filename_is_pure (env : Env) (url : string) :
  (forall w, fst (_get_cache_filename env url w) = w)
  /\ (forall w1 w2,
        snd (_get_cache_filename env url w1) = snd (_get_cache_filename env url w2))
  /\ String.length (Py.take 16 (Sha256.hexdigest (Py.encode url))) = 16%nat
  /\ Py.all_chars Sha256.is_hex (Py.take 16 (Sha256.hexdigest (Py.encode url))) = true
  /\ (forall parsed w, urlparse env url = Some parsed ->
        (Py.endswith (path parsed) ".pdf" = true ->
           snd (_get_cache_filename env url w)
           = Return (Py.take 16 (Sha256.hexdigest (Py.encode url)) +:+ "_"
                     +:+ Py.join_if safe_char (Py.basename (path parsed)))
           /\ Py.all_chars (fun c => Py.isalnum c || Py.char_in c "._-")
                (Py.join_if safe_char (Py.basename (path parsed))) = true)
        /\ (Py.endswith (path parsed) ".pdf" = false ->
              snd (_get_cache_filename env url w)
              = Return (Py.take 16 (Sha256.hexdigest (Py.encode url)) +:+ ".pdf")))
  /\ (forall url' w filename,
        snd (_get_cache_filename env url w) = Return filename ->
        snd (_get_cache_filename env url' w) = Return filename ->
        Py.take 16 (Sha256.hexdigest (Py.encode url))
        = Py.take 16 (Sha256.hexdigest (Py.encode url'))).
Proof.
  split; [intros w; now rewrite get_cache_filename_run |].
  split; [intros w1 w2; now rewrite !get_cache_filename_run |].
  split; [apply url_hash_length |].
  split; [apply url_hash_hex |].
  split.
  - intros parsed w Hparsed. rewrite get_cache_filename_run. cbn [snd].
    rewrite get_cache_filename_outcome, Hparsed. split.
    + intros ->. split; [reflexivity | apply PyFacts.join_if_all].
    + now intros ->.
  - intros url' w filename. rewrite !get_cache_filename_run. cbn [snd].
    intros [H1 _]%get_cache_filename_shape [H2 _]%get_cache_filename_shape.
    congruence.
Qed.

(** The names of [tests/test_url_fetcher.py], with the digests of
    [hashlib]. *)
Lemma get_cache_filename_document :
  snd (_get_cache_filename Scenario.env "https://example.com/path/document.pdf"
         fresh)
  = Return "9f6f73af04b5306d_document.pdf"
  /\ snd (_get_cache_filename Scenario.env "https://example.com/api/download?id=123"
            fresh)
     = Return "27282d117d4a84c0.pdf".
Proof.
  destruct (get_cache_filename_is_pure Scenario.env "https://example.com/path/document.pdf")
    as (_ & _ & _ & _ & Hshape & _).
  destruct (Hshape (mkParse "https" (Some "example.com") "/path/document.pdf")
              fresh eq_refl) as [Hpdf _].
  destruct (Hpdf eq_refl) as [-> _].
  destruct (get_cache_filename_is_pure Scenario.env "https://example.com/api/download?id=123")
    as (_ & _ & _ & _ & Hshape' & _).
  destruct (Hshape' (mkParse "https" (Some "example.com") "/api/download")
              fresh eq_refl) as [_ Hother].
  rewrite (Hother eq_refl).
  split; vm_compute; reflexivity.
Defined.

(** C10. Every file name that the cache-file-name function produces ends in
    ".pdf" and has no "/" in it, so the file it names lies directly in the
    cache directory; and every entry of the directory that a call of [fetch]
    creates or changes is listed by the "*.pdf" glob that [clear_cache] and
    [get_cache_stats] run, and counted by the latter. *)
Theorem cached_files_match_glob
    (env : Env) (url : string) (force_refresh : bool) (w : World) :
  (forall filename,
     snd (_get_cache_filename env url w) = Return filename ->
     Py.endswith filename ".pdf" = true /\ Py.char_in "/" filename = false)
  /\ (forall name,
        files (fst (fetch env url force_refresh w)) !! name <> files w !! name ->
        Py.endswith name ".pdf" = true
        /\ exists paths total,
             snd (glob_pdf (fst (fetch env url force_refresh w))) = Return paths
             /\ name ∈ paths
             /\ snd (get_cache_stats (fst (fetch env url force_refresh w)))
                = Return (len paths, total)).
Proof.
  split.
  - intros filename. rewrite get_cache_filename_run. cbn [snd].
    intros (_ & Hsafe & Hpdf)%get_cache_filename_shape.
    split; [exact Hpdf |].
    now apply (PyFacts.all_chars_not_in safe_char).
  - intros name.
    destruct (fetch_cases env url force_refresh w)
      as [e Hguard | w2 p Hguard Hfr Hlookup | e Hguard Hmiss Hloop
          | content filename Hguard Hmiss Hloop Hname]; cbn [log files].
    + intros []; reflexivity.
    + destruct (get_local_path_hit env url _ _ _ Hlookup) as (-> & _).
      intros []; reflexivity.
    + intros []; reflexivity.
    + intros Hchanged. cbn [persist files] in Hchanged.
      destruct (decide (filename = name)) as [<- | Hne];
        [| now rewrite lookup_insert_ne in Hchanged].
      destruct (get_cache_filename_shape env url filename Hname) as (_ & _ & Hpdf).
      split; [exact Hpdf |].
      eexists _, _. rewrite glob_pdf_run. cbn [snd].
      split; [reflexivity |]. split; [| reflexivity].
      apply glob_pdf_lists. split; [exact Hpdf |].
      cbn [persist files]. rewrite lookup_insert_eq. eauto.
Qed.

(** C10 on the redirect of [Scenario]: the one entry that the call creates
    ends in ".pdf" and is listed by the glob. *)
Lemma cached_files_match_glob_old_pdf :
  Py.endswith "73f6027ddc92e918_old.pdf" ".pdf" = true
  /\ exists paths total,
       snd (glob_pdf (fst (fetch Scenario.env "https://example.com/old.pdf" false fresh)))
       = Return paths
       /\ "73f6027ddc92e918_old.pdf" ∈ paths
       /\ snd (get_cache_stats
                 (fst (fetch Scenario.env "https://example.com/old.pdf" false fresh)))
          = Return (len paths, total).
Proof.
  destruct (cached_files_match_glob Scenario.env "https://example.com/old.pdf" false fresh)
    as [_ Hlisted].
  apply (Hlisted "73f6027ddc92e918_old.pdf").
  replace (files (fst (fetch Scenario.env "https://example.com/old.pdf" false fresh))
             !! "73f6027ddc92e918_old.pdf")
    with (Some (mkFile Scenario.valid_pdf_bytes false)) by (vm_compute; reflexivity).
  discriminate.
Defined.

(** ** The redirect cap *)

Lemma follow_through_redirects (env : Env) (url : string) (k : nat) :
  forall cur final n,
    Redirects env k cur final ->
    outcome (follow env (k + n) url cur) = outcome (follow env n url final).
Proof.
  induction k as [|k IH]; intros cur final n Hchain; inversion Hchain; subst.
  - reflexivity.
  - cbn [Nat.add]. rewrite follow_outcome_S.
    match goal with
    | Hs : stream env cur = Some _, Hr : is_redirect _ = true,
      Ht : next_request _ = Some _, Hp : passes_guard env _ |- _ =>
        rewrite Hs, Hr, Ht, (proj1 (passes_guard_outcome _ _) Hp)
    end.
    now apply IH.
Qed.


(** C6, the defect. A chain of exactly ten redirects, each to a URL that the
    guard lets through, is refused with the too-many-redirects error
    whatever its tenth target answers: the loop makes ten requests in all,
    so it follows nine redirects, one fewer than [MAX_REDIRECTS], which the
    source documents as the number of redirects to follow. *)
Theorem ten_redirects_are_refused (env : Env) (url final : string) (w : World) :
  passes_guard env url -> Redirects env 10 url final ->
  snd (fetch env url true w) = Raise (ValueError TooManyRedirects).
Proof.
  intros Hpass Hchain. apply (proj1 (passes_guard_outcome _ _)) in Hpass.
  pose proof (follow_through_redirects env url 10 url final 0 Hchain) as Hloop.
  change (10 + 0)%nat with MAX_REDIRECTS in Hloop. cbn [follow] in Hloop.
  change (outcome (raise (ValueError TooManyRedirects)))
    with (@Raise (list byte) (ValueError TooManyRedirects)) in Hloop.
  destruct (fetch_cases env url true w)
    as [e Hguard | w2 p Hguard Hfr Hlookup | e Hguard Hmiss Hloop'
        | content filename Hguard Hmiss Hloop' Hname]; try congruence.
Qed.

(** Ten redirects that end at a PDF, and nine. *)
Lemma ten_redirects_are_refused_chain :
  stream (Scenario.chain 10) (Scenario.hop 10) = Some Scenario.pdf_response
  /\ snd (fetch (Scenario.chain 10) (Scenario.hop 0) true fresh)
     = Raise (ValueError TooManyRedirects)
  /\ snd (fetch (Scenario.chain 10) (Scenario.hop 0) false fresh)
     = Raise (ValueError TooManyRedirects)
  /\ snd (fetch (Scenario.chain 9) (Scenario.hop 0) false fresh)
     = Return "cf80c0c5920a7df2.pdf".
Proof.
  split; [reflexivity |]. split; [| split].
  - apply (ten_redirects_are_refused (Scenario.chain 10) (Scenario.hop 0) (Scenario.hop 10)).
    + apply passes_guard_outcome. vm_compute. reflexivity.
    + repeat (eapply redirects_step;
              [ reflexivity | reflexivity | reflexivity
              | apply passes_guard_outcome; vm_compute; reflexivity | ]).
      apply redirects_none.
  - vm_compute. reflexivity.
  - vm_compute. reflexivity.
Defined.

(** * The tests of the repository, replayed on the model *)

Module Replay.
Import Scenario.

Example test_localhost_blocked :
  map (fun url => snd (_validate_url env url fresh))
      ["https://localhost/secret.pdf"; "https://127.0.0.1/secret.pdf";
       "https://0.0.0.0/secret.pdf"; "http://[::1]/secret.pdf"]
  = [Raise (ValueError (TargetsLocalhost "https://localhost/secret.pdf"));
     Raise (ValueError (TargetsLocalhost "https://127.0.0.1/secret.pdf"));
     Raise (ValueError (TargetsLocalhost "https://0.0.0.0/secret.pdf"));
     Raise (ValueError (TargetsLocalhost "http://[::1]/secret.pdf"))].
Proof. vm_compute. reflexivity. Qed.

Example test_private_ip_blocked :
  snd (_validate_url env "https://internal-server.corp/secret.pdf" fresh)
  = Raise (ValueError (PrivateAddress "https://internal-server.corp/secret.pdf")).
Proof. vm_compute. reflexivity. Qed.

Example test_non_http_scheme_blocked :
  _validate_url env "ftp://example.com/test.pdf" fresh
  = (mkWorld ∅ ∅ [Validate "ftp://example.com/test.pdf"],
     Raise (ValueError (OnlyHttpAllowed "ftp"))).
Proof. vm_compute. reflexivity. Qed.

Example test_public_ip_allowed :
  _validate_url env "https://example.com/old.pdf" fresh
  = (mkWorld ∅ ∅ [Validate "https://example.com/old.pdf"; Resolve "example.com"],
     Return tt).
Proof. vm_compute. reflexivity. Qed.

Example test_is_private_ip :
  snd (_is_private_ip env "169.254.169.254" fresh) = Return true
  /\ snd (_is_private_ip env "internal-server.corp" fresh) = Return true
  /\ snd (_is_private_ip env "example.com" fresh) = Return false.
Proof. repeat split; vm_compute; reflexivity. Qed.

Example test_dns_failure_treated_as_private :
  snd (_is_private_ip offline "unknown-host" fresh) = Return true.
Proof. vm_compute. reflexivity. Qed.

Example test_cache_miss_returns_none :
  get_local_path env "https://example.com/old.pdf" fresh = (fresh, Return None).
Proof. vm_compute. reflexivity. Qed.

Example test_memory_cache_hit :
  snd (get_local_path env "https://example.com/old.pdf"
         (mkWorld {["https://example.com/old.pdf" := "test.pdf"]}
                  {["test.pdf" := mkFile valid_pdf_bytes false]} []))
  = Return (Some "test.pdf").
Proof. vm_compute. reflexivity. Qed.

Example test_stale_memory_cache_returns_none :
  snd (get_local_path env "https://example.com/old.pdf"
         (mkWorld {["https://example.com/old.pdf" := "deleted.pdf"]} ∅ []))
  = Return None.
Proof. vm_compute. reflexivity. Qed.

Example test_disk_cache_discovery :
  get_local_path env "https://example.com/old.pdf"
    (mkWorld ∅ {["73f6027ddc92e918_old.pdf" := mkFile valid_pdf_bytes false]} [])
  = (mkWorld {["https://example.com/old.pdf" := "73f6027ddc92e918_old.pdf"]}
             {["73f6027ddc92e918_old.pdf" := mkFile valid_pdf_bytes false]} [],
     Return (Some "73f6027ddc92e918_old.pdf")).
Proof. vm_compute. reflexivity. Qed.

Example test_oserror_handling :
  clear_cache (mkWorld ∅ {["test.pdf" := mkFile valid_pdf_bytes true]} [])
  = (mkWorld ∅ {["test.pdf" := mkFile valid_pdf_bytes true]} [], Return 0).
Proof. vm_compute. reflexivity. Qed.

Example test_redirect_to_public_url_allowed :
  fetch env "https://example.com/old.pdf" false fresh
  = (mkWorld {["https://example.com/old.pdf" := "73f6027ddc92e918_old.pdf"]}
             {["73f6027ddc92e918_old.pdf" := mkFile valid_pdf_bytes false]}
             [Validate "https://example.com/old.pdf"; Resolve "example.com";
              Connect "https://example.com/old.pdf";
              Validate "https://cdn.example.com/new.pdf"; Resolve "cdn.example.com";
              Connect "https://cdn.example.com/new.pdf";
              ReadChunk "https://cdn.example.com/new.pdf" 9],
     Return "73f6027ddc92e918_old.pdf").
Proof. vm_compute. reflexivity. Qed.

End Replay.

(** * Further properties of the class *)

(** ** [is_url] *)

Module PrefixFacts.
Import Py.

#[local] Arguments String.append !s1 s2 : simpl nomatch.

Lemma startswith_take (n : nat) (s pre : string) :
  (String.length pre <= n)%nat -> startswith (take n s) pre = startswith s pre.
Proof.
  revert n s; induction pre as [|p pre IH]; intros n s Hn.
  - now destruct (take n s), s.
  - destruct n as [|n]; [simpl in Hn; lia |].
    destruct s as [|c s]; [reflexivity |].
    cbn [take startswith]. rewrite IH; [reflexivity | simpl in Hn; lia].
Qed.

End PrefixFacts.

(** X1. [is_url] looks at the text alone: it holds exactly for the strings
    that begin with "http://" or with "https://", in lower case, whatever
    follows; so it depends on no more than the first eight characters. *)
Theorem is_url_prefix (source : string) :
  (is_url source = true <->
     exists rest, source = "http://" +:+ rest \/ source = "https://" +:+ rest)
  /\ (forall other, Py.take 8 other = Py.take 8 source -> is_url other = is_url source).
Proof.
  split.
  - unfold is_url. rewrite orb_true_iff, !ContentFacts.startswith_iff. split.
    + intros [[rest H] | [rest H]]; exists rest; auto.
    + intros [rest [H | H]]; [left | right]; now exists rest.
  - intros other Heq. unfold is_url.
    rewrite <- (PrefixFacts.startswith_take 8 other "http://") by (simpl; lia).
    rewrite <- (PrefixFacts.startswith_take 8 other "https://") by (simpl; lia).
    rewrite Heq.
    now rewrite !PrefixFacts.startswith_take by (simpl; lia).
Qed.

(** ** [_is_private_ip] *)

Lemma any_flagged_same_addresses (env : Env) (l l' : list string) :
  (forall a, In a l <-> In a l') -> any_flagged env l = any_flagged env l'.
Proof.
  intros Hsame. destruct (any_flagged env l) eqn:E; symmetry.
  - apply any_flagged_true in E as [a [Ha H]]. apply any_flagged_true.
    exists a. split; [now apply Hsame | exact H].
  - apply any_flagged_false. intros a Ha.
    apply (proj1 (any_flagged_false env l) E). now apply Hsame.
Qed.

Lemma is_private_ip_run (env : Env) (hostname : string) (w : World) :
  _is_private_ip env hostname w
  = (log [Resolve hostname] w,
     Return match getaddrinfo env hostname with
            | None => true
            | Some addr_infos => any_flagged env addr_infos
            end).
Proof.
  unfold _is_private_ip, bind, emit, ret, log.
  now destruct (getaddrinfo env hostname).
Qed.

(** X2. [_is_private_ip] never raises and fails closed. From every state it
    asks the resolver once, changes nothing else and returns a verdict; the
    verdict is [False] exactly when the lookup answers and every address of
    the answer can be read and carries none of the five flags. A lookup that
    fails and an address that cannot be read give [True]; an answer without
    any address gives [False]. *)
Theorem is_private_ip_fails_closed (env : Env) (hostname : string) (w : World) :
  exists blocked,
    _is_private_ip env hostname w = (log [Resolve hostname] w, Return blocked)
    /\ (blocked = false <->
        exists addr_infos,
          getaddrinfo env hostname = Some addr_infos
          /\ forall a, In a addr_infos ->
               exists ip, ip_address env a = Some ip
                 /\ is_private ip = false /\ is_loopback ip = false
                 /\ is_link_local ip = false /\ is_reserved ip = false
                 /\ is_multicast ip = false)
    /\ (getaddrinfo env hostname = None -> blocked = true)
    /\ (getaddrinfo env hostname = Some [] -> blocked = false).
Proof.
  rewrite is_private_ip_run. eexists. split; [reflexivity |].
  assert (Hflags : forall ip, flagged ip = false <->
            is_private ip = false /\ is_loopback ip = false
            /\ is_link_local ip = false /\ is_reserved ip = false
            /\ is_multicast ip = false).
  { intros ip. unfold flagged. rewrite !orb_false_iff. tauto. }
  split; [| split].
  - destruct (getaddrinfo env hostname) as [addr_infos|].
    + rewrite any_flagged_false. split.
      * intros H. exists addr_infos. split; [reflexivity |].
        intros a Ha. destruct (H a Ha) as [ip [Hip Hf]].
        exists ip. split; [exact Hip | now apply Hflags].
      * intros [l [[= <-] H]] a Ha. destruct (H a Ha) as [ip [Hip Hf]].
        exists ip. split; [exact Hip | now apply Hflags].
    + split; [discriminate | intros [l [Hl _]]; discriminate].
  - now intros ->.
  - now intros ->.
Qed.

(** X3. The verdict of [_is_private_ip] does not depend on the order in
    which the resolver lists the addresses, nor on how often it lists one:
    two answers with the same addresses give the same run, although the loop
    returns at the first address that is flagged. *)
Theorem is_private_ip_ignores_order
    (env : Env) (answers answers' : string -> option (list string))
    (hostname : string) (addr_infos addr_infos' : list string) (w : World) :
  answers hostname = Some addr_infos ->
  answers' hostname = Some addr_infos' ->
  (forall a, In a addr_infos <-> In a addr_infos') ->
  _is_private_ip (resolving env answers) hostname w
  = _is_private_ip (resolving env answers') hostname w.
Proof.
  intros H1 H2 Hsame. rewrite !is_private_ip_run. cbn [resolving getaddrinfo].
  rewrite H1, H2. do 2 f_equal.
  exact (any_flagged_same_addresses env _ _ Hsame).
Qed.

(** X3 on a host with a public and a private address, in both orders. *)
Lemma is_private_ip_ignores_order_dual_homed :
  _is_private_ip
    (resolving Scenario.env (fun _ => Some ["93.184.216.34"; "10.0.0.1"]))
    "dual.example.com" fresh
  = _is_private_ip
      (resolving Scenario.env (fun _ => Some ["10.0.0.1"; "93.184.216.34"; "10.0.0.1"]))
      "dual.example.com" fresh.
Proof.
  apply (is_private_ip_ignores_order Scenario.env _ _ "dual.example.com"
           ["93.184.216.34"; "10.0.0.1"] ["10.0.0.1"; "93.184.216.34"; "10.0.0.1"]).
  - reflexivity.
  - reflexivity.
  - intros a. simpl. tauto.
Defined.

(** ** What the guard lets through *)

Lemma flagged_false (ip : IPAddress) :
  flagged ip = false <->
  is_private ip = false /\ is_loopback ip = false /\ is_link_local ip = false
  /\ is_reserved ip = false /\ is_multicast ip = false.
Proof. unfold flagged. rewrite !orb_false_iff. tauto. Qed.

Lemma validate_url_accepts (env : Env) (url : string) :
  outcome (_validate_url env url) = Return tt <-> targets_public env url.
Proof.
  rewrite validate_url_outcome. unfold targets_public. split.
  - destruct (urlparse env url) as [parsed|] eqn:Hparse; [| discriminate].
    destruct (existsb _ _) eqn:Hscheme; cbn [negb]; [| discriminate].
    destruct (hostname parsed) as [host|] eqn:Hhost; [| discriminate].
    destruct (String.eqb host "") eqn:Hempty; [discriminate |].
    destruct (existsb (String.eqb host) localhost_names) eqn:Hlocal; [discriminate |].
    destruct (getaddrinfo env host) as [addr_infos|] eqn:Hdns; [| discriminate].
    destruct (any_flagged env addr_infos) eqn:Hflag; [discriminate |].
    intros _. exists parsed, host, addr_infos.
    apply existsb_eqb_in in Hscheme.
    apply String.eqb_neq in Hempty.
    split; [reflexivity |]. split; [| split; [exact Hhost |]].
    { destruct Hscheme as [H | [H | []]]; auto. }
    split; [exact Hempty |]. split; [| split; [exact Hdns |]].
    + intros Hin%existsb_eqb_in. congruence.
    + intros a Ha.
      destruct (proj1 (any_flagged_false env addr_infos) Hflag a Ha) as [ip [Hip Hf]].
      exists ip. split; [exact Hip | now apply flagged_false].
  - intros (parsed & host & addr_infos & -> & Hscheme & -> & Hempty & Hlocal & -> & Hall).
    replace (existsb (String.eqb (scheme parsed)) ["http"; "https"]) with true.
    2:{ symmetry. apply existsb_eqb_in. destruct Hscheme as [-> | ->]; simpl; auto. }
    cbn [negb]. apply String.eqb_neq in Hempty. rewrite Hempty.
    replace (existsb (String.eqb host) localhost_names) with false.
    2:{ symmetry. apply not_true_is_false. now intros Hin%existsb_eqb_in. }
    replace (any_flagged env addr_infos) with false; [reflexivity |].
    symmetry. apply any_flagged_false. intros a Ha.
    destruct (Hall a Ha) as [ip [Hip Hf]].
    exists ip. split; [exact Hip | now apply flagged_false].
Qed.

(** X4. The guard accepts a URL exactly when it is a public target: the URL
    can be parsed, its scheme is http or https, its host is there, not
    empty and none of localhost, 127.0.0.1, ::1 and 0.0.0.0, the lookup of
    the host answers, and every address of the answer can be read and is
    neither private nor loopback nor link-local nor reserved nor multicast.
    In every other case it raises. *)
Theorem validate_url_accepts_exactly (env : Env) (url : string) (w : World) :
  (snd (_validate_url env url w) = Return tt <-> targets_public env url)
  /\ (~ targets_public env url -> exists e, snd (_validate_url env url w) = Raise e).
Proof.
  rewrite validate_url_run. cbn [snd]. split.
  - apply validate_url_accepts.
  - intros Hnot. destruct (outcome (_validate_url env url)) as [[] | e] eqn:Hout.
    + destruct Hnot. now apply validate_url_accepts.
    + now exists e.
Qed.

(** ** Calls of [fetch] that go to the network *)

(** A call that sends a request passed the guard and ran the redirect
    loop; it ends as the loop ends, and stores what the loop returns. *)
Lemma fetch_went_out (env : Env) (url : string) (force_refresh : bool) (w : World)
    (evs : list Event) (u : string) :
  trace (fst (fetch env url force_refresh w)) = trace w ++ evs ->
  In (Connect u) evs ->
  outcome (_validate_url env url) = Return tt
  /\ evs = events (_validate_url env url) ++ events (follow env MAX_REDIRECTS url url)
  /\ In (Connect u) (events (follow env MAX_REDIRECTS url url))
  /\ match outcome (follow env MAX_REDIRECTS url url) with
     | Raise e =>
         fst (fetch env url force_refresh w) = log evs w
         /\ snd (fetch env url force_refresh w) = Raise e
     | Return content =>
         exists filename,
           outcome (_get_cache_filename env url) = Return filename
           /\ fst (fetch env url force_refresh w)
              = persist url filename content (log evs w)
           /\ snd (fetch env url force_refresh w) = Return filename
     end.
Proof.
  intros Htrace Hin.
  assert (Hstop : forall evs',
    trace w ++ evs' = trace w ++ evs -> evs' = events (_validate_url env url) -> False).
  { intros evs' Heq ->. apply app_inv_head in Heq. subst evs.
    apply in_split in Hin as [pre [post Heq]].
    destruct (guard_events_shape env url _ eq_refl) as [Hnoconn _].
    exact (Hnoconn pre u post Heq). }
  assert (Hnet : forall evs',
    trace w ++ evs' = trace w ++ evs ->
    evs' = events (_validate_url env url) ++ events (follow env MAX_REDIRECTS url url) ->
    evs = events (_validate_url env url) ++ events (follow env MAX_REDIRECTS url url)
    /\ In (Connect u) (events (follow env MAX_REDIRECTS url url))).
  { intros evs' Heq ->. apply app_inv_head in Heq. subst evs.
    split; [reflexivity |].
    apply in_app_or in Hin as [Hin | Hin]; [| exact Hin].
    destruct (validate_url_events env url) as [rs [Hev Hrs]].
    rewrite Hev in Hin. destruct Hin as [Hin | Hin]; [discriminate |].
    destruct (resolves_no_connect _ _ Hrs Hin). }
  destruct (fetch_cases env url force_refresh w)
    as [e Hguard | w2 p Hguard Hfr Hlookup | e Hguard Hmiss Hloop
        | content filename Hguard Hmiss Hloop Hname].
  - destruct (Hstop _ Htrace eq_refl).
  - destruct (get_local_path_hit env url _ _ _ Hlookup) as [_ [Htrace' _]].
    cbn [fst] in Htrace. rewrite Htrace' in Htrace.
    destruct (Hstop _ Htrace eq_refl).
  - destruct (Hnet _ Htrace eq_refl) as [Hevs Hin'].
    rewrite Hloop, <- Hevs. auto.
  - destruct (Hnet _ Htrace eq_refl) as [Hevs Hin'].
    rewrite Hloop, <- Hevs. split; [exact Hguard |]. split; [reflexivity |].
    split; [exact Hin' |]. exists filename. auto.
Qed.

Lemma fetch_connect_guarded (env : Env) (url : string) (force_refresh : bool) (w : World)
    (evs : list Event) (u : string) :
  trace (fst (fetch env url force_refresh w)) = trace w ++ evs ->
  In (Connect u) evs -> passes_guard env u.
Proof.
  intros Htrace Hin.
  destruct (fetch_went_out env url force_refresh w evs u Htrace Hin) as (Hguard & Hevs & _ & _).
  destruct (network_events_shape env url MAX_REDIRECTS evs Hguard Hevs) as [Hconn _].
  apply in_split in Hin as [pre [post Heq]].
  now destruct (Hconn pre u post Heq) as [_ [Hpass _]].
Qed.

(** X5. [fetch] sends requests to public targets only. Every URL that a
    call connects to, the one it was given and every redirect target after
    it, parses to http or https with a host that is none of the literal
    names of this machine, and the lookup of that host answers with
    addresses that are all readable and neither private nor loopback nor
    link-local nor reserved nor multicast. *)
Theorem fetch_connects_only_to_public
    (env : Env) (url : string) (force_refresh : bool) (w : World)
    (evs : list Event) (u : string) :
  trace (fst (fetch env url force_refresh w)) = trace w ++ evs ->
  In (Connect u) evs -> targets_public env u.
Proof.
  intros Htrace Hin. apply validate_url_accepts.
  apply (proj1 (passes_guard_outcome env u)).
  exact (fetch_connect_guarded env url force_refresh w evs u Htrace Hin).
Qed.

(** X5 on the redirect of [Scenario]: the host of the target that the call
    connects to is public. *)
Lemma fetch_connects_only_to_public_cdn :
  targets_public Scenario.env "https://cdn.example.com/new.pdf".
Proof.
  apply (fetch_connects_only_to_public Scenario.env "https://example.com/old.pdf" false fresh
           [Validate "https://example.com/old.pdf"; Resolve "example.com";
            Connect "https://example.com/old.pdf";
            Validate "https://cdn.example.com/new.pdf"; Resolve "cdn.example.com";
            Connect "https://cdn.example.com/new.pdf";
            ReadChunk "https://cdn.example.com/new.pdf" 9]).
  - vm_compute. reflexivity.
  - simpl. tauto.
Defined.

(** ** [get_local_path] *)

(** A lookup either leaves the state as it is, or finds the file of the URL
    in the directory and records it in the index. *)
Lemma get_local_path_result (env : Env) (url : string) (w : World) :
  get_local_path env url w = (w, snd (get_local_path env url w))
  \/ exists filename,
       outcome (_get_cache_filename env url) = Return filename
       /\ is_Some (files w !! filename)
       /\ get_local_path env url w
          = (mkWorld (<[url := filename]> (_url_to_path w)) (files w) (trace w),
             Return (Some filename)).
Proof.
  rewrite !get_local_path_run. cbv zeta.
  assert (Hprobe :
    let probe :=
      match outcome (_get_cache_filename env url) with
      | Raise e => (w, @Raise (option string) e)
      | Return filename =>
          if bool_decide (is_Some (files w !! filename))
          then (mkWorld (<[url := filename]> (_url_to_path w)) (files w) (trace w),
                Return (Some filename))
          else (w, Return None)
      end in
    probe = (w, snd probe)
    \/ exists filename,
         outcome (_get_cache_filename env url) = Return filename
         /\ is_Some (files w !! filename)
         /\ probe = (mkWorld (<[url := filename]> (_url_to_path w)) (files w) (trace w),
                     Return (Some filename))).
  { cbv zeta. destruct (outcome (_get_cache_filename env url)) as [filename | e];
      [| now left].
    case_bool_decide as Hthere; [| now left].
    right. exists filename. auto. }
  cbv zeta in Hprobe.
  destruct (_url_to_path w !! url) as [p|]; [| exact Hprobe].
  destruct (bool_decide (is_Some (files w !! p))); [now left | exact Hprobe].
Qed.

(** X6. [get_local_path] only reads the directory and sends nothing: it
    leaves the files and the trace as they are and touches no entry of the
    index but the one of its URL. A path that it returns names a file that
    is there, and is what the index holds for the URL afterwards; when it
    answers [None] the state is unchanged and the directory has no file
    under the cache file name of the URL; and when it raises, the state
    is unchanged too. *)
Theorem get_local_path_reads_only (env : Env) (url : string) (w : World) :
  files (fst (get_local_path env url w)) = files w
  /\ trace (fst (get_local_path env url w)) = trace w
  /\ (forall other, other <> url ->
        _url_to_path (fst (get_local_path env url w)) !! other = _url_to_path w !! other)
  /\ (forall p, snd (get_local_path env url w) = Return (Some p) ->
        is_Some (files w !! p)
        /\ _url_to_path (fst (get_local_path env url w)) !! url = Some p)
  /\ (snd (get_local_path env url w) = Return None ->
        fst (get_local_path env url w) = w
        /\ forall filename,
             outcome (_get_cache_filename env url) = Return filename ->
             files w !! filename = None)
  /\ (forall e, snd (get_local_path env url w) = Raise e ->
        fst (get_local_path env url w) = w).
Proof.
  assert (Hframe : files (fst (get_local_path env url w)) = files w
                   /\ trace (fst (get_local_path env url w)) = trace w
                   /\ forall other, other <> url ->
                        _url_to_path (fst (get_local_path env url w)) !! other
                        = _url_to_path w !! other).
  { destruct (get_local_path_result env url w) as [-> | (filename & _ & _ & ->)];
      cbn [fst files trace _url_to_path]; [auto |].
    split; [reflexivity |]. split; [reflexivity |].
    intros other Hne. now rewrite lookup_insert_ne. }
  destruct Hframe as (Hfiles & Htrace & Hindex).
  split; [exact Hfiles |]. split; [exact Htrace |]. split; [exact Hindex |].
  split; [| split].
  - intros p Hp.
    destruct (get_local_path_hit env url w (fst (get_local_path env url w)) p)
      as (_ & _ & Hidx & Hthere); [| auto].
    rewrite <- Hp. apply surjective_pairing.
  - intros Hnone. split.
    + apply (get_local_path_other env url w _ (snd (get_local_path env url w)));
        [apply surjective_pairing |].
      intros p. rewrite Hnone. discriminate.
    + intros filename Hname. revert Hnone.
      rewrite get_local_path_run, Hname. cbv zeta.
      assert (Hprobe :
        snd (if bool_decide (is_Some (files w !! filename))
             then (mkWorld (<[url := filename]> (_url_to_path w)) (files w) (trace w),
                   Return (Some filename))
             else (w, Return None)) = Return None ->
        files w !! filename = None).
      { case_bool_decide as Hthere; [discriminate |].
        intros _. now apply eq_None_not_Some. }
      destruct (_url_to_path w !! url) as [p|]; [| exact Hprobe].
      destruct (bool_decide (is_Some (files w !! p))); [discriminate | exact Hprobe].
  - intros e He.
    apply (get_local_path_other env url w _ (snd (get_local_path env url w)));
      [apply surjective_pairing |].
    intros p. rewrite He. discriminate.
Qed.

(** X7. [get_local_path] is idempotent: a second lookup of the same URL
    gives the answer of the first and leaves the state that the first one
    left. *)
Theorem get_local_path_twice (env : Env) (url : string) (w : World) :
  get_local_path env url (fst (get_local_path env url w))
  = (fst (get_local_path env url w), snd (get_local_path env url w)).
Proof.
  destruct (get_local_path_result env url w) as [Hsame | (filename & _ & Hthere & Hrun)].
  - rewrite Hsame at 1 2. cbn [fst]. exact Hsame.
  - rewrite Hrun. cbn [fst snd]. rewrite get_local_path_run.
    cbn [_url_to_path files trace]. rewrite lookup_insert_eq.
    now rewrite bool_decide_eq_true_2.
Qed.

(** ** The index over the life of a fetcher *)

Lemma index_sound_log (env : Env) (evs : list Event) (w : World) :
  index_sound env w -> index_sound env (log evs w).
Proof. intros H. exact H. Qed.

Lemma index_sound_lookup (env : Env) (url : string) (w : World) :
  index_sound env w -> index_sound env (fst (get_local_path env url w)).
Proof.
  intros Hw.
  destruct (get_local_path_result env url w) as [-> | (filename & Hname & Hthere & ->)];
    [exact Hw |].
  intros u p. cbn [fst _url_to_path files].
  destruct (decide (u = url)) as [-> | Hne].
  - rewrite lookup_insert_eq. intros [= <-]. auto.
  - rewrite lookup_insert_ne by congruence. apply Hw.
Qed.

Lemma index_sound_persist (env : Env) (url filename : string) (content : list byte)
    (w : World) :
  outcome (_get_cache_filename env url) = Return filename ->
  index_sound env w -> index_sound env (persist url filename content w).
Proof.
  intros Hname Hw u p. cbn [persist _url_to_path files].
  destruct (decide (u = url)) as [-> | Hne].
  - rewrite lookup_insert_eq. intros [= <-]. split; [exact Hname |].
    rewrite lookup_insert_eq. eauto.
  - rewrite lookup_insert_ne by congruence. intros Hu.
    destruct (Hw u p Hu) as [Hp Hthere]. split; [exact Hp |].
    apply lookup_insert_is_Some'. now right.
Qed.

Lemma index_sound_fetch (env : Env) (url : string) (force_refresh : bool) (w : World) :
  index_sound env w -> index_sound env (fst (fetch env url force_refresh w)).
Proof.
  intros Hw.
  destruct (fetch_cases env url force_refresh w)
    as [e Hguard | w2 p Hguard Hfr Hlookup | e Hguard Hmiss Hloop
        | content filename Hguard Hmiss Hloop Hname].
  - exact Hw.
  - replace w2 with (fst (get_local_path env url (log (events (_validate_url env url)) w)))
      by now rewrite Hlookup.
    now apply index_sound_lookup.
  - exact Hw.
  - now apply index_sound_persist.
Qed.

(** The glob, the loop and the index of [clear_cache] in one step. *)
Lemma clear_cache_run (w : World) :
  exists m',
    clear_cache w
    = (mkWorld ∅ m' (trace w),
       Return (len (List.filter (deletable (files w)) (pdf_names (files w)))))
    /\ forall name,
         m' !! name = if Py.endswith name ".pdf" && deletable (files w) name
                      then None else files w !! name.
Proof.
  assert (Hnodup : NoDup (pdf_names (files w))) by (apply NoDup_filter, NoDup_elements).
  destruct (unlink_all_run (pdf_names (files w)) w 0 Hnodup) as [m' [Hrun Hm']].
  exists m'. split.
  - unfold clear_cache. unfold bind at 1. rewrite glob_pdf_run.
    change (filter _ (elements (dom (files w)))) with (pdf_names (files w)).
    unfold bind at 1. rewrite Hrun. reflexivity.
  - intros name. rewrite Hm'.
    destruct (deletable (files w) name) eqn:Hdel; [| now rewrite !andb_false_r].
    rewrite !andb_true_r.
    destruct (Py.endswith name ".pdf") eqn:Hpdf.
    + rewrite bool_decide_eq_true_2; [reflexivity |].
      apply glob_pdf_lists. split; [exact Hpdf |].
      unfold deletable in Hdel. destruct (files w !! name); [eauto | discriminate].
    + rewrite bool_decide_eq_false_2; [reflexivity |].
      intros [Hbad _]%glob_pdf_lists. congruence.
Qed.

Lemma get_cache_stats_run (w : World) :
  get_cache_stats w
  = (w, Return (len (pdf_names (files w)),
                fold_right Z.add 0 (map (size_of (files w)) (pdf_names (files w))))).
Proof. reflexivity. Qed.

Lemma reachable_index_sound (env : Env) (w : World) :
  Reachable env w -> index_sound env w.
Proof.
  induction 1 as [cache_dir | hostname w _ IH | url w _ IH | url w _ IH | url w _ IH
                  | url force_refresh w _ IH | w _ IH | w _ IH].
  - intros u p. cbn [__init__ _url_to_path]. now rewrite lookup_empty.
  - rewrite is_private_ip_run. exact IH.
  - rewrite validate_url_run. exact IH.
  - rewrite get_cache_filename_run. exact IH.
  - now apply index_sound_lookup.
  - now apply index_sound_fetch.
  - destruct (clear_cache_run w) as [m' [-> _]].
    intros u p. cbn [fst _url_to_path]. now rewrite lookup_empty.
  - rewrite get_cache_stats_run. exact IH.
Qed.

(** A call that returns a path leaves that path in the index. *)
Lemma fetch_returns_indexed (env : Env) (url : string) (force_refresh : bool)
    (w : World) (p : string) :
  snd (fetch env url force_refresh w) = Return p ->
  _url_to_path (fst (fetch env url force_refresh w)) !! url = Some p
  /\ outcome (_validate_url env url) = Return tt.
Proof.
  destruct (fetch_cases env url force_refresh w)
    as [e Hguard | w2 q Hguard Hfr Hlookup | e Hguard Hmiss Hloop
        | content filename Hguard Hmiss Hloop Hname]; try discriminate.
  - intros [= <-]. split; [| exact Hguard].
    now destruct (get_local_path_hit env url _ _ _ Hlookup) as (_ & _ & Hidx & _).
  - intros [= <-]. split; [| exact Hguard].
    cbn [persist _url_to_path]. apply lookup_insert_eq.
Qed.

(** X8. As long as nothing but the fetcher touches its directory, the index
    never goes stale and never mixes up two URLs: in every state that the
    methods of the class lead to from [__init__], an entry of the index
    holds the cache file name of its URL, that name ends in ".pdf", the file
    is there, and a lookup of the URL is answered from the index without a
    change of state. *)
Theorem index_stays_sound (env : Env) (w : World) (url p : string) :
  Reachable env w ->
  _url_to_path w !! url = Some p ->
  outcome (_get_cache_filename env url) = Return p
  /\ Py.endswith p ".pdf" = true
  /\ is_Some (files w !! p)
  /\ get_local_path env url w = (w, Return (Some p)).
Proof.
  intros Hreach Hidx.
  destruct (reachable_index_sound env w Hreach url p Hidx) as [Hname Hthere].
  split; [exact Hname |]. split; [| split; [exact Hthere |]].
  - now destruct (get_cache_filename_shape env url p Hname) as (_ & _ & Hpdf).
  - rewrite get_local_path_run, Hidx. cbv zeta. now rewrite bool_decide_eq_true_2.
Qed.

(** X8 after a lookup, a download and a second lookup on a directory that
    held another file. *)
Lemma index_stays_sound_old_pdf :
  get_local_path Scenario.env "https://example.com/old.pdf"
    (fst (get_local_path Scenario.env "https://example.com/old.pdf"
       (fst (fetch Scenario.env "https://example.com/old.pdf" true
          (fst (get_local_path Scenario.env "https://example.com/path/document.pdf"
             (__init__ (files Scenario.four_files))))))))
  = (fst (get_local_path Scenario.env "https://example.com/old.pdf"
       (fst (fetch Scenario.env "https://example.com/old.pdf" true
          (fst (get_local_path Scenario.env "https://example.com/path/document.pdf"
             (__init__ (files Scenario.four_files))))))),
     Return (Some "73f6027ddc92e918_old.pdf")).
Proof.
  refine (proj2 (proj2 (proj2
    (index_stays_sound Scenario.env _ "https://example.com/old.pdf"
       "73f6027ddc92e918_old.pdf" _ _)))).
  - apply reach_lookup, reach_fetch, reach_lookup, reach_init.
  - vm_compute. reflexivity.
Defined.

(** X9. The cache outlives the fetcher. When a call of [fetch] has returned
    a path in a fetcher that nothing else interfered with, a new fetcher on
    the same directory finds that path again although its index starts
    empty: [get_local_path] returns it and records it, and [fetch] returns it
    without sending a request. *)
Theorem cache_survives_restart
    (env : Env) (url : string) (force_refresh : bool) (w : World) (p : string) :
  Reachable env w ->
  snd (fetch env url force_refresh w) = Return p ->
  get_local_path env url (__init__ (files (fst (fetch env url force_refresh w))))
  = (mkWorld {[url := p]} (files (fst (fetch env url force_refresh w))) [],
     Return (Some p))
  /\ snd (fetch env url false (__init__ (files (fst (fetch env url force_refresh w)))))
     = Return p
  /\ forall u,
       ~ In (Connect u)
           (trace (fst (fetch env url false
                          (__init__ (files (fst (fetch env url force_refresh w))))))).
Proof.
  intros Hreach Hret.
  destruct (fetch_returns_indexed env url force_refresh w p Hret) as [Hidx Hguard].
  destruct (reachable_index_sound env _ (reach_fetch env url force_refresh w Hreach) url p Hidx)
    as [Hname Hthere].
  set (dir := files (fst (fetch env url force_refresh w))) in *.
  assert (Hlookup : forall evs,
    get_local_path env url (mkWorld ∅ dir evs)
    = (mkWorld {[url := p]} dir evs, Return (Some p))).
  { intros evs. rewrite get_local_path_run. cbn [_url_to_path files trace].
    rewrite lookup_empty, Hname. cbv zeta.
    rewrite bool_decide_eq_true_2 by exact Hthere.
    now rewrite insert_empty. }
  split; [apply Hlookup |].
  rewrite fetch_run, Hguard. cbv zeta.
  unfold __init__, log. cbn [_url_to_path files trace app].
  rewrite Hlookup. cbn [fst snd trace].
  split; [reflexivity |].
  intros u Hin.
  destruct (guard_events_shape env url _ eq_refl) as [Hnoconn _].
  apply in_split in Hin as [pre [post Heq]].
  exact (Hnoconn pre u post Heq).
Qed.

(** X9 on the redirect of [Scenario]. *)
Lemma cache_survives_restart_old_pdf :
  snd (fetch Scenario.env "https://example.com/old.pdf" false
         (__init__ (files (fst (fetch Scenario.env "https://example.com/old.pdf" false
                                  (__init__ ∅))))))
  = Return "73f6027ddc92e918_old.pdf".
Proof.
  refine (proj1 (proj2
    (cache_survives_restart Scenario.env "https://example.com/old.pdf" false
       (__init__ ∅) "73f6027ddc92e918_old.pdf" (reach_init _ _) _))).
  vm_compute. reflexivity.
Defined.

(** X10. The path of a URL is stable. In a fetcher that nothing else
    interfered with, whatever [fetch] and [get_local_path] return for a URL is
    the cache file name of that very URL, also when the download went
    through redirects; so two calls for one URL, in any two such states and
    with any choice of [force_refresh], never return two different paths. *)
Theorem fetch_returns_the_name_of_the_url
    (env : Env) (url : string) (force_refresh : bool) (w : World) (p : string) :
  Reachable env w ->
  snd (fetch env url force_refresh w) = Return p
  \/ snd (get_local_path env url w) = Return (Some p) ->
  outcome (_get_cache_filename env url) = Return p
  /\ forall w' force_refresh' p',
       Reachable env w' ->
       snd (fetch env url force_refresh' w') = Return p'
       \/ snd (get_local_path env url w') = Return (Some p') ->
       p' = p.
Proof.
  assert (Hname : forall w0 refresh q,
    Reachable env w0 ->
    snd (fetch env url refresh w0) = Return q
    \/ snd (get_local_path env url w0) = Return (Some q) ->
    outcome (_get_cache_filename env url) = Return q).
  { intros w0 refresh q Hreach [Hret | Hret].
    - destruct (fetch_returns_indexed env url refresh w0 q Hret) as [Hidx _].
      now destruct (reachable_index_sound env _ (reach_fetch env url refresh w0 Hreach)
                      url q Hidx).
    - destruct (get_local_path_hit env url w0 (fst (get_local_path env url w0)) q)
        as (_ & _ & Hidx & _).
      { rewrite <- Hret. apply surjective_pairing. }
      now destruct (reachable_index_sound env _ (reach_lookup env url w0 Hreach) url q Hidx). }
  intros Hreach Hret. split; [exact (Hname w force_refresh p Hreach Hret) |].
  intros w' force_refresh' p' Hreach' Hret'.
  pose proof (Hname w force_refresh p Hreach Hret) as H1.
  pose proof (Hname w' force_refresh' p' Hreach' Hret') as H2.
  rewrite H1 in H2. now apply Return_inj in H2.
Qed.

(** X10 on the redirect of [Scenario]: the file is named after the URL that
    was asked for, not after the target that answered. *)
Lemma fetch_returns_the_name_of_the_url_old_pdf :
  outcome (_get_cache_filename Scenario.env "https://example.com/old.pdf")
  = Return "73f6027ddc92e918_old.pdf".
Proof.
  refine (proj1
    (fetch_returns_the_name_of_the_url Scenario.env "https://example.com/old.pdf"
       false (__init__ ∅) "73f6027ddc92e918_old.pdf" (reach_init _ _) (or_introl _))).
  vm_compute. reflexivity.
Defined.

(** ** [clear_cache] and [get_cache_stats] together *)

Lemma pdf_names_lists (m : gmap string File) (name : string) :
  name ∈ pdf_names m <-> Py.endswith name ".pdf" = true /\ is_Some (m !! name).
Proof.
  unfold pdf_names.
  rewrite list_elem_of_filter, elem_of_elements, elem_of_dom, Is_true_true. reflexivity.
Qed.

Lemma pdf_names_NoDup (m : gmap string File) : NoDup (pdf_names m).
Proof. apply NoDup_filter, NoDup_elements. Qed.

Lemma filter_none {A} (f : A -> bool) (l : list A) :
  (forall x, In x l -> f x = false) -> List.filter f l = [].
Proof.
  induction l as [|a l IH]; intros H; [reflexivity |].
  cbn [List.filter]. rewrite (H a (or_introl eq_refl)).
  apply IH. intros x Hx. apply H. now right.
Qed.

(** What [clear_cache] leaves of the "*.pdf" files cannot be unlinked. *)
Lemma cleared_not_deletable (m m' : gmap string File) :
  (forall name, m' !! name = if Py.endswith name ".pdf" && deletable m name
                             then None else m !! name) ->
  forall name, Py.endswith name ".pdf" = true -> deletable m' name = false.
Proof.
  intros Hm' name Hpdf. unfold deletable at 1. rewrite Hm', Hpdf. cbn [andb].
  destruct (deletable m name) eqn:Hdel; [reflexivity | exact Hdel].
Qed.

(** X11. [clear_cache] is idempotent: called again right away it deletes
    nothing, returns 0 and leaves the state that the first call left, also
    when files that could not be unlinked are still there. *)
Theorem clear_cache_twice (w : World) :
  clear_cache (fst (clear_cache w)) = (fst (clear_cache w), Return 0).
Proof.
  destruct (clear_cache_run w) as [m' [-> Hm']]. cbn [fst].
  destruct (clear_cache_run (mkWorld ∅ m' (trace w))) as [m'' [-> Hm'']].
  cbn [files trace] in *.
  pose proof (cleared_not_deletable (files w) m' Hm') as Hstuck.
  f_equal.
  - f_equal. apply map_eq. intros name. rewrite Hm''.
    destruct (Py.endswith name ".pdf") eqn:Hpdf; [| reflexivity].
    now rewrite (Hstuck name Hpdf).
  - f_equal. rewrite filter_none; [reflexivity |].
    intros name Hin%list_elem_of_In%pdf_names_lists. now apply Hstuck.
Qed.

Lemma sum_permutation (g : string -> Z) (l k : list string) :
  l ≡ₚ k -> fold_right Z.add 0 (map g l) = fold_right Z.add 0 (map g k).
Proof. induction 1; cbn [map fold_right]; lia. Qed.

Lemma sum_filter (g : string -> Z) (f : string -> bool) (l : list string) :
  (forall x, 0 <= g x) ->
  0 <= fold_right Z.add 0 (map g (List.filter f l)) <= fold_right Z.add 0 (map g l).
Proof.
  intros Hg. induction l as [|a l IH]; cbn [List.filter map fold_right]; [lia |].
  specialize (Hg a). destruct (f a); cbn [map fold_right]; lia.
Qed.

Lemma sum_ext (g h : string -> Z) (l : list string) :
  (forall x, In x l -> g x = h x) ->
  fold_right Z.add 0 (map g l) = fold_right Z.add 0 (map h l).
Proof. intros H. f_equal. now apply map_ext_in. Qed.

Lemma size_of_nonneg (m : gmap string File) (name : string) : 0 <= size_of m name.
Proof. unfold size_of. destruct (m !! name); [apply len_nonneg | lia]. Qed.

Lemma pdf_names_after_clear (m m' : gmap string File) :
  (forall name, m' !! name = if Py.endswith name ".pdf" && deletable m name
                             then None else m !! name) ->
  pdf_names m' ≡ₚ List.filter (fun name => negb (deletable m name)) (pdf_names m).
Proof.
  intros Hm'. apply NoDup_Permutation.
  - apply pdf_names_NoDup.
  - apply NoDup_ListNoDup, List.NoDup_filter, NoDup_ListNoDup, pdf_names_NoDup.
  - intros name.
    rewrite (list_elem_of_In (List.filter _ _) name), filter_In, <- list_elem_of_In.
    rewrite !pdf_names_lists, Hm'. split.
    + intros [Hpdf Hthere]. rewrite Hpdf in Hthere. cbn [andb] in Hthere.
      destruct (deletable m name); [now destruct Hthere | auto].
    + intros [[Hpdf Hthere] Hdel]. split; [exact Hpdf |].
      rewrite Hpdf. cbn [andb]. now destruct (deletable m name).
Qed.

(** X12. [clear_cache] and [get_cache_stats] agree. The number of cached
    files that [get_cache_stats] reports after a call of [clear_cache] is
    the number it reported before minus the count that [clear_cache]
    returned; that count lies between 0 and the number reported before; and
    the total size does not grow and stays at least 0. *)
Theorem clear_cache_accounts (w : World) :
  exists n total count n' total',
    get_cache_stats w = (w, Return (n, total))
    /\ snd (clear_cache w) = Return count
    /\ get_cache_stats (fst (clear_cache w)) = (fst (clear_cache w), Return (n', total'))
    /\ n' = n - count /\ 0 <= count <= n /\ 0 <= total' <= total.
Proof.
  destruct (clear_cache_run w) as [m' [Hrun Hm']].
  rewrite Hrun. cbn [fst snd]. rewrite !get_cache_stats_run. cbn [files].
  do 5 eexists. split; [reflexivity |]. split; [reflexivity |]. split; [reflexivity |].
  pose proof (pdf_names_after_clear (files w) m' Hm') as Hperm.
  pose proof (List.filter_length (deletable (files w)) (pdf_names (files w))) as Hlen.
  unfold len. rewrite (Permutation_length Hperm).
  split; [lia |]. split; [lia |].
  rewrite (sum_permutation _ _ _ Hperm).
  rewrite (sum_ext (size_of m') (size_of (files w))).
  - apply sum_filter, size_of_nonneg.
  - intros name [_ Hdel]%filter_In. unfold size_of. rewrite Hm'.
    apply negb_true_iff in Hdel. rewrite Hdel. now rewrite andb_false_r.
Qed.

Lemma sum_update (g g' : string -> Z) (p : string) (l : list string) :
  NoDup l -> p ∈ l -> (forall x, x <> p -> g' x = g x) ->
  fold_right Z.add 0 (map g' l) = fold_right Z.add 0 (map g l) - g p + g' p.
Proof.
  intros Hnodup Hin Hg. induction l as [|a l IH]; [now apply elem_of_nil in Hin |].
  apply NoDup_cons in Hnodup as [Hnot Hnodup]. cbn [map fold_right].
  destruct (decide (a = p)) as [-> | Hne].
  - rewrite (sum_ext g' g l); [lia |].
    intros x Hx. apply Hg. intros ->. now apply Hnot, list_elem_of_In.
  - rewrite (Hg a Hne). apply elem_of_cons in Hin as [-> | Hin]; [congruence |].
    rewrite IH by assumption. lia.
Qed.

Lemma pdf_names_insert (m : gmap string File) (p : string) (f : File) :
  Py.endswith p ".pdf" = true ->
  pdf_names (<[p := f]> m)
  ≡ₚ if bool_decide (is_Some (m !! p)) then pdf_names m else p :: pdf_names m.
Proof.
  intros Hpdf. case_bool_decide as Hthere; apply NoDup_Permutation.
  - apply pdf_names_NoDup.
  - apply pdf_names_NoDup.
  - intros name. rewrite !pdf_names_lists, lookup_insert_is_Some. split.
    + intros [Hname [<- | [_ Hm]]]; auto.
    + intros [Hname Hm]. split; [exact Hname |].
      destruct (decide (p = name)); auto.
  - apply pdf_names_NoDup.
  - apply NoDup_cons. split; [| apply pdf_names_NoDup].
    now intros [_ Hbad]%pdf_names_lists.
  - intros name. rewrite elem_of_cons, !pdf_names_lists, lookup_insert_is_Some. split.
    + intros [Hname [<- | [_ Hm]]]; auto.
    + intros [-> | [Hname Hm]]; [auto |]. split; [exact Hname |].
      destruct (decide (p = name)); auto.
Qed.

(** X13. [get_cache_stats] reads and changes nothing, and it sees what
    [fetch] stores. After a call of [fetch] that went to the network and
    returned a path, the number of cached files is one more than before when
    the directory had no file of that name, and the same when the file was
    replaced; the total size is the one before, less the old size of that
    file, plus its new size. *)
Theorem fetch_store_is_counted
    (env : Env) (url : string) (force_refresh : bool) (w : World)
    (evs : list Event) (u p : string) :
  trace (fst (fetch env url force_refresh w)) = trace w ++ evs ->
  In (Connect u) evs ->
  snd (fetch env url force_refresh w) = Return p ->
  exists n total n' total',
    get_cache_stats w = (w, Return (n, total))
    /\ get_cache_stats (fst (fetch env url force_refresh w))
       = (fst (fetch env url force_refresh w), Return (n', total'))
    /\ n' = (if bool_decide (is_Some (files w !! p)) then n else n + 1)
    /\ total' = total - size_of (files w) p
                + size_of (files (fst (fetch env url force_refresh w))) p.
Proof.
  intros Htrace Hin Hret.
  destruct (fetch_went_out env url force_refresh w evs u Htrace Hin) as (_ & _ & _ & Hend).
  destruct (outcome (follow env MAX_REDIRECTS url url)) as [content | e];
    [| destruct Hend as [_ Hbad]; congruence].
  destruct Hend as (filename & Hname & Hfst & Hsnd).
  rewrite Hsnd in Hret. apply Return_inj in Hret. subst filename.
  destruct (get_cache_filename_shape env url p Hname) as (_ & _ & Hpdf).
  rewrite Hfst, !get_cache_stats_run. cbn [persist log files].
  set (f := match files w !! p with
            | Some old => mkFile content (pinned old)
            | None => mkFile content false
            end).
  do 4 eexists. split; [reflexivity |]. split; [reflexivity |].
  pose proof (pdf_names_insert (files w) p f Hpdf) as Hperm.
  assert (Hother : forall x, x <> p -> size_of (<[p := f]> (files w)) x = size_of (files w) x).
  { intros x Hx. unfold size_of. now rewrite lookup_insert_ne. }
  unfold len. rewrite (Permutation_length Hperm), (sum_permutation _ _ _ Hperm).
  case_bool_decide as Hthere.
  - split; [reflexivity |].
    apply sum_update; [apply pdf_names_NoDup | now apply pdf_names_lists | exact Hother].
  - split; [cbn [length]; lia |].
    cbn [map fold_right].
    rewrite (sum_ext (size_of (<[p := f]> (files w))) (size_of (files w))).
    + apply eq_None_not_Some in Hthere.
      assert (Hzero : size_of (files w) p = 0) by (unfold size_of; now rewrite Hthere).
      rewrite Hzero. lia.
    + intros x Hx%list_elem_of_In%pdf_names_lists. apply Hother.
      intros ->. now destruct Hx.
Qed.

(** X13 on the redirect of [Scenario] into a directory of four files: the
    file of the URL is replaced, so the count stays at four. *)
Lemma fetch_store_is_counted_replaced :
  exists total',
    snd (get_cache_stats
           (fst (fetch Scenario.env "https://example.com/old.pdf" true Scenario.four_files)))
    = Return (4, total').
Proof.
  destruct (fetch_store_is_counted Scenario.env "https://example.com/old.pdf" true
              Scenario.four_files
              [Validate "https://example.com/old.pdf"; Resolve "example.com";
               Connect "https://example.com/old.pdf";
               Validate "https://cdn.example.com/new.pdf"; Resolve "cdn.example.com";
               Connect "https://cdn.example.com/new.pdf";
               ReadChunk "https://cdn.example.com/new.pdf" 9]
              "https://example.com/old.pdf" "73f6027ddc92e918_old.pdf")
    as (n & total & n' & total' & Hbefore & Hafter & Hn & _).
  - vm_compute. reflexivity.
  - simpl. tauto.
  - vm_compute. reflexivity.
  - exists total'. rewrite Hafter. cbn [snd]. do 2 f_equal. rewrite Hn.
    assert (Hfour : get_cache_stats Scenario.four_files
                    = (Scenario.four_files, Return (4, 36))) by (vm_compute; reflexivity).
    rewrite Hfour in Hbefore. injection Hbefore as <- _.
    reflexivity.
Defined.



(** ** How much a call of [fetch] asks of the network *)

Lemma count_app (kind : Event -> bool) (a b : list Event) :
  count kind (a ++ b) = (count kind a + count kind b)%nat.
Proof. unfold count. now rewrite List.filter_app, length_app. Qed.

Lemma count_cons (kind : Event -> bool) (ev : Event) (evs : list Event) :
  count kind (ev :: evs) = ((if kind ev then 1 else 0) + count kind evs)%nat.
Proof. unfold count. cbn [List.filter]. now destruct (kind ev). Qed.

Lemma validate_url_counts (env : Env) (url : string) :
  count is_connect (events (_validate_url env url)) = 0%nat
  /\ count is_validate (events (_validate_url env url)) = 1%nat
  /\ (count is_lookup (events (_validate_url env url)) <= 1)%nat.
Proof.
  rewrite validate_url_trace.
  destruct (urlparse env url) as [parsed|]; [| cbn; lia].
  destruct (negb _); [cbn; lia |].
  destruct (hostname parsed) as [host|]; [| cbn; lia].
  destruct (String.eqb host ""); [cbn; lia |].
  destruct (existsb _ _); cbn; lia.
Qed.

Lemma reads_count (cur : string) (evs : list Event) :
  Forall (is_read_of cur) evs ->
  count is_connect evs = 0%nat /\ count is_validate evs = 0%nat
  /\ count is_lookup evs = 0%nat.
Proof.
  induction 1 as [|ev evs [size ->] _ IH]; [now cbn |].
  rewrite !count_cons. cbn [is_connect is_validate is_lookup]. lia.
Qed.

Lemma follow_counts (env : Env) (n : nat) (url : string) : forall cur,
  (count is_connect (events (follow env n url cur)) <= n)%nat
  /\ (count is_validate (events (follow env n url cur))
      <= count is_connect (events (follow env n url cur)))%nat
  /\ (count is_connect (events (follow env n url cur))
      <= count is_validate (events (follow env n url cur)) + 1)%nat
  /\ (count is_lookup (events (follow env n url cur))
      <= count is_validate (events (follow env n url cur)))%nat.
Proof.
  induction n as [|n IH]; intros cur; [cbn; lia |].
  rewrite follow_events_S, !count_cons. cbn [is_connect is_validate is_lookup].
  destruct (stream env cur) as [response|]; [| cbn; lia].
  destruct (is_redirect response).
  - destruct (next_request response) as [t|]; [| cbn; lia].
    rewrite !count_app.
    destruct (validate_url_counts env t) as (Hc & Hv & Hl).
    destruct (outcome (_validate_url env t)).
    + specialize (IH t). lia.
    + cbn. lia.
  - destruct (reads_count cur _ (receive_events_reads env url cur response))
      as (-> & -> & ->). lia.
Qed.

(** X15. A call of [fetch] is bounded. It sends at most [MAX_REDIRECTS]
    requests; it asks the guard at least once and at most once more than it
    sends requests, and never sends more requests than it asked the guard
    about; and it makes at most one lookup for each question to the guard. *)
Theorem fetch_requests_are_bounded
    (env : Env) (url : string) (force_refresh : bool) (w : World) :
  exists evs,
    trace (fst (fetch env url force_refresh w)) = trace w ++ evs
    /\ (count is_connect evs <= MAX_REDIRECTS)%nat
    /\ (count is_connect evs <= count is_validate evs)%nat
    /\ (1 <= count is_validate evs <= count is_connect evs + 1)%nat
    /\ (count is_lookup evs <= count is_validate evs)%nat.
Proof.
  destruct (validate_url_counts env url) as (Hc & Hv & Hl).
  pose proof (follow_counts env MAX_REDIRECTS url url) as Hloop.
  assert (Hguard : forall evs, evs = events (_validate_url env url) ->
    (count is_connect evs <= MAX_REDIRECTS)%nat
    /\ (count is_connect evs <= count is_validate evs)%nat
    /\ (1 <= count is_validate evs <= count is_connect evs + 1)%nat
    /\ (count is_lookup evs <= count is_validate evs)%nat).
  { intros evs ->. lia. }
  assert (Hnet : forall evs,
    evs = events (_validate_url env url) ++ events (follow env MAX_REDIRECTS url url) ->
    (count is_connect evs <= MAX_REDIRECTS)%nat
    /\ (count is_connect evs <= count is_validate evs)%nat
    /\ (1 <= count is_validate evs <= count is_connect evs + 1)%nat
    /\ (count is_lookup evs <= count is_validate evs)%nat).
  { intros evs ->. rewrite !count_app. lia. }
  destruct (fetch_cases env url force_refresh w)
    as [e Hok | w2 p Hok Hfr Hlookup | e Hok Hmiss Hrun
        | content filename Hok Hmiss Hrun Hname].
  - exists (events (_validate_url env url)). split; [reflexivity | now apply Hguard].
  - exists (events (_validate_url env url)). split; [| now apply Hguard].
    now destruct (get_local_path_hit env url _ _ _ Hlookup) as (_ & -> & _).
  - eexists. split; [reflexivity | now apply Hnet].
  - eexists. split; [reflexivity | now apply Hnet].
Qed.

(** ** Calls of [fetch] that fail on the way *)

Section Failures.

Variable env : Env.

(** The loop stops at a URL that gives no response, and at a redirect that
    names no target. *)
Lemma follow_stops (n : nat) (url : string) : forall cur u e,
  In (Connect u) (events (follow env n url cur)) ->
  (stream env u = None /\ e = TransportError)
  \/ (exists response,
        stream env u = Some response /\ is_redirect response = true
        /\ next_request response = None /\ e = ValueError RedirectNoTarget) ->
  outcome (follow env n url cur) = Raise e
  /\ exists pre, events (follow env n url cur) = pre ++ [Connect u].
Proof.
  induction n as [|n IH]; intros cur u e Hin Hend.
  - destruct Hin.
  - rewrite follow_events_S in *. rewrite follow_outcome_S.
    destruct Hin as [Hin | Hin].
    + injection Hin as ->.
      destruct Hend as [[Hs ->] | (response & Hs & Hr & Ht & ->)].
      * rewrite Hs. split; [reflexivity | now exists []].
      * rewrite Hs, Hr, Ht. split; [reflexivity | now exists []].
    + destruct (stream env cur) as [response'|] eqn:Hs'; [| destruct Hin].
      destruct (is_redirect response') eqn:Hr'.
      * destruct (next_request response') as [t|]; [| destruct Hin].
        destruct (validate_url_events env t) as [rs [Hev Hrs]].
        rewrite Hev in *. apply in_app_or in Hin as [[Hin | Hin] | Hin].
        -- discriminate.
        -- destruct (resolves_no_connect _ _ Hrs Hin).
        -- destruct (outcome (_validate_url env t)); [| destruct Hin].
           destruct (IH t u e Hin Hend) as [Hout [pre Hpre]].
           split; [exact Hout |].
           exists (Connect cur :: (Validate t :: rs) ++ pre).
           rewrite Hpre. cbn [app]. now rewrite <- app_assoc.
      * pose proof (receive_events_reads env url cur response') as Hreads.
        rewrite List.Forall_forall in Hreads.
        destruct (Hreads _ Hin) as [k Hk]. discriminate.
Qed.

Lemma fetch_stops (url : string) (force_refresh : bool) (w : World)
    (evs : list Event) (u : string) (e : Exception) :
  trace (fst (fetch env url force_refresh w)) = trace w ++ evs ->
  In (Connect u) evs ->
  (stream env u = None /\ e = TransportError)
  \/ (exists response,
        stream env u = Some response /\ is_redirect response = true
        /\ next_request response = None /\ e = ValueError RedirectNoTarget) ->
  snd (fetch env url force_refresh w) = Raise e
  /\ exists pre, evs = pre ++ [Connect u].
Proof.
  intros Htrace Hin Hend.
  destruct (fetch_went_out env url force_refresh w evs u Htrace Hin)
    as (_ & Hevs & Hin' & Hrun).
  destruct (follow_stops MAX_REDIRECTS url url u e Hin' Hend) as [Hout [pre Hpre]].
  rewrite Hout in Hrun. destruct Hrun as [_ Hsnd].
  split; [exact Hsnd |].
  exists (events (_validate_url env url) ++ pre).
  rewrite Hevs, Hpre. now rewrite app_assoc.
Qed.

End Failures.

(** X16. An error status wins over everything else in the response. When
    the response that [fetch] reaches is not a redirect and its status is
    not a success, the call fails with the status error of
    [raise_for_status], whatever the headers announce and whatever the body
    holds; the request is the last thing the call does, and no chunk of any
    body is read. *)
Theorem fetch_error_status_wins
    (env : Env) (url : string) (force_refresh : bool) (w : World)
    (evs : list Event) (u : string) (response : Response) :
  trace (fst (fetch env url force_refresh w)) = trace w ++ evs ->
  In (Connect u) evs ->
  stream env u = Some response -> is_redirect response = false ->
  status_ok response = false ->
  snd (fetch env url force_refresh w) = Raise HTTPStatusError
  /\ (exists pre, evs = pre ++ [Connect u])
  /\ forall v size, ~ In (ReadChunk v size) evs.
Proof.
  intros Htrace Hin Hs Hr Hbad.
  destruct (fetch_reaches env url force_refresh w evs u response Htrace Hin Hs Hr)
    as [[pre [Hevs Hpre]] Hend].
  destruct (receive_bad_status env url u response Hbad) as [Hev Hout].
  rewrite Hout in Hend. rewrite Hev in Hevs.
  split; [exact Hend |]. split; [now exists pre |].
  intros v size Hread. rewrite Hevs in Hread.
  apply in_app_or in Hread as [Hread | [Hread | []]]; [| discriminate].
  exact (Hpre v size Hread).
Qed.

(** X16 on a server that answers with an error status, a PDF body and a
    length over the budget. *)
Lemma fetch_error_status_wins_gone :
  snd (fetch Faults.env "https://example.com/gone.pdf" false fresh) = Raise HTTPStatusError.
Proof.
  refine (proj1 (fetch_error_status_wins Faults.env "https://example.com/gone.pdf" false fresh
                   [Validate "https://example.com/gone.pdf"; Resolve "example.com";
                    Connect "https://example.com/gone.pdf"]
                   "https://example.com/gone.pdf" _ _ _ eq_refl eq_refl eq_refl)).
  - vm_compute. reflexivity.
  - simpl. tauto.
Defined.

(** X17. A Content-Length header that is not a number makes the call fail
    with the error of [int], before any chunk is read. When the response
    that [fetch] reaches is not a redirect, has a success status and carries
    a Content-Length that is not empty and that [int] cannot read, the call
    raises that [ValueError], and the request is the last thing it does. *)
Theorem fetch_malformed_length
    (env : Env) (url : string) (force_refresh : bool) (w : World)
    (evs : list Event) (u : string) (response : Response) (h : string) :
  trace (fst (fetch env url force_refresh w)) = trace w ++ evs ->
  In (Connect u) evs ->
  stream env u = Some response -> is_redirect response = false ->
  status_ok response = true ->
  headers response !! "content-length" = Some h -> h <> "" -> int env h = None ->
  snd (fetch env url force_refresh w) = Raise LibraryValueError
  /\ (exists pre, evs = pre ++ [Connect u])
  /\ forall v size, ~ In (ReadChunk v size) evs.
Proof.
  intros Htrace Hin Hs Hr Hok Hh Hne Hint.
  destruct (fetch_reaches env url force_refresh w evs u response Htrace Hin Hs Hr)
    as [[pre [Hevs Hpre]] Hend].
  destruct (receive_malformed_length env url u response h Hok Hh Hne Hint) as [Hev Hout].
  rewrite Hout in Hend. rewrite Hev in Hevs.
  split; [exact Hend |]. split; [now exists pre |].
  intros v size Hread. rewrite Hevs in Hread.
  apply in_app_or in Hread as [Hread | [Hread | []]]; [| discriminate].
  exact (Hpre v size Hread).
Qed.

(** X17 on a server that announces the length "nine". *)
Lemma fetch_malformed_length_odd :
  snd (fetch Faults.env "https://example.com/odd.pdf" false fresh) = Raise LibraryValueError.
Proof.
  refine (proj1 (fetch_malformed_length Faults.env "https://example.com/odd.pdf" false fresh
                   [Validate "https://example.com/odd.pdf"; Resolve "example.com";
                    Connect "https://example.com/odd.pdf"]
                   "https://example.com/odd.pdf" _ "nine" _ _ eq_refl eq_refl eq_refl
                   eq_refl _ eq_refl)).
  - vm_compute. reflexivity.
  - simpl. tauto.
  - discriminate.
Defined.

(** X18. Failures of the transport are passed on as they are. When a URL
    that [fetch] connects to gives no response, the call fails with the
    transport error and the request is the last thing it does. When the
    response that it reaches has a success status and a body within the
    budget that breaks off before its end, the call reads every chunk that
    arrived and then fails with the transport error, whatever the content
    type and the first bytes are. *)
Theorem fetch_transport_failure
    (env : Env) (url : string) (force_refresh : bool) (w : World)
    (evs : list Event) (u : string) :
  trace (fst (fetch env url force_refresh w)) = trace w ++ evs ->
  In (Connect u) evs ->
  (stream env u = None ->
     snd (fetch env url force_refresh w) = Raise TransportError
     /\ exists pre, evs = pre ++ [Connect u])
  /\ (forall response,
        stream env u = Some response -> is_redirect response = false ->
        status_ok response = true -> declares_within_budget env response ->
        len (concat (body response)) <= MAX_DOWNLOAD_SIZE ->
        body_breaks response = true ->
        snd (fetch env url force_refresh w) = Raise TransportError
        /\ exists pre, evs = pre ++ Connect u :: read_events u (body response)).
Proof.
  intros Htrace Hin. split.
  - intros Hs. apply (fetch_stops env url force_refresh w evs u _ Htrace Hin). auto.
  - intros response Hs Hr Hok Hdecl Hfit Hbreaks.
    destruct (fetch_reaches env url force_refresh w evs u response Htrace Hin Hs Hr)
      as [[pre [Hevs _]] Hend].
    destruct (receive_reads env url u response Hok Hdecl) as [Hev Hout].
    destruct (read_body_within u (body response) (body_breaks response) [] 0)
      as [Hreads Hbody]; [lia |].
    rewrite Hbreaks in *. rewrite Hbody in Hout. rewrite Hout in Hend.
    split; [exact Hend |]. exists pre. now rewrite Hevs, Hev, Hreads.
Qed.

(** X18 on a host that is down and on a body that breaks off. *)
Lemma fetch_transport_failure_down_and_cut :
  snd (fetch Faults.env "https://example.com/down.pdf" false fresh) = Raise TransportError
  /\ snd (fetch Faults.env "https://example.com/cut.pdf" false fresh) = Raise TransportError.
Proof.
  split.
  - refine (proj1 (proj1 (fetch_transport_failure Faults.env "https://example.com/down.pdf"
                     false fresh
                     [Validate "https://example.com/down.pdf"; Resolve "example.com";
                      Connect "https://example.com/down.pdf"]
                     "https://example.com/down.pdf" _ _) eq_refl)).
    + vm_compute. reflexivity.
    + simpl. tauto.
  - refine (proj1 (proj2 (fetch_transport_failure Faults.env "https://example.com/cut.pdf"
                     false fresh
                     [Validate "https://example.com/cut.pdf"; Resolve "example.com";
                      Connect "https://example.com/cut.pdf";
                      ReadChunk "https://example.com/cut.pdf" 9]
                     "https://example.com/cut.pdf" _ _) _ eq_refl eq_refl eq_refl _ _ eq_refl)).
    + vm_compute. reflexivity.
    + simpl. tauto.
    + exact I.
    + vm_compute. discriminate.
Defined.

(** X19. A redirect that names no target ends the call. When a URL that
    [fetch] connects to answers with a redirect whose next request is
    missing, the call fails with the no-target [ValueError]; the request is
    the last thing it does, so the guard is not asked again and nothing is
    read. *)
Theorem fetch_redirect_without_target
    (env : Env) (url : string) (force_refresh : bool) (w : World)
    (evs : list Event) (u : string) (response : Response) :
  trace (fst (fetch env url force_refresh w)) = trace w ++ evs ->
  In (Connect u) evs ->
  stream env u = Some response -> is_redirect response = true ->
  next_request response = None ->
  snd (fetch env url force_refresh w) = Raise (ValueError RedirectNoTarget)
  /\ exists pre, evs = pre ++ [Connect u].
Proof.
  intros Htrace Hin Hs Hr Ht.
  apply (fetch_stops env url force_refresh w evs u _ Htrace Hin).
  right. now exists response.
Qed.

(** X19 on a server that redirects to nowhere. *)
Lemma fetch_redirect_without_target_lost :
  snd (fetch Faults.env "https://example.com/lost.pdf" false fresh)
  = Raise (ValueError RedirectNoTarget).
Proof.
  refine (proj1 (fetch_redirect_without_target Faults.env "https://example.com/lost.pdf"
                   false fresh
                   [Validate "https://example.com/lost.pdf"; Resolve "example.com";
                    Connect "https://example.com/lost.pdf"]
                   "https://example.com/lost.pdf" _ _ _ eq_refl eq_refl eq_refl)).
  - vm_compute. reflexivity.
  - simpl. tauto.
Defined.


